(** * Analytics queries over the ticket-sales schema

    A shallow embedding of [analytics/models.py] and
    [analytics/event_analytics.py].  Tables are finite maps from primary
    key to row; the ORM calls are unfolded into the relational operations
    they stand for (joins, grouped aggregates with NULL, COALESCE,
    ORDER BY, slicing). *)

From stdpp Require Import gmap strings list fin_maps sorting pretty.
From Stdlib Require Import ZArith QArith.
From Stdlib Require SpecFloat.
Local Open Scope Z_scope.

(** ** Column types *)

(** [DecimalField(max_digits=10, decimal_places=2)]: the value counted in
    hundredths, so [Decimal('75.00')] is [7500]. *)
Definition Decimal := Z.

(** [DateTimeField]: a point on the time line. *)
Definition DateTime := Z.

(** ** Python floats *)

(** A [float]: an IEEE 754 binary64 number, given by sign, mantissa and
    exponent as the Standard Library specifies them. *)
Definition Float : Type := SpecFloat.spec_float.

(** An integer as the operand of a division, whatever its size. *)
Definition operand (n : Z) : SpecFloat.spec_float :=
  match n with
  | 0 => SpecFloat.S754_zero false
  | Z.pos m => SpecFloat.S754_finite false m 0
  | Z.neg m => SpecFloat.S754_finite true m 0
  end.

(** [float(d)] for a [Decimal] [d] of [n] hundredths, and for the int 0
    that [d or 0] puts in the place of a zero: the binary64 number
    nearest to n / 100, ties to even, infinite when out of range.  The
    division of the Standard Library rounds the exact quotient of its
    two operands that way. *)
Definition float (n : Decimal) : Float :=
  SpecFloat.SFdiv 53 1024 (operand n) (operand 100).


(** ** analytics/models.py *)

Module Organizer.
Record t := mk {
  name : string;
  contact_email : string;
  description : string
}.
End Organizer.

Module Event.
Record t := mk {
  name : string;
  organizer : Z;                (* ForeignKey(Organizer) *)
  start_time : DateTime;
  end_time : DateTime;
  location : string;
  is_published : bool;
  capacity : option N;          (* PositiveIntegerField(null=True) *)
  start_date : DateTime;
  base_ticket_price : Decimal
}.
End Event.

Module TicketType.
Record t := mk {
  event : Z;                    (* ForeignKey(Event) *)
  name : string;
  price : Decimal;
  quantity_available : N;       (* PositiveIntegerField() *)
  is_active : bool
}.
End TicketType.

Module Order.
Record t := mk {
  customer : option Z;          (* ForeignKey(User, null=True) *)
  order_date : DateTime;
  total_amount : Decimal;
  is_paid : bool;
  discount_code : option string
}.
End Order.

Module TicketPurchase.
Record t := mk {
  order : Z;                    (* ForeignKey(Order) *)
  ticket_type : Z;              (* ForeignKey(TicketType) *)
  quantity : N;                 (* PositiveIntegerField(default=1) *)
  purchase_price_per_unit : Decimal
}.
End TicketPurchase.

Module User.
Record t := mk {
  username : string
}.
End User.

(** The relational store: one table per model, keyed by [id]. *)
Record Store := mkStore {
  organizers : gmap Z Organizer.t;
  events : gmap Z Event.t;
  ticket_types : gmap Z TicketType.t;
  orders : gmap Z Order.t;
  ticket_purchases : gmap Z TicketPurchase.t;
  users : gmap Z User.t
}.

(** [Model.objects.all()]: the rows of a table, each with its [id]. *)
Definition objects {A} (table : gmap Z A) : list (Z * A) := map_to_list table.

(** ** SQL values and aggregates *)

(** [SUM(x)]: NULL inputs are skipped; the result is NULL when nothing is
    left to add. *)
Definition Sum (xs : list (option Z)) : option Z :=
  match omap id xs with
  | [] => None
  | ys => Some (foldr Z.add 0 ys)
  end.

(** [COALESCE(x, d)] *)
Definition Coalesce {A} (x : option A) (d : A) : A :=
  match x with Some v => v | None => d end.

(** [COUNT(DISTINCT x)]: NULL inputs are not counted. *)
Definition Count_distinct (xs : list (option Z)) : nat :=
  length (remove_dups (omap id xs)).

(** [Sum(x, filter=Q(c))], i.e. [SUM(x) FILTER (WHERE c)]: a row adds [x]
    only where [c] is true; where [c] is false or unknown it adds nothing. *)
Definition filtered (c : option bool) (x : option Z) : option Z :=
  match c with Some true => x | _ => None end.

(** [a LEFT OUTER JOIN b]: the matches of a row, or one all-NULL match
    when it has none. *)
Definition left_join {B} (matches : list B) : list (option B) :=
  match matches with
  | [] => [None]
  | _ => Some <$> matches
  end.

(** Python's [x or 0] on an int. *)
Definition or_0 (x : Z) : Z := if bool_decide (x = 0) then 0 else x.

(** Plain sum of a column over rows, used to state results. *)
Definition total {A} (f : A → Z) (rows : list A) : Z :=
  foldr (λ r acc, f r + acc) 0 rows.

(** ** Result rows *)

Module EventSummary.
Record t := mk {
  event_id : Z;
  event_name : string;
  total_tickets_sold : Z;
  total_revenue : Float;
  tickets_remaining : Z;
  organizer_name : string
}.
End EventSummary.

(** An annotated [TicketType] of [get_top_selling_ticket_types]. *)
Module TicketTypeRanking.
Record t := mk {
  id : Z;
  ticket_type : TicketType.t;
  units_sold : Z;
  event_name : string
}.
End TicketTypeRanking.

(** The annotated [User] of [get_customer_purchase_statistics]. *)
Module CustomerStats.
Record t := mk {
  id : Z;
  user : User.t;
  total_orders_placed : nat;
  total_amount_spent : Decimal;
  most_purchased_event_name : option string
}.
End CustomerStats.

(** An annotated [Event] of [get_events_with_low_capacity_remaining]. *)
Module LowCapacityEvent.
Record t := mk {
  id : Z;
  event : Event.t;
  tickets_sold : Z;
  percentage_tickets_remaining : Z
}.
End LowCapacityEvent.

(** The database that evaluates the queries.  All operands of the
    percentage are integer columns, and on both backends integer [/]
    truncates toward zero; they part ways at a zero divisor, where SQLite
    yields NULL and PostgreSQL aborts the query. *)
Inductive Backend := Sqlite | Postgresql.

Inductive QueryResult (A : Type) :=
  | Rows (rows : list A)
  | DivisionByZero.
Arguments Rows {A} rows.
Arguments DivisionByZero {A}.

(** Integer [a / b] as the database computes it; [None] at [b = 0]. *)
Definition sql_div (a b : Z) : option Z :=
  if bool_decide (b = 0) then None else Some (Z.quot a b).

(** [ORDER BY key DESC] *)
Definition desc {A} (key : A → Z) : relation A := λ a b, key b ≤ key a.

Global Instance desc_dec {A} (key : A → Z) : RelDecision (desc key).
Proof. intros a b. unfold desc. apply _. Defined.

Global Instance desc_total {A} (key : A → Z) : Total (desc key).
Proof. intros a b. unfold desc. lia. Qed.

Global Instance desc_trans {A} (key : A → Z) : Transitive (desc key).
Proof. intros a b c. unfold desc. lia. Qed.

Global Instance desc_refl {A} (key : A → Z) : Reflexive (desc key).
Proof. intros a. unfold desc. lia. Qed.

Definition order_by_desc {A} (key : A → Z) (rows : list A) : list A :=
  merge_sort (desc key) rows.

Section queries.
Context (db : Store).

(** *** Columns reached through joins *)

Definition ticket_type__event (p : TicketPurchase.t) : option Z :=
  TicketType.event <$> ticket_types db !! TicketPurchase.ticket_type p.

Definition order__is_paid (p : TicketPurchase.t) : option bool :=
  Order.is_paid <$> orders db !! TicketPurchase.order p.

Definition order__customer_id (p : TicketPurchase.t) : option (option Z) :=
  Order.customer <$> orders db !! TicketPurchase.order p.

Definition ticket_type__event__name (p : TicketPurchase.t) : option string :=
  tt ← ticket_types db !! TicketPurchase.ticket_type p;
  e ← events db !! TicketType.event tt;
  Some (Event.name e).

(** [F('quantity')] and [F('purchase_price_per_unit')] as SQL values. *)
Definition F_quantity (p : TicketPurchase.t) : option Z :=
  Some (Z.of_N (TicketPurchase.quantity p)).

Definition F_purchase_price_per_unit (p : TicketPurchase.t) : option Z :=
  Some (TicketPurchase.purchase_price_per_unit p).

(** [Coalesce(F('quantity'), 0.0) * Coalesce(F('purchase_price_per_unit'), 0.0)] *)
Definition revenue_term (q price : option Z) : Z :=
  Coalesce q 0 * Coalesce price 0.

(** *** get_upcoming_events_summary *)

(** [Event.objects.filter(is_published=True, end_time__gte=now)] *)
Definition upcoming_events (now : DateTime) : list (Z * Event.t) :=
  filter (λ r, Event.is_published r.2 = true ∧ now ≤ Event.end_time r.2)
         (objects (events db)).

(** [TicketPurchase.objects.filter(ticket_type__event=event, order__is_paid=True)] *)
Definition paid_purchases_of_event (eid : Z) : list TicketPurchase.t :=
  filter (λ p, ticket_type__event p = Some eid ∧ order__is_paid p = Some true)
         (objects (ticket_purchases db)).*2.

(** [event.ticket_types] *)
Definition event_ticket_types (eid : Z) : list (Z * TicketType.t) :=
  filter (λ r, TicketType.event r.2 = eid) (objects (ticket_types db)).

Definition event_summary (eid : Z) (event : Event.t) : EventSummary.t :=
  let total_tickets_sold :=
    Coalesce (Sum (F_quantity <$> paid_purchases_of_event eid)) 0 in
  let total_revenue :=
    Coalesce
      (Sum ((λ p, Some (revenue_term (F_quantity p) (F_purchase_price_per_unit p)))
              <$> paid_purchases_of_event eid)) 0 in
  let total_available :=
    Coalesce
      (Sum ((λ r, Some (Z.of_N (TicketType.quantity_available r.2)))
              <$> event_ticket_types eid)) 0 in
  let tickets_remaining :=
    match Event.capacity event with
    | Some capacity => Z.max (Z.of_N capacity - or_0 total_tickets_sold) 0
    | None => Z.max (or_0 total_available - or_0 total_tickets_sold) 0
    end in
  {| EventSummary.event_id := eid;
     EventSummary.event_name := Event.name event;
     EventSummary.total_tickets_sold := or_0 total_tickets_sold;
     EventSummary.total_revenue := float (or_0 total_revenue);
     EventSummary.tickets_remaining := or_0 tickets_remaining;
     EventSummary.organizer_name :=
       match organizers db !! Event.organizer event with
       | Some o => Organizer.name o
       | None => ""
       end |}.

(** [now] is the reading of [timezone.now()].  The sum of the revenue is
    the one a database with exact decimals gives (PostgreSQL's numeric);
    SQLite adds in binary floating point and hands back 15 significant
    digits, the same value as long as the sum has no more. *)
Definition get_upcoming_events_summary (now : DateTime) : list EventSummary.t :=
  (λ r, event_summary r.1 r.2) <$> upcoming_events now.

(** *** get_top_selling_ticket_types *)

(** [tickettype LEFT JOIN ticketpurchase]: the joined purchase of each
    row of the group of one ticket type. *)
Definition purchases (ttid : Z) : list (option TicketPurchase.t) :=
  left_join (filter (λ p, TicketPurchase.ticket_type p = ttid)
                    (objects (ticket_purchases db)).*2).

(** [purchases__order__is_paid]: NULL on the all-NULL match. *)
Definition purchases__order__is_paid (j : option TicketPurchase.t) : option bool :=
  j ≫= order__is_paid.

Definition purchases__quantity (j : option TicketPurchase.t) : option Z :=
  j ≫= F_quantity.

(** [Coalesce(Sum('purchases__quantity', filter=Q(purchases__order__is_paid=True)), 0)] *)
Definition paid_quantity (joined : list (option TicketPurchase.t)) : Z :=
  Coalesce
    (Sum ((λ j, filtered (purchases__order__is_paid j) (purchases__quantity j))
            <$> joined)) 0.

(** [TicketType.objects.annotate(units_sold=..., event_name=F('event__name'))];
    the event is reached by an inner join. *)
Definition annotated_ticket_types : list TicketTypeRanking.t :=
  omap (λ r,
          e ← events db !! TicketType.event r.2;
          Some {| TicketTypeRanking.id := r.1;
                  TicketTypeRanking.ticket_type := r.2;
                  TicketTypeRanking.units_sold := paid_quantity (purchases r.1);
                  TicketTypeRanking.event_name := Event.name e |})
       (objects (ticket_types db)).

Definition get_top_selling_ticket_types (num_types : nat)
  : list TicketTypeRanking.t :=
  take num_types (order_by_desc TicketTypeRanking.units_sold annotated_ticket_types).

(** *** get_customer_purchase_statistics *)

(** [user LEFT JOIN order ON order.customer_id = user.id] *)
Definition user_orders (customer_id : Z) : list (option (Z * Order.t)) :=
  left_join (filter (λ r, Order.customer r.2 = Some customer_id)
                    (objects (orders db))).

(** Columns of the joined order: NULL on the all-NULL match. *)
Definition orders__id (j : option (Z * Order.t)) : option Z := fst <$> j.

Definition orders__is_paid (j : option (Z * Order.t)) : option bool :=
  Order.is_paid ∘ snd <$> j.

Definition orders__total_amount (j : option (Z * Order.t)) : option Z :=
  Order.total_amount ∘ snd <$> j.

(** [TicketPurchase.objects.filter(order__customer_id=customer_id,
    order__is_paid=True).values('ticket_type__event__name')]: one
    (name, quantity) pair per purchase that reaches an event. *)
Definition customer_paid_purchases (customer_id : Z) : list (string * Z) :=
  omap (λ p, name ← ticket_type__event__name p;
             Some (name, Z.of_N (TicketPurchase.quantity p)))
       (filter (λ p, order__customer_id p = Some (Some customer_id)
                     ∧ order__is_paid p = Some true)
               (objects (ticket_purchases db)).*2).

(** [.values(key).annotate(total=Sum('quantity'))]: GROUP BY the key.  A
    group has at least one row and [quantity] is NOT NULL, so the sum
    of a group is never NULL. *)
Definition group_totals (rows : list (string * Z)) : list (string * Z) :=
  (λ k, (k, total snd (filter (λ r, r.1 = k) rows))) <$> remove_dups rows.*1.

Definition event_counts (customer_id : Z) : list (string * Z) :=
  order_by_desc snd (group_totals (customer_paid_purchases customer_id)).

Definition get_customer_purchase_statistics (customer_id : Z)
  : option CustomerStats.t :=
  let joined := user_orders customer_id in
  let total_orders_placed := Count_distinct (orders__id <$> joined) in
  let total_amount_spent :=
    Coalesce
      (Sum ((λ j, filtered (orders__is_paid j) (orders__total_amount j))
              <$> joined)) 0 in
  let most_purchased_event_name :=
    match event_counts customer_id with
    | first :: _ => Some first.1
    | [] => None
    end in
  user ← users db !! customer_id;
  Some {| CustomerStats.id := customer_id;
          CustomerStats.user := user;
          CustomerStats.total_orders_placed := total_orders_placed;
          CustomerStats.total_amount_spent := total_amount_spent;
          CustomerStats.most_purchased_event_name := most_purchased_event_name |}.

(** *** get_events_with_low_capacity_remaining *)

(** [event LEFT JOIN tickettype LEFT JOIN ticketpurchase]: the joined
    purchase of each row of the group of one event. *)
Definition ticket_types__purchases (eid : Z) : list (option TicketPurchase.t) :=
  j ← left_join (event_ticket_types eid);
  match j with
  | Some r => purchases r.1
  | None => [None]
  end.

(** [100 * (F('capacity') - Coalesce(Sum(...), 0)) / F('capacity')] *)
Definition percentage (capacity : N) (tickets_sold : Z) : option Z :=
  sql_div (100 * (Z.of_N capacity - tickets_sold)) (Z.of_N capacity).

(** [Event.objects.filter(capacity__isnull=False).annotate(...)]: each
    event with a capacity, its [tickets_sold] and the outcome of the
    division. *)
Definition annotated_events : list (Z * Event.t * Z * option Z) :=
  omap (λ r,
          capacity ← Event.capacity r.2;
          let tickets_sold := paid_quantity (ticket_types__purchases r.1) in
          Some (r.1, r.2, tickets_sold, percentage capacity tickets_sold))
       (objects (events db)).

(** [.filter(percentage_tickets_remaining__lte=threshold_percentage)]:
    a NULL percentage does not satisfy the comparison. *)
Definition low_capacity (threshold_percentage : Z)
  : list LowCapacityEvent.t :=
  omap (λ a,
          match a with
          | (id, event, tickets_sold, Some pct) =>
              if bool_decide (pct ≤ threshold_percentage)
              then Some {| LowCapacityEvent.id := id;
                           LowCapacityEvent.event := event;
                           LowCapacityEvent.tickets_sold := tickets_sold;
                           LowCapacityEvent.percentage_tickets_remaining := pct |}
              else None
          | (_, _, _, None) => None
          end)
       annotated_events.

Definition get_events_with_low_capacity_remaining
    (backend : Backend) (threshold_percentage : Z)
  : QueryResult LowCapacityEvent.t :=
  match backend with
  | Sqlite => Rows (low_capacity threshold_percentage)
  | Postgresql =>
      if bool_decide (Exists (λ a, a.2 = None) annotated_events)
      then DivisionByZero
      else Rows (low_capacity threshold_percentage)
  end.

End queries.

(** Referential integrity of [TicketType.event]: the ForeignKey of every
    ticket type names a stored event. *)
Definition ticket_types_have_event (db : Store) : Prop :=
  map_Forall (λ _ tt, is_Some (events db !! TicketType.event tt)) (ticket_types db).

(** Any order the database may give to [order_by('-key')]: how it cuts
    ties is its own affair, and need not be the same from one query to
    the next. *)
Definition ordered_by_desc {A} (key : A → Z) (rows sorted : list A) : Prop :=
  sorted ≡ₚ rows ∧ StronglySorted (desc key) sorted.

(** A result the database may give to
    [get_top_selling_ticket_types(num_types)]. *)
Definition top_selling_result (db : Store) (num_types : nat)
    (result : list TicketTypeRanking.t) : Prop :=
  ∃ sorted,
    ordered_by_desc TicketTypeRanking.units_sold (annotated_ticket_types db) sorted
    ∧ result = take num_types sorted.

(** * The queries in the words of the specification *)

Module Spec.
Section spec.
Context (db : Store).

Definition all_purchases : list TicketPurchase.t :=
  (map_to_list (ticket_purchases db)).*2.

(** The purchase's TicketType belongs to the event. *)
Definition of_event (eid : Z) (p : TicketPurchase.t) : Prop :=
  ∃ tt, ticket_types db !! TicketPurchase.ticket_type p = Some tt
        ∧ TicketType.event tt = eid.

(** The purchase's owning Order is paid. *)
Definition paid (p : TicketPurchase.t) : Prop :=
  ∃ o, orders db !! TicketPurchase.order p = Some o ∧ Order.is_paid o = true.

(** The purchase's owning Order belongs to the customer. *)
Definition bought_by (customer_id : Z) (p : TicketPurchase.t) : Prop :=
  ∃ o, orders db !! TicketPurchase.order p = Some o
       ∧ Order.customer o = Some customer_id.

Global Instance of_event_dec eid p : Decision (of_event eid p).
Proof.
  unfold of_event.
  destruct (ticket_types db !! TicketPurchase.ticket_type p) as [tt|].
  - destruct (decide (TicketType.event tt = eid)) as [Heq|Hne].
    + left. by exists tt.
    + right. by intros (tt' & [= <-] & Heq).
  - right. by intros (tt' & [=] & _).
Defined.

Global Instance paid_dec p : Decision (paid p).
Proof.
  unfold paid.
  destruct (orders db !! TicketPurchase.order p) as [o|].
  - destruct (decide (Order.is_paid o = true)) as [Heq|Hne].
    + left. by exists o.
    + right. by intros (o' & [= <-] & Heq).
  - right. by intros (o' & [=] & _).
Defined.

Global Instance bought_by_dec customer_id p : Decision (bought_by customer_id p).
Proof.
  unfold bought_by.
  destruct (orders db !! TicketPurchase.order p) as [o|].
  - destruct (decide (Order.customer o = Some customer_id)) as [Heq|Hne].
    + left. by exists o.
    + right. by intros (o' & [= <-] & Heq).
  - right. by intros (o' & [=] & _).
Defined.

Definition quantity (p : TicketPurchase.t) : Z :=
  Z.of_N (TicketPurchase.quantity p).

(** Sum of quantity over the paid purchases of the event's TicketTypes. *)
Definition tickets_sold (eid : Z) : Z :=
  total quantity (filter (λ p, of_event eid p ∧ paid p) all_purchases).

(** Sum of quantity × purchase_price_per_unit over the same purchases. *)
Definition revenue (eid : Z) : Decimal :=
  total (λ p, quantity p * TicketPurchase.purchase_price_per_unit p)
        (filter (λ p, of_event eid p ∧ paid p) all_purchases).

(** Sum of quantity_available over the event's TicketTypes. *)
Definition total_available (eid : Z) : Z :=
  total (λ r, Z.of_N (TicketType.quantity_available r.2))
        (filter (λ r, TicketType.event r.2 = eid) (map_to_list (ticket_types db))).

(** Sum of quantity over the paid purchases of one TicketType. *)
Definition units_sold (ttid : Z) : Z :=
  total quantity
        (filter (λ p, TicketPurchase.ticket_type p = ttid ∧ paid p) all_purchases).

(** The customer's orders. *)
Definition customer_orders (customer_id : Z) : gmap Z Order.t :=
  filter (λ r, Order.customer r.2 = Some customer_id) (orders db).

(** Sum of total_amount over the customer's paid orders. *)
Definition amount_spent (customer_id : Z) : Decimal :=
  total (λ r, Order.total_amount r.2)
        (filter (λ r, Order.customer r.2 = Some customer_id
                      ∧ Order.is_paid r.2 = true)
                (map_to_list (orders db))).

(** Total quantity the customer bought, in paid orders, of the
    TicketTypes of one event. *)
Definition customer_event_quantity (customer_id eid : Z) : Z :=
  total quantity
        (filter (λ p, bought_by customer_id p ∧ paid p ∧ of_event eid p)
                all_purchases).

(** Total quantity the customer bought, in paid orders, of tickets whose
    event carries the name. *)
Definition name_quantity (customer_id : Z) (name : string) : Z :=
  total quantity
    (filter (λ p, ticket_type__event__name db p = Some name)
       (filter (λ p, bought_by customer_id p ∧ paid p) all_purchases)).

(** The customer has a paid purchase. *)
Definition has_paid_purchase (customer_id : Z) : Prop :=
  ∃ p, p ∈ all_purchases ∧ bought_by customer_id p ∧ paid p.

(** [name] names an event whose TicketTypes received the maximal total
    quantity among the customer's paid purchases. *)
Definition most_purchased (customer_id : Z) (name : string) : Prop :=
  ∃ eid e, events db !! eid = Some e ∧ Event.name e = name
    ∧ ∀ eid' e', events db !! eid' = Some e' →
        customer_event_quantity customer_id eid'
        ≤ customer_event_quantity customer_id eid.

End spec.

(** 100 × (capacity − tickets_sold) / capacity, as a fraction. *)
Definition exact_percentage (capacity : N) (tickets_sold : Z) : Q :=
  (inject_Z (100 * (Z.of_N capacity - tickets_sold)) / inject_Z (Z.of_N capacity))%Q.

End Spec.

(** * Sample stores *)

Module Scenario.

Definition event (name : string) (capacity : option N) : Event.t :=
  {| Event.name := name; Event.organizer := 1;
     Event.start_time := 100; Event.end_time := 200; Event.location := "Hall";
     Event.is_published := true; Event.capacity := capacity;
     Event.start_date := 100; Event.base_ticket_price := 250 |}.

Definition ticket_type (event : Z) (quantity_available : N) : TicketType.t :=
  {| TicketType.event := event; TicketType.name := "Type 0";
     TicketType.price := 250; TicketType.quantity_available := quantity_available;
     TicketType.is_active := true |}.

Definition order (customer : option Z) (total_amount : Decimal) (is_paid : bool)
  : Order.t :=
  {| Order.customer := customer; Order.order_date := 50;
     Order.total_amount := total_amount; Order.is_paid := is_paid;
     Order.discount_code := None |}.

Definition purchase (order ticket_type : Z) (quantity : N) : TicketPurchase.t :=
  {| TicketPurchase.order := order; TicketPurchase.ticket_type := ticket_type;
     TicketPurchase.quantity := quantity;
     TicketPurchase.purchase_price_per_unit := 250 |}.

Definition organizer : Organizer.t :=
  {| Organizer.name := "Organizer 0"; Organizer.contact_email := "";
     Organizer.description := "" |}.

(** Event 1 has capacity 100 and paid purchases of 30 and 20; event 2 has
    no capacity, one ticket type of 40 and no purchases.  User 1 has a
    paid order of 75.00 and an unpaid order of 20.00; user 2 has no
    orders; order 3 is anonymous. *)
Definition db : Store :=
  {| organizers := {[ 1 := organizer ]};
     events := list_to_map [(1, event "E" (Some 100%N)); (2, event "F" None)];
     ticket_types := list_to_map [(1, ticket_type 1 60); (2, ticket_type 2 40)];
     orders := list_to_map [(1, order (Some 1) 7500 true);
                            (2, order (Some 1) 2000 false);
                            (3, order None 5000 true)];
     ticket_purchases := list_to_map [(1, purchase 1 1 30); (2, purchase 3 1 20)];
     users := list_to_map [(1, {| User.username := "user0" |});
                           (2, {| User.username := "user1" |})] |}.

(** The summary of event 1 of [db], 125.00 of revenue. *)
Definition summary_E : EventSummary.t :=
  {| EventSummary.event_id := 1; EventSummary.event_name := "E";
     EventSummary.total_tickets_sold := 50;
     EventSummary.total_revenue := float 12500;
     EventSummary.tickets_remaining := 50;
     EventSummary.organizer_name := "Organizer 0" |}.

Definition same_names_events : list (Z * Event.t) :=
  [(1, event "Gala" None); (2, event "Gala" None); (3, event "Expo" None)].

(** Two events share the name Gala.  User 1 bought, in one paid order, 3
    tickets of each Gala and 5 tickets of the Expo. *)
Definition same_names : Store :=
  {| organizers := {[ 1 := organizer ]};
     events := list_to_map same_names_events;
     ticket_types := list_to_map [(1, ticket_type 1 50); (2, ticket_type 2 50);
                                  (3, ticket_type 3 50)];
     orders := {[ 1 := order (Some 1) 2750 true ]};
     ticket_purchases := list_to_map [(1, purchase 1 1 3); (2, purchase 1 2 3);
                                      (3, purchase 1 3 5)];
     users := {[ 1 := {| User.username := "user0" |} ]} |}.

(** Event 1 has capacity 3 and one paid ticket; event 2 has capacity 200
    and 201 paid tickets. *)
Definition fractions : Store :=
  {| organizers := {[ 1 := organizer ]};
     events := list_to_map [(1, event "Small" (Some 3%N));
                            (2, event "Oversold" (Some 200%N))];
     ticket_types := list_to_map [(1, ticket_type 1 3); (2, ticket_type 2 250)];
     orders := {[ 1 := order None 50500 true ]};
     ticket_purchases := list_to_map [(1, purchase 1 1 1); (2, purchase 1 2 201)];
     users := ∅ |}.

(** The row of event 1 of [fractions]: 1 of 3 tickets sold. *)
Definition small_row : LowCapacityEvent.t :=
  {| LowCapacityEvent.id := 1;
     LowCapacityEvent.event := event "Small" (Some 3%N);
     LowCapacityEvent.tickets_sold := 1;
     LowCapacityEvent.percentage_tickets_remaining := 66 |}.

(** The statistics of user 1 of [same_names]. *)
Definition gala_stats : CustomerStats.t :=
  {| CustomerStats.id := 1;
     CustomerStats.user := {| User.username := "user0" |};
     CustomerStats.total_orders_placed := 1;
     CustomerStats.total_amount_spent := 2750;
     CustomerStats.most_purchased_event_name := Some "Gala" |}.


(** One event, with capacity 0. *)
Definition zero_capacity : Store :=
  {| organizers := {[ 1 := organizer ]};
     events := {[ 1 := event "Closed" (Some 0%N) ]};
     ticket_types := ∅;
     orders := ∅;
     ticket_purchases := ∅;
     users := ∅ |}.

End Scenario.

(** * Stores that differ in one table *)

(** The store after [Order] rows were written. *)
Definition with_orders (db : Store) (table : gmap Z Order.t) : Store :=
  {| organizers := organizers db; events := events db;
     ticket_types := ticket_types db; orders := table;
     ticket_purchases := ticket_purchases db; users := users db |}.

(** The store after [TicketPurchase] rows were written. *)
Definition with_ticket_purchases (db : Store) (table : gmap Z TicketPurchase.t)
  : Store :=
  {| organizers := organizers db; events := events db;
     ticket_types := ticket_types db; orders := orders db;
     ticket_purchases := table; users := users db |}.

Module Sample.

(** The row of event 1 of [Scenario.db]: 50 of 100 tickets sold. *)
Definition half_row : LowCapacityEvent.t :=
  {| LowCapacityEvent.id := 1;
     LowCapacityEvent.event := Scenario.event "E" (Some 100%N);
     LowCapacityEvent.tickets_sold := 50;
     LowCapacityEvent.percentage_tickets_remaining := 50 |}.

(** An order of user 2, and an unpaid purchase on order 2 of
    [Scenario.db]. *)
Definition other_order : Order.t := Scenario.order (Some 2) 4000 true.

Definition unpaid_purchase : TicketPurchase.t := Scenario.purchase 2 1 7.

End Sample.

(** * analytics/management/commands/generate_sample_data.py *)

Definition with_organizers (db : Store) (table : gmap Z Organizer.t) : Store :=
  {| organizers := table; events := events db;
     ticket_types := ticket_types db; orders := orders db;
     ticket_purchases := ticket_purchases db; users := users db |}.

Definition with_events (db : Store) (table : gmap Z Event.t) : Store :=
  {| organizers := organizers db; events := table;
     ticket_types := ticket_types db; orders := orders db;
     ticket_purchases := ticket_purchases db; users := users db |}.

Definition with_ticket_types (db : Store) (table : gmap Z TicketType.t) : Store :=
  {| organizers := organizers db; events := events db;
     ticket_types := table; orders := orders db;
     ticket_purchases := ticket_purchases db; users := users db |}.

Definition with_users (db : Store) (table : gmap Z User.t) : Store :=
  {| organizers := organizers db; events := events db;
     ticket_types := ticket_types db; orders := orders db;
     ticket_purchases := ticket_purchases db; users := table |}.

Inductive Exception := ProtectedError | IntegrityError | IndexError.

(** ** Deletion, with the [on_delete] rules of models.py *)

Module Delete.

(** [Event.organizer]: CASCADE. *)
Definition cascade_events (db : Store) (deleted : gmap Z Organizer.t)
  : gmap Z Event.t :=
  filter (λ r, is_Some (deleted !! Event.organizer r.2)) (events db).

(** [TicketType.event]: CASCADE. *)
Definition cascade_ticket_types (db : Store) (deleted : gmap Z Event.t)
  : gmap Z TicketType.t :=
  filter (λ r, is_Some (deleted !! TicketType.event r.2)) (ticket_types db).

(** [TicketPurchase.ticket_type]: PROTECT.  The purchases that stand in
    the way of deleting the ticket types. *)
Definition protecting (db : Store) (deleted : gmap Z TicketType.t)
  : gmap Z TicketPurchase.t :=
  filter (λ r, is_Some (deleted !! TicketPurchase.ticket_type r.2))
         (ticket_purchases db).

(** [TicketPurchase.order]: CASCADE. *)
Definition cascade_purchases (db : Store) (deleted : gmap Z Order.t)
  : gmap Z TicketPurchase.t :=
  filter (λ r, is_Some (deleted !! TicketPurchase.order r.2)) (ticket_purchases db).

(** [Order.customer]: SET_NULL. *)
Definition set_null (deleted : gmap Z User.t) (o : Order.t) : Order.t :=
  match Order.customer o with
  | Some customer =>
      if bool_decide (is_Some (deleted !! customer))
      then {| Order.customer := None; Order.order_date := Order.order_date o;
              Order.total_amount := Order.total_amount o;
              Order.is_paid := Order.is_paid o;
              Order.discount_code := Order.discount_code o |}
      else o
  | None => o
  end.

(** The ticket types can go when no purchase protects them. *)
Definition unprotected (db : Store) (deleted : gmap Z TicketType.t) : bool :=
  bool_decide (size (protecting db deleted) = 0%nat).

(** [Organizer.objects.all().delete()]: the events of the organizers and
    the ticket types of these events are collected first; a protecting
    purchase stops the whole deletion. *)
Definition organizers_all (db : Store) : Exception + Store :=
  let events_ := cascade_events db (organizers db) in
  let ticket_types_ := cascade_ticket_types db events_ in
  if unprotected db ticket_types_
  then inr {| organizers := ∅;
              events := events db ∖ events_;
              ticket_types := ticket_types db ∖ ticket_types_;
              orders := orders db;
              ticket_purchases := ticket_purchases db;
              users := users db |}
  else inl ProtectedError.

(** [Event.objects.all().delete()] *)
Definition events_all (db : Store) : Exception + Store :=
  let ticket_types_ := cascade_ticket_types db (events db) in
  if unprotected db ticket_types_
  then inr (with_ticket_types (with_events db ∅) (ticket_types db ∖ ticket_types_))
  else inl ProtectedError.

(** [TicketType.objects.all().delete()] *)
Definition ticket_types_all (db : Store) : Exception + Store :=
  if unprotected db (ticket_types db)
  then inr (with_ticket_types db ∅)
  else inl ProtectedError.

(** [Order.objects.all().delete()] *)
Definition orders_all (db : Store) : Exception + Store :=
  inr (with_ticket_purchases (with_orders db ∅)
         (ticket_purchases db ∖ cascade_purchases db (orders db))).

(** [TicketPurchase.objects.all().delete()] *)
Definition ticket_purchases_all (db : Store) : Exception + Store :=
  inr (with_ticket_purchases db ∅).

(** [User.objects.exclude(is_superuser=True).delete()]; [superusers] holds
    the ids of the users whose [is_superuser] is set, a column of
    Django's own [User] that the rows of the store do not carry. *)
Definition users_not_superuser (superusers : gset Z) (db : Store)
  : Exception + Store :=
  let users_ := filter (λ r, r.1 ∉ superusers) (users db) in
  inr (with_users (with_orders db (set_null users_ <$> orders db))
                  (users db ∖ users_)).

End Delete.

(** ** The command *)

Module Command.

(** The next value of each table's id sequence. *)
Record Sequences := mkSequences {
  organizer_id : Z;
  event_id : Z;
  ticket_type_id : Z;
  order_id : Z;
  ticket_purchase_id : Z;
  user_id : Z
}.

(** What the command runs in: the database, the superusers among its
    users, the numbers [random] will return and the times the clock
    will show, with how many of each were consumed. *)
Record World := mkWorld {
  db : Store;
  sequences : Sequences;
  superusers : gset Z;
  random : nat → nat;
  drawn : nat;
  clock : nat → DateTime;
  read : nat
}.

Inductive Outcome (A : Type) :=
  | Returned (a : A) (w : World)
  | Raised (e : Exception) (w : World).
Arguments Returned {A} a w.
Arguments Raised {A} e w.

Definition Run (A : Type) : Type := World → Outcome A.

Global Instance run_ret : MRet Run := λ A a w, Returned a w.

Global Instance run_bind : MBind Run := λ A B f c w,
  match c w with
  | Returned a w' => f a w'
  | Raised e w' => Raised e w'
  end.

Definition raise {A} (e : Exception) : Run A := λ w, Raised e w.

Definition set_db (w : World) (db' : Store) : World :=
  {| db := db'; sequences := sequences w; superusers := superusers w;
     random := random w; drawn := drawn w; clock := clock w; read := read w |}.

Definition set_sequences (w : World) (s : Sequences) : World :=
  {| db := db w; sequences := s; superusers := superusers w;
     random := random w; drawn := drawn w; clock := clock w; read := read w |}.

(** A statement that deletes: on an exception the database is as
    before. *)
Definition delete (statement : Store → Exception + Store) : Run () := λ w,
  match statement (db w) with
  | inr db' => Returned () (set_db w db')
  | inl e => Raised e w
  end.

(** The next number of the random source. *)
Definition draw : Run nat := λ w,
  Returned (random w (drawn w))
    {| db := db w; sequences := sequences w; superusers := superusers w;
       random := random w; drawn := S (drawn w); clock := clock w;
       read := read w |}.

(** [random.randint(a, b)], for [a <= b]. *)
Definition randint (a b : Z) : Run Z :=
  r ← draw; mret (a + Z.of_nat r `mod` (b - a + 1)).

(** [random.choice(seq)] *)
Definition choice {A} (seq : list A) : Run A :=
  r ← draw;
  match seq !! (r `mod` length seq)%nat with
  | Some x => mret x
  | None => raise IndexError
  end.

(** [datetime.now()], and the [timezone.now()] of [auto_now_add]. *)
Definition datetime_now : Run DateTime := λ w,
  Returned (clock w (read w))
    {| db := db w; sequences := sequences w; superusers := superusers w;
       random := random w; drawn := drawn w; clock := clock w;
       read := S (read w) |}.

(** [timedelta(days=d)] and [timedelta(hours=h)], in seconds. *)
Definition days (d : Z) : Z := d * 86400.
Definition hours (h : Z) : Z := h * 3600.

(** An int given to a [DecimalField]. *)
Definition decimal (n : Z) : Decimal := n * 100.

(** [[body(x) for x in xs]], and a loop that appends to a list. *)
Fixpoint collect {A B} (xs : list A) (body : A → Run B) : Run (list B) :=
  match xs with
  | [] => mret []
  | x :: xs => y ← body x; ys ← collect xs body; mret (y :: ys)
  end.

(** [for x in xs: body(x)] *)
Fixpoint for_ {A} (xs : list A) (body : A → Run ()) : Run () :=
  match xs with
  | [] => mret ()
  | x :: xs => body x;; for_ xs body
  end.

(** [range(n)] *)
Definition range (n : nat) : list nat := seq 0 n.

(** *** [Model.objects.create]: the row gets the next id of its
    sequence; the database refuses a taken id, a repeated unique value
    and a foreign key that names no row. *)

Definition create_organizer (name : string) : Run (Z * Organizer.t) := λ w,
  let id := organizer_id (sequences w) in
  let row := {| Organizer.name := name; Organizer.contact_email := "";
                Organizer.description := "" |} in
  if bool_decide (organizers (db w) !! id = None
                  ∧ map_Forall (λ _ o, Organizer.name o ≠ name) (organizers (db w)))
  then Returned (id, row)
         (set_sequences
            (set_db w (with_organizers (db w) (<[id := row]> (organizers (db w)))))
            {| organizer_id := id + 1;
               event_id := event_id (sequences w);
               ticket_type_id := ticket_type_id (sequences w);
               order_id := order_id (sequences w);
               ticket_purchase_id := ticket_purchase_id (sequences w);
               user_id := user_id (sequences w) |})
  else Raised IntegrityError w.

Definition insert_user (username : string) : Run (Z * User.t) := λ w,
  let id := user_id (sequences w) in
  let row := {| User.username := username |} in
  if bool_decide (users (db w) !! id = None
                  ∧ map_Forall (λ _ u, User.username u ≠ username) (users (db w)))
  then Returned (id, row)
         (set_sequences
            (set_db w (with_users (db w) (<[id := row]> (users (db w)))))
            {| organizer_id := organizer_id (sequences w);
               event_id := event_id (sequences w);
               ticket_type_id := ticket_type_id (sequences w);
               order_id := order_id (sequences w);
               ticket_purchase_id := ticket_purchase_id (sequences w);
               user_id := id + 1 |})
  else Raised IntegrityError w.

(** [User.objects.create_user(username=..., password=...)]: a user that
    is no superuser.  [date_joined], a column of Django's own [User]
    that the rows of the store do not carry, defaults to
    [timezone.now]: creating a user reads the clock. *)
Definition create_user (username : string) : Run (Z * User.t) :=
  datetime_now;; insert_user username.

Definition create_event (row : Event.t) : Run (Z * Event.t) := λ w,
  let id := event_id (sequences w) in
  if bool_decide (events (db w) !! id = None
                  ∧ is_Some (organizers (db w) !! Event.organizer row))
  then Returned (id, row)
         (set_sequences
            (set_db w (with_events (db w) (<[id := row]> (events (db w)))))
            {| organizer_id := organizer_id (sequences w);
               event_id := id + 1;
               ticket_type_id := ticket_type_id (sequences w);
               order_id := order_id (sequences w);
               ticket_purchase_id := ticket_purchase_id (sequences w);
               user_id := user_id (sequences w) |})
  else Raised IntegrityError w.

Definition create_ticket_type (row : TicketType.t) : Run (Z * TicketType.t) := λ w,
  let id := ticket_type_id (sequences w) in
  if bool_decide (ticket_types (db w) !! id = None
                  ∧ is_Some (events (db w) !! TicketType.event row))
  then Returned (id, row)
         (set_sequences
            (set_db w (with_ticket_types (db w) (<[id := row]> (ticket_types (db w)))))
            {| organizer_id := organizer_id (sequences w);
               event_id := event_id (sequences w);
               ticket_type_id := id + 1;
               order_id := order_id (sequences w);
               ticket_purchase_id := ticket_purchase_id (sequences w);
               user_id := user_id (sequences w) |})
  else Raised IntegrityError w.

Definition insert_order (row : Order.t) : Run (Z * Order.t) := λ w,
  let id := order_id (sequences w) in
  if bool_decide (orders (db w) !! id = None)
     && match Order.customer row with
        | Some customer => bool_decide (is_Some (users (db w) !! customer))
        | None => true
        end
  then Returned (id, row)
         (set_sequences
            (set_db w (with_orders (db w) (<[id := row]> (orders (db w)))))
            {| organizer_id := organizer_id (sequences w);
               event_id := event_id (sequences w);
               ticket_type_id := ticket_type_id (sequences w);
               order_id := id + 1;
               ticket_purchase_id := ticket_purchase_id (sequences w);
               user_id := user_id (sequences w) |})
  else Raised IntegrityError w.

(** [order_date] is [auto_now_add]; [discount_code] is left NULL. *)
Definition create_order (customer : option Z) (is_paid : bool) (total_amount : Decimal)
  : Run (Z * Order.t) :=
  order_date ← datetime_now;
  insert_order {| Order.customer := customer; Order.order_date := order_date;
                  Order.total_amount := total_amount; Order.is_paid := is_paid;
                  Order.discount_code := None |}.

Definition create_ticket_purchase (row : TicketPurchase.t)
  : Run (Z * TicketPurchase.t) := λ w,
  let id := ticket_purchase_id (sequences w) in
  if bool_decide (ticket_purchases (db w) !! id = None
                  ∧ is_Some (orders (db w) !! TicketPurchase.order row)
                  ∧ is_Some (ticket_types (db w) !! TicketPurchase.ticket_type row))
  then Returned (id, row)
         (set_sequences
            (set_db w (with_ticket_purchases (db w)
                         (<[id := row]> (ticket_purchases (db w)))))
            {| organizer_id := organizer_id (sequences w);
               event_id := event_id (sequences w);
               ticket_type_id := ticket_type_id (sequences w);
               order_id := order_id (sequences w);
               ticket_purchase_id := id + 1;
               user_id := user_id (sequences w) |})
  else Raised IntegrityError w.

(** *** [Command.handle] *)

Definition delete_users : Run () := λ w,
  delete (Delete.users_not_superuser (superusers w)) w.

Definition wipe : Run () :=
  delete Delete.organizers_all;;
  delete Delete.events_all;;
  delete Delete.ticket_types_all;;
  delete Delete.orders_all;;
  delete Delete.ticket_purchases_all;;
  delete_users.

Definition new_event (organizers : list (Z * Organizer.t)) (i : nat)
  : Run (Z * Event.t) :=
  now ← datetime_now;
  d ← randint 1 30;
  let start := now + days d in
  let end_ := start + hours 2 in
  organizer ← choice organizers;
  capacity ← choice [None; Some 100%N; Some 200%N];
  base_ticket_price ← randint 10 100;
  create_event {| Event.name := "Event " +:+ pretty i;
                  Event.organizer := organizer.1;
                  Event.start_time := start;
                  Event.end_time := end_;
                  Event.location := "Location " +:+ pretty i;
                  Event.is_published := true;
                  Event.capacity := capacity;
                  Event.start_date := start;
                  Event.base_ticket_price := decimal base_ticket_price |}.

Definition new_ticket_type (event : Z * Event.t) (j : nat)
  : Run (Z * TicketType.t) :=
  price ← randint 10 100;
  quantity_available ← randint 10 200;
  create_ticket_type {| TicketType.event := event.1;
                        TicketType.name := "Type " +:+ pretty j;
                        TicketType.price := decimal price;
                        TicketType.quantity_available := Z.to_N quantity_available;
                        TicketType.is_active := true |}.

Definition new_purchase (order : Z * Order.t) (ticket_types : list (Z * TicketType.t))
  : Run () :=
  tt ← choice ticket_types;
  quantity ← randint 1 5;
  create_ticket_purchase
    {| TicketPurchase.order := order.1;
       TicketPurchase.ticket_type := tt.1;
       TicketPurchase.quantity := Z.to_N quantity;
       TicketPurchase.purchase_price_per_unit := TicketType.price tt.2 |};;
  mret ().

Definition new_order (users : list (Z * User.t))
    (ticket_types : list (Z * TicketType.t)) : Run () :=
  customer ← choice (None :: (Some <$> users));
  is_paid ← choice [true; false];
  total_amount ← randint 20 500;
  order ← create_order (fst <$> customer) is_paid (decimal total_amount);
  n ← randint 1 3;
  for_ (range (Z.to_nat n)) (λ _, new_purchase order ticket_types).

Definition populate : Run () :=
  organizers ← collect (range 3) (λ i, create_organizer ("Organizer " +:+ pretty i));
  users ← collect (range 10) (λ i, create_user ("user" +:+ pretty i));
  events ← collect (range 5) (new_event organizers);
  ticket_types ← collect (event ← events; j ← range 2; [(event, j)])
                         (λ x, new_ticket_type x.1 x.2);
  for_ (range 30) (λ _, new_order users ticket_types).

Definition handle : Run () := wipe;; populate.

End Command.

(** ** What the command leaves behind *)

Module Generated.

(** An event as [handle] writes it: its start lies 1 to 30 days after one
    of the clock readings numbered from [first] up to [last], [last] left
    out. *)
Definition event (db : Store) (clock : nat → DateTime) (first last : nat)
    (e : Event.t) : Prop :=
  is_Some (organizers db !! Event.organizer e)
  ∧ Event.is_published e = true
  ∧ Event.capacity e ∈ [None; Some 100%N; Some 200%N]
  ∧ Event.end_time e = Event.start_time e + 7200
  ∧ Event.start_date e = Event.start_time e
  ∧ (∃ n, 10 ≤ n ≤ 100 ∧ Event.base_ticket_price e = n * 100)
  ∧ ∃ k d, (first ≤ k < last)%nat ∧ 1 ≤ d ≤ 30
           ∧ Event.start_time e = clock k + d * 86400.

Definition ticket_type (db : Store) (tt : TicketType.t) : Prop :=
  is_Some (events db !! TicketType.event tt)
  ∧ (∃ n, 10 ≤ n ≤ 100 ∧ TicketType.price tt = n * 100)
  ∧ (10 ≤ TicketType.quantity_available tt ≤ 200)%N
  ∧ TicketType.is_active tt = true.

Definition order (db : Store) (o : Order.t) : Prop :=
  (∀ customer, Order.customer o = Some customer → is_Some (users db !! customer))
  ∧ (∃ n, 20 ≤ n ≤ 500 ∧ Order.total_amount o = n * 100)
  ∧ Order.discount_code o = None.

Definition purchase (db : Store) (p : TicketPurchase.t) : Prop :=
  is_Some (orders db !! TicketPurchase.order p)
  ∧ (1 ≤ TicketPurchase.quantity p ≤ 5)%N
  ∧ ∃ tt, ticket_types db !! TicketPurchase.ticket_type p = Some tt
          ∧ TicketPurchase.purchase_price_per_unit p = TicketType.price tt.

(** The users the deletion keeps. *)
Definition kept_users (w : Command.World) : gmap Z User.t :=
  filter (λ r, r.1 ∈ Command.superusers w) (users (Command.db w)).

(** The database [db] left by a run of [handle] that started in [w]. *)
Record t (w : Command.World) (db : Store) : Prop := mk {
  three_organizers : size (organizers db) = 3%nat;
  five_events : size (events db) = 5%nat;
  ten_ticket_types : size (ticket_types db) = 10%nat;
  thirty_orders : size (orders db) = 30%nat;
  purchases_per_order :
    (30 ≤ size (ticket_purchases db) ≤ 90)%nat;
  ten_users : size (users db) = (size (kept_users w) + 10)%nat;
  kept : kept_users w ⊆ users db;
  events_generated :
    map_Forall (λ _, event db (Command.clock w) (Command.read w + 10)
                           (Command.read w + 15))
               (events db);
  ticket_types_generated : map_Forall (λ _, ticket_type db) (ticket_types db);
  orders_generated : map_Forall (λ _, order db) (orders db);
  purchases_generated : map_Forall (λ _, purchase db) (ticket_purchases db)
}.

End Generated.

(** ** When the command returns *)

Module Returns.
Import Command.

(** The ids of a table lie below the next value of its sequence. *)
Definition fresh {A} (table : gmap Z A) (next : Z) : Prop :=
  ∀ id, is_Some (table !! id) → id < next.

Record Fresh (w : World) : Prop := mkFresh {
  fresh_organizers : fresh (organizers (db w)) (organizer_id (sequences w));
  fresh_events : fresh (events (db w)) (event_id (sequences w));
  fresh_ticket_types : fresh (ticket_types (db w)) (ticket_type_id (sequences w));
  fresh_orders : fresh (orders (db w)) (order_id (sequences w));
  fresh_ticket_purchases :
    fresh (ticket_purchases (db w)) (ticket_purchase_id (sequences w));
  fresh_users : fresh (users (db w)) (user_id (sequences w))
}.

(** [c] returns from [w], with a result and a world that satisfy [Q]. *)
Definition returns {A} (c : Run A) (w : World) (Q : A → World → Prop) : Prop :=
  ∃ a w', c w = Returned a w' ∧ Q a w'.

(** [c] run from [w] returns with [Q] or raises with [E]. *)
Definition outcome {A} (c : Run A) (w : World) (Q : A → World → Prop)
    (E : Exception → World → Prop) : Prop :=
  match c w with
  | Returned a w' => Q a w'
  | Raised e w' => E e w'
  end.

(** The usernames the command gives: user0 to user9. *)
Definition usernames : list string := (λ i : nat, "user" +:+ pretty i) <$> range 10.

End Returns.

(** ** Worlds to run the command in *)

Module Example.
Import Command.

(** No purchase; user 1, a superuser, and user 2. *)
Definition store : Store :=
  {| organizers := {[ 1 := Scenario.organizer ]};
     events := {[ 1 := Scenario.event "Closed" (Some 0%N) ]};
     ticket_types := {[ 1 := Scenario.ticket_type 1 60 ]};
     orders := {[ 1 := Scenario.order (Some 2) 2000 false ]};
     ticket_purchases := ∅;
     users := list_to_map [(1, {| User.username := "admin" |});
                           (2, {| User.username := "user0" |})] |}.

Definition world : World :=
  {| db := store;
     sequences := {| organizer_id := 2; event_id := 2; ticket_type_id := 2;
                     order_id := 2; ticket_purchase_id := 1; user_id := 3 |};
     superusers := {[ 1 ]};
     random := λ n, (n * 7 + 3)%nat;
     drawn := 0;
     clock := λ n, 1000 + Z.of_nat n;
     read := 0 |}.

(** The world [handle] leaves when it runs in [world]. *)
Definition generated : World :=
  match handle world with
  | Returned _ w' => w'
  | Raised _ w' => w'
  end.

(** [world] with a superuser whose name is user3. *)
Definition taken : World :=
  {| db := with_users store (<[1 := {| User.username := "user3" |}]> (users store));
     sequences := sequences world;
     superusers := superusers world;
     random := random world;
     drawn := 0;
     clock := clock world;
     read := 0 |}.

(** A world over [Scenario.db], which holds purchases. *)
Definition sold : World :=
  {| db := Scenario.db;
     sequences := {| organizer_id := 2; event_id := 3; ticket_type_id := 3;
                     order_id := 4; ticket_purchase_id := 3; user_id := 3 |};
     superusers := ∅;
     random := λ n, n;
     drawn := 0;
     clock := λ n, 1000 + Z.of_nat n;
     read := 0 |}.

End Example.

(** * Aggregates *)

Section aggregates.
Context {A : Type}.
Implicit Types (f g : A → Z) (l : list A).

Lemma total_nil f : total f [] = 0.
Proof. done. Qed.

Lemma total_cons f x l : total f (x :: l) = f x + total f l.
Proof. done. Qed.

Lemma total_app f l1 l2 : total f (l1 ++ l2) = total f l1 + total f l2.
Proof. induction l1 as [|x l1 IH]; simpl; lia. Qed.

Lemma total_ext f g l : (∀ x, x ∈ l → f x = g x) → total f l = total g l.
Proof.
  induction l as [|x l IH]; intros Hfg; [done|].
  rewrite !total_cons, (Hfg x), IH; [done| |left].
  intros y Hy. apply Hfg. by right.
Qed.

Lemma total_nonneg f l : (∀ x, x ∈ l → 0 ≤ f x) → 0 ≤ total f l.
Proof.
  induction l as [|x l IH]; intros Hf; [done|].
  rewrite total_cons.
  assert (0 ≤ f x) by (apply Hf; left).
  assert (0 ≤ total f l) by (apply IH; intros y Hy; apply Hf; by right).
  lia.
Qed.

Lemma total_zero f l : (∀ x, x ∈ l → f x = 0) → total f l = 0.
Proof.
  induction l as [|x l IH]; intros Hf; [done|].
  rewrite total_cons, (Hf x), IH; [done| |left].
  intros y Hy. apply Hf. by right.
Qed.

Lemma total_plus f g l : total (λ x, f x + g x) l = total f l + total g l.
Proof. induction l as [|x l IH]; [done|]. rewrite !total_cons, IH. lia. Qed.

Lemma total_Permutation f l1 l2 : l1 ≡ₚ l2 → total f l1 = total f l2.
Proof. induction 1; rewrite ?total_cons; lia. Qed.

(** Summing over the rows kept by a filter is summing the guarded column
    over all rows. *)
Lemma total_filter f (P : A → Prop) `{!∀ x, Decision (P x)} l :
  total f (filter P l) = total (λ x, if decide (P x) then f x else 0) l.
Proof.
  induction l as [|x l IH]; [done|].
  rewrite filter_cons, total_cons. destruct (decide (P x)); simpl; lia.
Qed.

Lemma total_filter_iff f (P1 P2 : A → Prop)
    `{!∀ x, Decision (P1 x), !∀ x, Decision (P2 x)} l :
  (∀ x, x ∈ l → P1 x ↔ P2 x) →
  total f (filter P1 l) = total f (filter P2 l).
Proof.
  intros HP. rewrite !total_filter. apply total_ext. intros x Hx.
  specialize (HP x Hx). repeat case_decide; tauto.
Qed.

Lemma total_fmap {B} (h : B → A) f (l : list B) :
  total f (h <$> l) = total (f ∘ h) l.
Proof.
  induction l as [|x l IH]; [done|].
  change (f (h x) + total f (h <$> l) = f (h x) + total (f ∘ h) l).
  by rewrite IH.
Qed.

Lemma total_bind {B} (h : B → list A) f (l : list B) :
  total f (l ≫= h) = total (λ b, total f (h b)) l.
Proof.
  induction l as [|x l IH]; [done|].
  change (total f (h x ++ (l ≫= h))
          = total f (h x) + total (λ b, total f (h b)) l).
  by rewrite total_app, IH.
Qed.
End aggregates.

Lemma total_swap {A B} (h : A → B → Z) (la : list A) (lb : list B) :
  total (λ a, total (h a) lb) la = total (λ b, total (λ a, h a b) la) lb.
Proof.
  induction la as [|a la IH]; simpl.
  - symmetry. by apply total_zero.
  - rewrite IH. by rewrite <-total_plus.
Qed.

(** [COALESCE(SUM(x), 0)] adds up the values with NULL read as 0; over no
    rows at all it is 0. *)
Lemma Coalesce_Sum (xs : list (option Z)) :
  Coalesce (Sum xs) 0 = total (λ x, Coalesce x 0) xs.
Proof.
  assert (total (λ x, Coalesce x 0) xs = foldr Z.add 0 (omap id xs)) as Hfold.
  { unfold total. induction xs as [|[x|] xs IH]; simpl; [done| |done].
    f_equal. apply IH. }
  rewrite Hfold. unfold Sum. by destruct (omap id xs).
Qed.

Lemma Coalesce_Sum_fmap {A} (f : A → option Z) (l : list A) :
  Coalesce (Sum (f <$> l)) 0 = total (λ x, Coalesce (f x) 0) l.
Proof. by rewrite Coalesce_Sum, total_fmap. Qed.

Lemma Sum_nil : Sum [] = None.
Proof. done. Qed.

Lemma or_0_id x : or_0 x = x.
Proof. unfold or_0. by case_bool_decide. Qed.

(** The all-NULL match of a left join adds nothing to a sum. *)
Lemma total_left_join {B} (g : option B → Z) (l : list B) :
  g None = 0 → total g (left_join l) = total (g ∘ Some) l.
Proof.
  intros Hg. destruct l as [|x l]; simpl; [lia|].
  f_equal. by rewrite total_fmap.
Qed.

(** * float: what it keeps of a decimal *)

Section float.
Import SpecFloat.















End float.


(** * The joins against their descriptions *)

Section joins.
Context (db : Store).
Implicit Types (p : TicketPurchase.t) (eid ttid customer_id : Z).

Lemma order__is_paid_iff p : order__is_paid db p = Some true ↔ Spec.paid db p.
Proof.
  unfold order__is_paid, Spec.paid.
  destruct (orders db !! TicketPurchase.order p) as [o|]; simpl.
  - split; [intros [= Hpaid]; eauto | by intros (o' & [= <-] & ->)].
  - split; [done | by intros (o' & [=] & _)].
Qed.

Lemma ticket_type__event_iff eid p :
  ticket_type__event db p = Some eid ↔ Spec.of_event db eid p.
Proof.
  unfold ticket_type__event, Spec.of_event.
  destruct (ticket_types db !! TicketPurchase.ticket_type p) as [tt|]; simpl.
  - split; [intros [= Hev]; eauto | by intros (tt' & [= <-] & ->)].
  - split; [done | by intros (tt' & [=] & _)].
Qed.

Lemma order__customer_id_iff customer_id p :
  order__customer_id db p = Some (Some customer_id)
  ↔ Spec.bought_by db customer_id p.
Proof.
  unfold order__customer_id, Spec.bought_by.
  destruct (orders db !! TicketPurchase.order p) as [o|]; simpl.
  - split; [intros [= Hc]; eauto | by intros (o' & [= <-] & ->)].
  - split; [done | by intros (o' & [=] & _)].
Qed.

Lemma paid_purchases_of_event_spec eid :
  paid_purchases_of_event db eid
  = filter (λ p, Spec.of_event db eid p ∧ Spec.paid db p) (Spec.all_purchases db).
Proof.
  unfold paid_purchases_of_event, Spec.all_purchases, objects.
  apply list_filter_iff. intros p.
  by rewrite ticket_type__event_iff, order__is_paid_iff.
Qed.

(** A filtered sum over the left-joined purchases of a ticket type adds
    the quantities of its paid purchases. *)
Lemma paid_quantity_total (joined : list (option TicketPurchase.t)) :
  paid_quantity db joined
  = total (λ j, match j with
                | Some p => if decide (Spec.paid db p) then Spec.quantity p else 0
                | None => 0
                end) joined.
Proof.
  unfold paid_quantity. rewrite Coalesce_Sum_fmap.
  apply total_ext. intros [p|] _; [|done]. simpl.
  destruct (decide (Spec.paid db p)) as [Hp|Hp].
  - apply order__is_paid_iff in Hp. by rewrite Hp.
  - rewrite <-order__is_paid_iff in Hp.
    by destruct (order__is_paid db p) as [[]|].
Qed.

Lemma paid_quantity_purchases ttid :
  paid_quantity db (purchases db ttid) = Spec.units_sold db ttid.
Proof.
  rewrite paid_quantity_total. unfold purchases, Spec.units_sold.
  rewrite total_left_join by done.
  rewrite (total_ext _ (λ p, if decide (Spec.paid db p) then Spec.quantity p else 0))
    by done.
  rewrite <-(total_filter _ (Spec.paid db)), list_filter_filter.
  apply total_filter_iff. intros p _. tauto.
Qed.

End joins.

(** * Tables as lists of rows *)

Section tables.
Context {A : Type}.
Implicit Types (m : gmap Z A) (P : Z * A → Prop).

Lemma NoDup_fst_filter P `{!∀ x, Decision (P x)} m :
  NoDup (filter P (map_to_list m)).*1.
Proof.
  eapply sublist_NoDup; [apply (NoDup_fst_map_to_list m)|].
  apply fmap_sublist, sublist_filter.
Qed.

Lemma elem_of_fst_filter P `{!∀ x, Decision (P x)} m k :
  k ∈ (filter P (map_to_list m)).*1 ↔ ∃ x, m !! k = Some x ∧ P (k, x).
Proof.
  rewrite list_elem_of_fmap. split.
  - intros ([k' x] & -> & Hin). apply list_elem_of_filter in Hin as [HP Hin].
    apply elem_of_map_to_list in Hin. eauto.
  - intros (x & Hx & HP). exists (k, x). split; [done|].
    apply list_elem_of_filter. split; [done|]. by apply elem_of_map_to_list.
Qed.

(** The rows of a filtered table. *)
Lemma map_to_list_filter P `{!∀ x, Decision (P x)} m :
  map_to_list (filter P m) ≡ₚ filter P (map_to_list m).
Proof.
  apply NoDup_Permutation.
  - apply NoDup_map_to_list.
  - apply NoDup_filter, NoDup_map_to_list.
  - intros [k x]. rewrite elem_of_map_to_list, map_lookup_filter_Some.
    rewrite list_elem_of_filter, elem_of_map_to_list. tauto.
Qed.

Lemma size_filter P `{!∀ x, Decision (P x)} m :
  size (filter P m) = length (filter P (map_to_list m)).
Proof. by rewrite <-length_map_to_list, map_to_list_filter. Qed.

(** At most one row has a given key. *)
Lemma total_key (k v : Z) (l : list (Z * A)) :
  NoDup l.*1 →
  total (λ r, if decide (k = r.1) then v else 0) l
  = if decide (k ∈ l.*1) then v else 0.
Proof.
  induction l as [|[k' x] l IH]; intros Hnd.
  - rewrite decide_False; [done|]. by intros ?%elem_of_nil.
  - rewrite fmap_cons in Hnd. apply NoDup_cons in Hnd as [Hk' Hnd].
    rewrite total_cons, IH by done. simpl.
    destruct (decide (k = k')) as [->|Hne].
    + rewrite decide_False by done. rewrite decide_True by left. lia.
    + destruct (decide (k ∈ l.*1)) as [Hin|Hin].
      * rewrite decide_True by (by right). lia.
      * rewrite decide_False; [lia|]. by intros [?|?]%elem_of_cons.
Qed.
End tables.

Section event_join.
Context (db : Store).

Lemma paid_quantity_event eid :
  paid_quantity db (ticket_types__purchases db eid) = Spec.tickets_sold db eid.
Proof.
  rewrite paid_quantity_total. unfold ticket_types__purchases.
  rewrite total_bind, total_left_join by done.
  rewrite (total_ext _ (λ r, Spec.units_sold db r.1)).
  2:{ intros r _. simpl. by rewrite <-paid_quantity_total, paid_quantity_purchases. }
  unfold Spec.units_sold, Spec.tickets_sold.
  rewrite (total_ext _ (λ r, total (λ p,
             if decide (TicketPurchase.ticket_type p = r.1 ∧ Spec.paid db p)
             then Spec.quantity p else 0) (Spec.all_purchases db)))
    by (intros r _; apply total_filter).
  rewrite total_swap, total_filter. apply total_ext. intros p _.
  destruct (decide (Spec.paid db p)) as [Hpaid|Hpaid].
  - rewrite (total_ext _ (λ r, if decide (TicketPurchase.ticket_type p = r.1)
                               then Spec.quantity p else 0)).
    2:{ intros r _. apply decide_ext. tauto. }
    unfold event_ticket_types, objects.
    rewrite total_key by apply NoDup_fst_filter.
    apply decide_ext. rewrite elem_of_fst_filter. unfold Spec.of_event. simpl.
    tauto.
  - rewrite decide_False by tauto. apply total_zero. intros r _.
    rewrite decide_False; [done|tauto].
Qed.
End event_join.

(** * get_upcoming_events_summary *)

Section upcoming.
Context (db : Store).

Lemma elem_of_upcoming_events_summary now s :
  s ∈ get_upcoming_events_summary db now ↔
  ∃ id e, events db !! id = Some e
          ∧ Event.is_published e = true ∧ now ≤ Event.end_time e
          ∧ s = event_summary db id e.
Proof.
  unfold get_upcoming_events_summary, upcoming_events, objects.
  rewrite list_elem_of_fmap. split.
  - intros ([id e] & -> & Hin).
    apply list_elem_of_filter in Hin as [[Hpub Hend] Hin].
    apply elem_of_map_to_list in Hin. by exists id, e.
  - intros (id & e & He & Hpub & Hend & ->). exists (id, e). split; [done|].
    apply list_elem_of_filter. split; [done|]. by apply elem_of_map_to_list.
Qed.

Lemma summary_total_tickets_sold id e :
  EventSummary.total_tickets_sold (event_summary db id e) = Spec.tickets_sold db id.
Proof.
  simpl. rewrite or_0_id, Coalesce_Sum_fmap, paid_purchases_of_event_spec.
  done.
Qed.

Lemma summary_total_revenue id e :
  EventSummary.total_revenue (event_summary db id e) = float (Spec.revenue db id).
Proof.
  unfold event_summary, EventSummary.total_revenue.
  rewrite or_0_id, Coalesce_Sum_fmap, paid_purchases_of_event_spec.
  done.
Qed.

Lemma summary_tickets_remaining id e :
  EventSummary.tickets_remaining (event_summary db id e)
  = match Event.capacity e with
    | Some capacity => Z.max (Z.of_N capacity - Spec.tickets_sold db id) 0
    | None => Z.max (Spec.total_available db id - Spec.tickets_sold db id) 0
    end.
Proof.
  simpl. rewrite !or_0_id, !Coalesce_Sum_fmap, paid_purchases_of_event_spec.
  by destruct (Event.capacity e).
Qed.

Lemma tickets_sold_nonneg id : 0 ≤ Spec.tickets_sold db id.
Proof. apply total_nonneg. intros p _. apply N2Z.is_nonneg. Qed.

Lemma tickets_sold_none id :
  (∀ p, p ∈ Spec.all_purchases db → ¬ (Spec.of_event db id p ∧ Spec.paid db p)) →
  Spec.tickets_sold db id = 0.
Proof.
  intros Hnone. unfold Spec.tickets_sold. rewrite total_filter.
  apply total_zero. intros p Hp. by rewrite decide_False by auto.
Qed.


Lemma total_available_none id :
  (∀ ttid tt, ticket_types db !! ttid = Some tt → TicketType.event tt ≠ id) →
  Spec.total_available db id = 0.
Proof.
  intros Hnone. unfold Spec.total_available. rewrite total_filter.
  apply total_zero. intros [ttid tt] Hr%elem_of_map_to_list.
  rewrite decide_False; [done|]. simpl. by apply (Hnone ttid).
Qed.

(** C1: [tickets_remaining] of a returned summary is
    [max(capacity - total_tickets_sold, 0)] when the event has a capacity
    and [max(total_available - total_tickets_sold, 0)] when it has none,
    where [total_available] sums [quantity_available] over the event's
    ticket types and is 0 when it has none; it is never negative. *)
Theorem tickets_remaining_spec now s :
  s ∈ get_upcoming_events_summary db now →
  ∃ e, events db !! EventSummary.event_id s = Some e
    ∧ EventSummary.total_tickets_sold s
      = Spec.tickets_sold db (EventSummary.event_id s)
    ∧ EventSummary.tickets_remaining s
      = match Event.capacity e with
        | Some capacity =>
            Z.max (Z.of_N capacity - EventSummary.total_tickets_sold s) 0
        | None =>
            Z.max (Spec.total_available db (EventSummary.event_id s)
                   - EventSummary.total_tickets_sold s) 0
        end
    ∧ ((∀ ttid tt, ticket_types db !! ttid = Some tt →
                   TicketType.event tt ≠ EventSummary.event_id s) →
       Spec.total_available db (EventSummary.event_id s) = 0
       ∧ (Event.capacity e = None → EventSummary.tickets_remaining s = 0))
    ∧ 0 ≤ EventSummary.tickets_remaining s.
Proof.
  intros (id & e & He & _ & _ & ->)%elem_of_upcoming_events_summary.
  exists e. rewrite summary_total_tickets_sold, summary_tickets_remaining.
  change (EventSummary.event_id (event_summary db id e)) with id.
  pose proof (tickets_sold_nonneg id) as Hsold.
  split; [done|]. split; [done|]. split; [done|]. split.
  - intros Hnone. rewrite total_available_none by done.
    split; [done|]. intros ->. lia.
  - destruct (Event.capacity e); lia.
Qed.


(** C9: the summaries are, one each, those of the events with
    [is_published] true and [end_time >= now]; [total_tickets_sold] of a
    summary is the sum of [quantity] over the purchases whose ticket type
    belongs to the event and whose order is paid, and 0 when there is no
    such purchase. *)
Theorem upcoming_events_summary_spec now :
  NoDup (EventSummary.event_id <$> get_upcoming_events_summary db now)
  ∧ (∀ id, id ∈ EventSummary.event_id <$> get_upcoming_events_summary db now ↔
           ∃ e, events db !! id = Some e
                ∧ Event.is_published e = true ∧ now ≤ Event.end_time e)
  ∧ (∀ s, s ∈ get_upcoming_events_summary db now →
          EventSummary.total_tickets_sold s
          = Spec.tickets_sold db (EventSummary.event_id s)
          ∧ 0 ≤ EventSummary.total_tickets_sold s
          ∧ ((∀ p, p ∈ Spec.all_purchases db →
                   ¬ (Spec.of_event db (EventSummary.event_id s) p
                      ∧ Spec.paid db p)) →
             EventSummary.total_tickets_sold s = 0)).
Proof.
  split; [|split].
  - unfold get_upcoming_events_summary, upcoming_events, objects.
    rewrite <-list_fmap_compose.
    apply (NoDup_fst_filter _ (events db)).
  - intros id. rewrite list_elem_of_fmap. split.
    + intros (s & -> & Hs). apply elem_of_upcoming_events_summary in Hs.
      destruct Hs as (id' & e & He & Hpub & Hend & ->). by exists e.
    + intros (e & He & Hpub & Hend). exists (event_summary db id e).
      split; [done|]. apply elem_of_upcoming_events_summary. by exists id, e.
  - intros s (id & e & He & _ & _ & ->)%elem_of_upcoming_events_summary.
    rewrite summary_total_tickets_sold.
    change (EventSummary.event_id (event_summary db id e)) with id.
    split; [done|]. split; [apply tickets_sold_nonneg|apply tickets_sold_none].
Qed.

End upcoming.

(** * ORDER BY ... DESC *)

Section ordering.
Context {A : Type} (key : A → Z).

Lemma order_by_desc_Permutation rows : order_by_desc key rows ≡ₚ rows.
Proof. apply merge_sort_Permutation. Qed.

Lemma order_by_desc_sorted rows : StronglySorted (desc key) (order_by_desc key rows).
Proof. apply StronglySorted_merge_sort; apply _. Qed.

Lemma elem_of_order_by_desc rows x : x ∈ order_by_desc key rows ↔ x ∈ rows.
Proof. by rewrite order_by_desc_Permutation. Qed.

(** In a sorted list, an earlier row has a key at least as large. *)
Lemma sorted_lookup_le (l : list A) i j a b :
  StronglySorted (desc key) l → (i ≤ j)%nat →
  l !! i = Some a → l !! j = Some b → key b ≤ key a.
Proof.
  intros Hsorted. revert i j.
  induction Hsorted as [|x l Hsorted IH Hall]; intros i j Hij Hi Hj; [done|].
  destruct i as [|i], j as [|j]; simplify_eq/=; [lia| |lia|].
  - rewrite Forall_forall in Hall. apply Hall. by eapply list_elem_of_lookup_2.
  - apply (IH i j); [lia|done..].
Qed.

(** The first row of the ordering carries the greatest key. *)
Lemma order_by_desc_head rows first rest :
  order_by_desc key rows = first :: rest →
  first ∈ rows ∧ ∀ x, x ∈ rows → key x ≤ key first.
Proof.
  intros Heq. split.
  - apply elem_of_order_by_desc. rewrite Heq. left.
  - intros x Hx%elem_of_order_by_desc.
    pose proof (order_by_desc_sorted rows) as Hsorted.
    rewrite Heq in Hsorted, Hx.
    apply StronglySorted_cons in Hsorted as [Hall _].
    apply elem_of_cons in Hx as [->|Hx]; [lia|].
    rewrite Forall_forall in Hall. by apply Hall.
Qed.

Lemma order_by_desc_nil rows : order_by_desc key rows = [] ↔ rows = [].
Proof.
  split.
  - intros Heq. apply Permutation_nil_r. by rewrite <-Heq, order_by_desc_Permutation.
  - by intros ->.
Qed.
End ordering.

Lemma length_omap_total {A B} (f : A → option B) (l : list A) :
  (∀ x, x ∈ l → is_Some (f x)) → length (omap f l) = length l.
Proof.
  induction l as [|x l IH]; intros Hf; [done|]. simpl.
  destruct (Hf x) as [y Hy]; [left|]. rewrite Hy. simpl. f_equal.
  apply IH. intros z Hz. apply Hf. by right.
Qed.

(** * get_top_selling_ticket_types *)

Section top_selling.
Context (db : Store).

Lemma units_sold_nonneg ttid : 0 ≤ Spec.units_sold db ttid.
Proof. apply total_nonneg. intros p _. apply N2Z.is_nonneg. Qed.

Lemma elem_of_annotated_ticket_types r :
  r ∈ annotated_ticket_types db ↔
  ∃ e, ticket_types db !! TicketTypeRanking.id r
       = Some (TicketTypeRanking.ticket_type r)
     ∧ events db !! TicketType.event (TicketTypeRanking.ticket_type r) = Some e
     ∧ TicketTypeRanking.event_name r = Event.name e
     ∧ TicketTypeRanking.units_sold r = Spec.units_sold db (TicketTypeRanking.id r).
Proof.
  unfold annotated_ticket_types, objects. rewrite list_elem_of_omap. split.
  - intros ([ttid tt] & Hin%elem_of_map_to_list & Hr). simpl in Hr.
    destruct (events db !! TicketType.event tt) as [e|] eqn:He; [|done].
    injection Hr as <-. simpl. exists e. by rewrite paid_quantity_purchases.
  - intros (e & Htt & He & Hname & Hsold). destruct r as [ttid tt sold name].
    simpl in *. exists (ttid, tt). split; [by apply elem_of_map_to_list|].
    simpl. rewrite He. simpl. by rewrite paid_quantity_purchases, Hsold, Hname.
Qed.

Lemma length_annotated_ticket_types :
  ticket_types_have_event db →
  length (annotated_ticket_types db) = size (ticket_types db).
Proof.
  intros Hfk. unfold annotated_ticket_types, objects.
  rewrite length_omap_total; [apply length_map_to_list|].
  intros [ttid tt] Hin%elem_of_map_to_list. simpl.
  destruct (Hfk ttid tt Hin) as [e ->]. by eexists.
Qed.

Lemma annotated_ticket_types_ids_sublist :
  TicketTypeRanking.id <$> annotated_ticket_types db
    `sublist_of` (map_to_list (ticket_types db)).*1.
Proof.
  unfold annotated_ticket_types, objects.
  induction (map_to_list (ticket_types db)) as [|[ttid tt] l IH]; [done|]. csimpl.
  destruct (events db !! TicketType.event tt); csimpl; by constructor.
Qed.

(** C3: at most [num_types] ticket types are returned, each of them
    once; [units_sold] of each is the sum of [quantity] over its
    purchases in paid orders; the sequence is non-increasing in
    [units_sold]; no ticket type is filtered out: when the limit leaves
    room every ticket type is returned, and otherwise one that is left
    out, with zero sales or not, is outranked by every returned one; a
    returned one with zero sales ranks at or below all others. *)
Theorem top_selling_ticket_types_spec num_types :
  ticket_types_have_event db →
  (length (get_top_selling_ticket_types db num_types) ≤ num_types)%nat
  ∧ length (get_top_selling_ticket_types db num_types)
    = (num_types `min` size (ticket_types db))%nat
  ∧ NoDup (TicketTypeRanking.id <$> get_top_selling_ticket_types db num_types)
  ∧ (∀ r, r ∈ get_top_selling_ticket_types db num_types →
          ticket_types db !! TicketTypeRanking.id r
          = Some (TicketTypeRanking.ticket_type r)
          ∧ TicketTypeRanking.units_sold r
            = Spec.units_sold db (TicketTypeRanking.id r))
  ∧ (∀ i j a b, (i ≤ j)%nat →
          get_top_selling_ticket_types db num_types !! i = Some a →
          get_top_selling_ticket_types db num_types !! j = Some b →
          TicketTypeRanking.units_sold b ≤ TicketTypeRanking.units_sold a)
  ∧ (∀ ttid tt, ticket_types db !! ttid = Some tt →
          ttid ∈ TicketTypeRanking.id <$> get_top_selling_ticket_types db num_types
          ∨ ∀ r, r ∈ get_top_selling_ticket_types db num_types →
                 Spec.units_sold db ttid ≤ TicketTypeRanking.units_sold r)
  ∧ ((size (ticket_types db) ≤ num_types)%nat →
     ∀ ttid tt, ticket_types db !! ttid = Some tt →
       ttid ∈ TicketTypeRanking.id <$> get_top_selling_ticket_types db num_types)
  ∧ (∀ r a, r ∈ get_top_selling_ticket_types db num_types →
            a ∈ get_top_selling_ticket_types db num_types →
            TicketTypeRanking.units_sold r = 0 →
            TicketTypeRanking.units_sold r ≤ TicketTypeRanking.units_sold a).
Proof.
  intros Hfk. unfold get_top_selling_ticket_types.
  set (sorted := order_by_desc TicketTypeRanking.units_sold (annotated_ticket_types db)).
  assert (∀ r, r ∈ take num_types sorted → r ∈ annotated_ticket_types db) as Hin.
  { intros r Hr%subseteq_take. by apply elem_of_order_by_desc in Hr. }
  pose proof (order_by_desc_sorted TicketTypeRanking.units_sold
                (annotated_ticket_types db)) as Hsorted.
  fold sorted in Hsorted.
  split; [rewrite length_take; lia|]. split.
  { rewrite length_take. unfold sorted.
    by rewrite order_by_desc_Permutation, length_annotated_ticket_types. }
  split.
  { eapply sublist_NoDup; [|apply fmap_sublist, sublist_take].
    unfold sorted. rewrite order_by_desc_Permutation.
    eapply sublist_NoDup; [apply (NoDup_fst_map_to_list (ticket_types db))|].
    apply annotated_ticket_types_ids_sublist. }
  split.
  { intros r (e & Htt & _ & _ & Hsold)%Hin%elem_of_annotated_ticket_types. done. }
  split.
  { intros i j a b Hij [Ha _]%lookup_take_Some [Hb _]%lookup_take_Some.
    by eapply sorted_lookup_le. }
  split; [|split].
  - intros ttid tt Htt. destruct (Hfk ttid tt Htt) as [e He].
    set (r0 := {| TicketTypeRanking.id := ttid;
                  TicketTypeRanking.ticket_type := tt;
                  TicketTypeRanking.units_sold := Spec.units_sold db ttid;
                  TicketTypeRanking.event_name := Event.name e |}).
    assert (r0 ∈ take num_types sorted ++ drop num_types sorted) as Hr0.
    { rewrite take_drop. apply elem_of_order_by_desc.
      apply elem_of_annotated_ticket_types. by exists e. }
    apply elem_of_app in Hr0 as [Hr0|Hr0].
    + left. apply list_elem_of_fmap. by exists r0.
    + right. intros r Hr. rewrite <-(take_drop num_types sorted) in Hsorted.
      apply (StronglySorted_app_1_elem_of _ _ _ r r0) in Hsorted; done.
  - intros Hroom ttid tt Htt. destruct (Hfk ttid tt Htt) as [e He].
    rewrite take_ge.
    2:{ unfold sorted.
        by rewrite order_by_desc_Permutation, length_annotated_ticket_types. }
    apply list_elem_of_fmap.
    exists {| TicketTypeRanking.id := ttid;
              TicketTypeRanking.ticket_type := tt;
              TicketTypeRanking.units_sold := Spec.units_sold db ttid;
              TicketTypeRanking.event_name := Event.name e |}.
    split; [done|]. apply elem_of_order_by_desc.
    apply elem_of_annotated_ticket_types. by exists e.
  - intros r a _ (e & _ & _ & _ & Hsold)%Hin%elem_of_annotated_ticket_types ->.
    rewrite Hsold. apply units_sold_nonneg.
Qed.

End top_selling.

(** * get_customer_purchase_statistics *)

Lemma remove_dups_NoDup `{EqDecision A} (l : list A) : NoDup l → remove_dups l = l.
Proof.
  induction 1 as [|x l Hx Hnd IH]; [done|]. simpl.
  case_decide; [done|]. by rewrite IH.
Qed.

Lemma filter_none {A} (P : A → Prop) `{!∀ x, Decision (P x)} (l : list A) :
  (∀ x, x ∈ l → ¬ P x) → filter P l = [].
Proof.
  induction l as [|x l IH]; intros HP; [done|].
  rewrite filter_cons, decide_False by (apply HP; left).
  apply IH. intros y Hy. apply HP. by right.
Qed.

Section customer.
Context (db : Store).
Implicit Types (customer_id : Z).

(** The ids of the joined orders are those of the customer's orders. *)
Lemma user_orders_ids customer_id :
  omap id (orders__id <$> user_orders db customer_id)
  = (filter (λ r, Order.customer r.2 = Some customer_id) (map_to_list (orders db))).*1.
Proof.
  unfold user_orders, objects.
  destruct (filter _ (map_to_list (orders db))) as [|r rows]; [done|].
  unfold left_join. generalize (r :: rows). intros l.
  induction l as [|x l IH]; [done|]. simpl. f_equal. apply IH.
Qed.

Lemma user_orders_count customer_id :
  Count_distinct (orders__id <$> user_orders db customer_id)
  = size (Spec.customer_orders db customer_id).
Proof.
  unfold Count_distinct, Spec.customer_orders.
  rewrite user_orders_ids, remove_dups_NoDup by apply NoDup_fst_filter.
  by rewrite length_fmap, size_filter.
Qed.

Lemma user_orders_amount customer_id :
  Coalesce
    (Sum ((λ j, filtered (orders__is_paid j) (orders__total_amount j))
            <$> user_orders db customer_id)) 0
  = Spec.amount_spent db customer_id.
Proof.
  rewrite Coalesce_Sum_fmap. unfold user_orders, objects, Spec.amount_spent.
  rewrite total_left_join by done.
  rewrite (total_ext _ (λ r, if decide (Order.is_paid r.2 = true)
                             then Order.total_amount r.2 else 0)).
  2:{ intros [oid o] _. simpl. by destruct (Order.is_paid o). }
  rewrite <-(total_filter _ (λ r, Order.is_paid r.2 = true)), list_filter_filter.
  apply total_filter_iff. intros r _. tauto.
Qed.

(** The amount spent, read off the customer's orders. *)
Lemma amount_spent_customer_orders customer_id :
  Spec.amount_spent db customer_id
  = total (λ r, if decide (Order.is_paid r.2 = true)
                then Order.total_amount r.2 else 0)
          (map_to_list (Spec.customer_orders db customer_id)).
Proof.
  unfold Spec.amount_spent, Spec.customer_orders.
  rewrite (total_Permutation _ _ _ (map_to_list_filter _ _)).
  rewrite <-(total_filter _ (λ r, Order.is_paid r.2 = true)), list_filter_filter.
  apply total_filter_iff. intros r _. tauto.
Qed.

Lemma customer_orders_empty customer_id :
  Spec.customer_orders db customer_id = ∅ →
  filter (λ r, Order.customer r.2 = Some customer_id) (map_to_list (orders db)) = [].
Proof.
  intros Hempty. apply nil_length_inv.
  rewrite <-size_filter. fold (Spec.customer_orders db customer_id).
  by rewrite Hempty, map_size_empty.
Qed.

(** A customer without orders has no purchases. *)
Lemma customer_paid_purchases_empty customer_id :
  (∀ p, p ∈ Spec.all_purchases db →
        ¬ (Spec.bought_by db customer_id p ∧ Spec.paid db p)) →
  customer_paid_purchases db customer_id = [].
Proof.
  intros Hnone. unfold customer_paid_purchases.
  rewrite filter_none; [done|].
  intros p Hp [Hc%order__customer_id_iff Hpaid%order__is_paid_iff].
  by apply (Hnone p).
Qed.

Lemma bought_by_customer_orders customer_id p :
  Spec.bought_by db customer_id p →
  is_Some (Spec.customer_orders db customer_id !! TicketPurchase.order p).
Proof.
  intros (o & Ho & Hc). exists o. by apply map_lookup_filter_Some.
Qed.


(** C7: an unknown customer id gives no result, and no error; a customer
    without any order gives the customer with 0 orders placed, 0 spent
    and no most purchased event. *)
Theorem customer_absent_or_without_orders customer_id :
  (users db !! customer_id = None →
   get_customer_purchase_statistics db customer_id = None)
  ∧ (∀ user, users db !! customer_id = Some user →
       Spec.customer_orders db customer_id = ∅ →
       get_customer_purchase_statistics db customer_id
       = Some {| CustomerStats.id := customer_id;
                 CustomerStats.user := user;
                 CustomerStats.total_orders_placed := 0;
                 CustomerStats.total_amount_spent := 0;
                 CustomerStats.most_purchased_event_name := None |}).
Proof.
  unfold get_customer_purchase_statistics. split.
  - by intros ->.
  - intros user -> Hempty. simpl.
    rewrite user_orders_count, user_orders_amount, Hempty, map_size_empty.
    rewrite amount_spent_customer_orders, Hempty, map_to_list_empty.
    unfold event_counts. rewrite customer_paid_purchases_empty; [done|].
    intros p _ [Hc%bought_by_customer_orders _].
    rewrite Hempty, lookup_empty in Hc. by destruct Hc.
Qed.

End customer.

Section most_purchased.
Context (db : Store).
Implicit Types (customer_id : Z) (name : string).

Lemma customer_paid_purchases_spec customer_id :
  customer_paid_purchases db customer_id
  = omap (λ p, name ← ticket_type__event__name db p;
               Some (name, Spec.quantity p))
         (filter (λ p, Spec.bought_by db customer_id p ∧ Spec.paid db p)
                 (Spec.all_purchases db)).
Proof.
  unfold customer_paid_purchases, Spec.all_purchases, objects. f_equal.
  apply list_filter_iff. intros p.
  by rewrite order__customer_id_iff, order__is_paid_iff.
Qed.

Lemma group_total_name name (l : list TicketPurchase.t) :
  total snd (filter (λ r, r.1 = name)
               (omap (λ p, n ← ticket_type__event__name db p;
                           Some (n, Spec.quantity p)) l))
  = total Spec.quantity (filter (λ p, ticket_type__event__name db p = Some name) l).
Proof.
  induction l as [|p l IH]; [done|]. csimpl.
  rewrite (filter_cons (λ p, ticket_type__event__name db p = Some name)).
  destruct (ticket_type__event__name db p) as [n|]; csimpl.
  - rewrite filter_cons. csimpl.
    destruct (decide (n = name)) as [->|Hne].
    + rewrite decide_True by done. by rewrite !total_cons, IH.
    + destruct (decide (Some n = Some name)) as [Heq|_]; [congruence|done].
  - by destruct (decide (None = Some name)).
Qed.

Lemma elem_of_group_totals (rows : list (string * Z)) g :
  g ∈ group_totals rows ↔
  g.1 ∈ rows.*1 ∧ g.2 = total snd (filter (λ r, r.1 = g.1) rows).
Proof.
  unfold group_totals. rewrite list_elem_of_fmap. split.
  - intros (k & -> & Hk). rewrite elem_of_remove_dups in Hk. by split.
  - intros [Hk Hg]. exists g.1. rewrite elem_of_remove_dups.
    split; [|done]. destruct g; simpl in *; by subst.
Qed.

Lemma name_quantity_nonneg customer_id name : 0 ≤ Spec.name_quantity db customer_id name.
Proof. apply total_nonneg. intros p _. apply N2Z.is_nonneg. Qed.

Lemma ticket_type__event__name_Some p name :
  ticket_type__event__name db p = Some name ↔
  ∃ eid e, Spec.of_event db eid p ∧ events db !! eid = Some e ∧ Event.name e = name.
Proof.
  unfold ticket_type__event__name, Spec.of_event.
  destruct (ticket_types db !! TicketPurchase.ticket_type p) as [tt|]; simpl.
  - destruct (events db !! TicketType.event tt) as [e|] eqn:He; simpl.
    + split.
      * intros [= <-]. exists (TicketType.event tt), e. split; [by exists tt|done].
      * intros (eid & e' & (tt' & [= <-] & <-) & He' & <-). congruence.
    + split; [done|]. intros (eid & e' & (tt' & [= <-] & <-) & He' & _). congruence.
  - split; [done|]. by intros (eid & e' & (tt' & [=] & _) & _).
Qed.

(** The names the customer's paid purchases reach. *)
Lemma elem_of_customer_paid_names customer_id name :
  name ∈ (customer_paid_purchases db customer_id).*1 ↔
  ∃ p, p ∈ Spec.all_purchases db ∧ Spec.bought_by db customer_id p
       ∧ Spec.paid db p ∧ ticket_type__event__name db p = Some name.
Proof.
  rewrite customer_paid_purchases_spec, list_elem_of_fmap. split.
  - intros ([n q] & -> & (p & [[Hc Hpaid] Hp]%list_elem_of_filter & Hf)%list_elem_of_omap).
    exists p. simpl.
    destruct (ticket_type__event__name db p) as [n'|]; [|done].
    simpl in Hf. by injection Hf as -> _.
  - intros (p & Hp & Hc & Hpaid & Hname).
    exists (name, Spec.quantity p). split; [done|].
    apply list_elem_of_omap. exists p. split; [by apply list_elem_of_filter|].
    by rewrite Hname.
Qed.

Lemma elem_of_event_counts_names customer_id name :
  name ∈ (event_counts db customer_id).*1
  ↔ name ∈ (customer_paid_purchases db customer_id).*1.
Proof.
  unfold event_counts. rewrite !list_elem_of_fmap. split.
  - intros (g & -> & [Hg _]%elem_of_order_by_desc%elem_of_group_totals).
    by apply list_elem_of_fmap in Hg.
  - intros (r & -> & Hr).
    exists (r.1, total snd (filter (λ r', r'.1 = r.1)
                              (customer_paid_purchases db customer_id))).
    split; [done|]. apply elem_of_order_by_desc, elem_of_group_totals.
    split; [|done]. apply list_elem_of_fmap. by exists r.
Qed.

(** X1: what the query does return.  No name exactly when no paid
    purchase of the customer reaches a stored event; otherwise the name of
    an event for which the customer has a paid purchase, and one that
    maximises the quantity summed over all the events carrying it. *)
Lemma most_purchased_event_name_by_name customer_id stats :
  get_customer_purchase_statistics db customer_id = Some stats →
  (¬ Spec.has_paid_purchase db customer_id →
   CustomerStats.most_purchased_event_name stats = None)
  ∧ (CustomerStats.most_purchased_event_name stats = None ↔
     ∀ p, p ∈ Spec.all_purchases db → Spec.bought_by db customer_id p →
          Spec.paid db p →
          ∀ eid, Spec.of_event db eid p → events db !! eid = None)
  ∧ (∀ name, CustomerStats.most_purchased_event_name stats = Some name →
       (∃ p eid e, p ∈ Spec.all_purchases db ∧ Spec.bought_by db customer_id p
                   ∧ Spec.paid db p ∧ Spec.of_event db eid p
                   ∧ events db !! eid = Some e ∧ Event.name e = name)
       ∧ ∀ name', Spec.name_quantity db customer_id name'
                  ≤ Spec.name_quantity db customer_id name).
Proof.
  unfold get_customer_purchase_statistics.
  destruct (users db !! customer_id) as [user|]; [|done]. simpl.
  intros [= <-]. simpl. split; [|split].
  - intros Hnone. unfold event_counts.
    rewrite customer_paid_purchases_empty; [done|].
    intros p Hp [Hc Hpaid]. apply Hnone. by exists p.
  - split.
    + intros Hmost p Hp Hc Hpaid eid Hev.
      destruct (events db !! eid) as [e|] eqn:He; [|done].
      assert (Event.name e ∈ (event_counts db customer_id).*1) as Hin.
      { apply elem_of_event_counts_names, elem_of_customer_paid_names.
        exists p. split; [done|]. split; [done|]. split; [done|].
        apply ticket_type__event__name_Some. by exists eid, e. }
      destruct (event_counts db customer_id); [|done]. by apply elem_of_nil in Hin.
    + intros Hnone.
      destruct (event_counts db customer_id) as [|first rest] eqn:Hcounts; [done|].
      assert (first.1 ∈ (event_counts db customer_id).*1) as Hin.
      { rewrite Hcounts. left. }
      apply elem_of_event_counts_names, elem_of_customer_paid_names in Hin
        as (p & Hp & Hc & Hpaid & (eid & e & Hev & He & _)%ticket_type__event__name_Some).
      by rewrite (Hnone p Hp Hc Hpaid eid Hev) in He.
  - intros name Hname.
    destruct (event_counts db customer_id) as [|first rest] eqn:Hcounts; [done|].
    injection Hname as <-. split.
    + assert (first.1 ∈ (event_counts db customer_id).*1) as Hin.
      { rewrite Hcounts. left. }
      apply elem_of_event_counts_names, elem_of_customer_paid_names in Hin
        as (p & Hp & Hc & Hpaid & (eid & e & Hev & He & Hn)%ticket_type__event__name_Some).
      by exists p, eid, e.
    + intros name'. unfold event_counts in Hcounts.
      apply order_by_desc_head in Hcounts as [Hfirst Hmax].
      apply elem_of_group_totals in Hfirst as [_ Hfirst].
      rewrite customer_paid_purchases_spec in Hfirst, Hmax.
      rewrite group_total_name in Hfirst.
      fold (Spec.name_quantity db customer_id first.1) in Hfirst.
      rewrite <-Hfirst.
      destruct (decide (name' ∈ (omap (λ p, n ← ticket_type__event__name db p;
                                           Some (n, Spec.quantity p))
                                   (filter (λ p, Spec.bought_by db customer_id p
                                                 ∧ Spec.paid db p)
                                           (Spec.all_purchases db))).*1))
        as [Hin|Hout].
      * apply (Hmax (name', Spec.name_quantity db customer_id name')).
        apply elem_of_group_totals. split; [done|]. simpl.
        by rewrite group_total_name.
      * transitivity 0; [|rewrite Hfirst; apply name_quantity_nonneg].
        unfold Spec.name_quantity. rewrite <-group_total_name.
        rewrite filter_none; [done|]. intros r Hr Heq. apply Hout.
        apply list_elem_of_fmap. by exists r.
Qed.

End most_purchased.

(** * get_events_with_low_capacity_remaining *)

Lemma percentage_None capacity tickets_sold :
  percentage capacity tickets_sold = None ↔ capacity = 0%N.
Proof.
  unfold percentage, sql_div. case_bool_decide as Hc; split; try done; lia.
Qed.

(** With a positive capacity the percentage is the quotient truncated
    toward zero. *)
Lemma percentage_quot capacity tickets_sold :
  capacity ≠ 0%N →
  percentage capacity tickets_sold
  = Some ((100 * (Z.of_N capacity - tickets_sold)) `quot` Z.of_N capacity).
Proof. intros Hc. unfold percentage, sql_div. rewrite bool_decide_false; [done|lia]. Qed.

Section low_capacity.
Context (db : Store).

Lemma elem_of_annotated_events a :
  a ∈ annotated_events db ↔
  ∃ id e capacity,
    events db !! id = Some e ∧ Event.capacity e = Some capacity
    ∧ a = (id, e, Spec.tickets_sold db id,
           percentage capacity (Spec.tickets_sold db id)).
Proof.
  unfold annotated_events, objects. rewrite list_elem_of_omap. split.
  - intros ([id e] & Hin%elem_of_map_to_list & Ha). simpl in Ha.
    destruct (Event.capacity e) as [capacity|] eqn:Hc; [|done].
    injection Ha as <-. rewrite paid_quantity_event. by exists id, e, capacity.
  - intros (id & e & capacity & He & Hc & ->). exists (id, e).
    split; [by apply elem_of_map_to_list|]. simpl. rewrite Hc. simpl.
    by rewrite paid_quantity_event.
Qed.

Lemma elem_of_low_capacity threshold r :
  r ∈ low_capacity db threshold ↔
  ∃ capacity,
    events db !! LowCapacityEvent.id r = Some (LowCapacityEvent.event r)
    ∧ Event.capacity (LowCapacityEvent.event r) = Some capacity
    ∧ LowCapacityEvent.tickets_sold r = Spec.tickets_sold db (LowCapacityEvent.id r)
    ∧ percentage capacity (LowCapacityEvent.tickets_sold r)
      = Some (LowCapacityEvent.percentage_tickets_remaining r)
    ∧ LowCapacityEvent.percentage_tickets_remaining r ≤ threshold.
Proof.
  unfold low_capacity. rewrite list_elem_of_omap. split.
  - intros ([[[id e] sold] pct] & Hin & Hr).
    apply elem_of_annotated_events in Hin as (id' & e' & capacity & He & Hc & [= -> -> -> ->]).
    destruct (percentage _ _) as [p|] eqn:Hp; [|done].
    case_bool_decide; [|done]. injection Hr as <-. simpl. by exists capacity.
  - intros (capacity & He & Hc & Hsold & Hp & Hle).
    destruct r as [id e sold pct]. simpl in *.
    exists (id, e, sold, Some pct). split.
    + apply elem_of_annotated_events. exists id, e, capacity.
      by rewrite <-Hsold, Hp.
    + by rewrite bool_decide_true.
Qed.

Lemma low_capacity_ids_sublist threshold :
  LowCapacityEvent.id <$> low_capacity db threshold
    `sublist_of` (map_to_list (events db)).*1.
Proof.
  unfold low_capacity, annotated_events, objects.
  induction (map_to_list (events db)) as [|[id e] l IH]; [done|]. csimpl.
  destruct (Event.capacity e) as [capacity|]; csimpl; [|by constructor].
  destruct (percentage _ _) as [pct|]; csimpl; [|by constructor].
  case_bool_decide; csimpl; by constructor.
Qed.

(** The query completes unless PostgreSQL meets a zero capacity. *)
Lemma low_capacity_remaining_rows backend threshold :
  backend = Sqlite
  ∨ (∀ id e, events db !! id = Some e → Event.capacity e ≠ Some 0%N) →
  get_events_with_low_capacity_remaining db backend threshold
  = Rows (low_capacity db threshold).
Proof.
  intros Hok. unfold get_events_with_low_capacity_remaining.
  destruct backend; [done|]. destruct Hok as [|Hpos]; [done|].
  rewrite bool_decide_false; [done|].
  intros (a & Ha & Hnull)%Exists_exists.
  apply elem_of_annotated_events in Ha as (id & e & capacity & He & Hc & ->).
  simpl in Hnull. apply percentage_None in Hnull as ->. by apply (Hpos id e).
Qed.

(** The division meets a zero divisor exactly at the events of
    capacity 0. *)
Lemma division_by_zero_iff :
  (∀ a, a ∈ annotated_events db → is_Some a.2)
  ↔ (∀ id e, events db !! id = Some e →
             Event.capacity e = None
             ∨ ∃ capacity, Event.capacity e = Some capacity ∧ (0 < capacity)%N).
Proof.
  split.
  - intros Hdiv id e He. destruct (Event.capacity e) as [capacity|] eqn:Hc; [|by left].
    right. exists capacity. split; [done|].
    destruct (Hdiv (id, e, Spec.tickets_sold db id,
                    percentage capacity (Spec.tickets_sold db id))) as [pct Hpct].
    { apply elem_of_annotated_events. by exists id, e, capacity. }
    simpl in Hpct. destruct (decide (capacity = 0%N)) as [->|]; [|lia].
    by rewrite (proj2 (percentage_None 0 _)) in Hpct.
  - intros Hpos a (id & e & capacity & He & Hc & ->)%elem_of_annotated_events.
    simpl. destruct (Hpos id e He) as [Hnull|(c & Hc' & Hlt)]; [congruence|].
    rewrite Hc in Hc'. injection Hc' as <-. rewrite percentage_quot by lia.
    by eexists.
Qed.

Lemma division_by_zero_at id e :
  events db !! id = Some e → Event.capacity e = Some 0%N →
  (id, e, Spec.tickets_sold db id, None) ∈ annotated_events db
  ∧ ∀ threshold,
      get_events_with_low_capacity_remaining db Postgresql threshold
      = DivisionByZero.
Proof.
  intros He Hc.
  assert ((id, e, Spec.tickets_sold db id, None) ∈ annotated_events db) as Hin.
  { apply elem_of_annotated_events. by exists id, e, 0%N. }
  split; [done|]. intros threshold. simpl.
  rewrite bool_decide_true; [done|]. apply Exists_exists. by eexists.
Qed.

(** X2: every returned percentage is the quotient of
    [100 * (capacity - tickets_sold)] by the capacity, truncated toward
    zero, with [tickets_sold] the paid quantity of the event's ticket
    types. *)
Theorem percentage_tickets_remaining_quot backend threshold rows r :
  get_events_with_low_capacity_remaining db backend threshold = Rows rows →
  r ∈ rows →
  ∃ capacity,
    Event.capacity (LowCapacityEvent.event r) = Some capacity
    ∧ capacity ≠ 0%N
    ∧ LowCapacityEvent.tickets_sold r = Spec.tickets_sold db (LowCapacityEvent.id r)
    ∧ LowCapacityEvent.percentage_tickets_remaining r
      = (100 * (Z.of_N capacity - LowCapacityEvent.tickets_sold r))
          `quot` Z.of_N capacity.
Proof.
  intros Hrows Hr.
  assert (rows = low_capacity db threshold) as ->.
  { unfold get_events_with_low_capacity_remaining in Hrows.
    destruct backend; [by injection Hrows|].
    case_bool_decide; [done|]. by injection Hrows. }
  apply elem_of_low_capacity in Hr as (capacity & _ & Hc & Hsold & Hpct & _).
  exists capacity. split; [done|].
  assert (capacity ≠ 0%N) as Hpos.
  { intros ->. by rewrite (proj2 (percentage_None 0 _)) in Hpct. }
  rewrite percentage_quot in Hpct by done. injection Hpct as <-. done.
Qed.

End low_capacity.

(** * The queries on the sample stores *)

(** C10: the division is guarded by [capacity IS NOT NULL] alone: it
    stays clear of a zero divisor exactly when every capacity is NULL or
    positive; an event of capacity 0, which the column admits, brings the
    division to a zero divisor, and there is a store with such an event. *)
Theorem division_by_zero_reachable :
  (∀ db,
     (∀ a, a ∈ annotated_events db → is_Some a.2)
     ↔ (∀ id e, events db !! id = Some e →
                Event.capacity e = None
                ∨ ∃ capacity, Event.capacity e = Some capacity ∧ (0 < capacity)%N))
  ∧ (∀ db id e,
       events db !! id = Some e → Event.capacity e = Some 0%N →
       (id, e, Spec.tickets_sold db id, None) ∈ annotated_events db
       ∧ ∀ threshold,
           get_events_with_low_capacity_remaining db Postgresql threshold
           = DivisionByZero)
  ∧ (events Scenario.zero_capacity !! 1 = Some (Scenario.event "Closed" (Some 0%N))
     ∧ annotated_events Scenario.zero_capacity
       = [(1, Scenario.event "Closed" (Some 0%N), 0, None)]
     ∧ get_events_with_low_capacity_remaining Scenario.zero_capacity Postgresql 10
       = DivisionByZero
     ∧ get_events_with_low_capacity_remaining Scenario.zero_capacity Sqlite 10
       = Rows []).
Proof.
  split; [exact division_by_zero_iff|]. split; [exact division_by_zero_at|].
  repeat split; by vm_compute.
Qed.

(** C2, at the store [Scenario.fractions]: with capacity 3 and 1 ticket
    sold the query yields 66, not the fraction 200/3; with capacity 200
    and 201 tickets sold it yields 0, not a negative value. *)
Theorem percentage_tickets_remaining_truncated :
  (∀ backend,
     ∃ rows,
       get_events_with_low_capacity_remaining Scenario.fractions backend 100
       = Rows rows
       ∧ (λ r, (LowCapacityEvent.id r, LowCapacityEvent.tickets_sold r,
                LowCapacityEvent.percentage_tickets_remaining r)) <$> rows
         = [(2, 201, 0); (1, 1, 66)])
  ∧ ¬ (inject_Z 66 == Spec.exact_percentage 3 1)%Q
  ∧ (Spec.exact_percentage 200 201 < 0)%Q.
Proof.
  split; [|split].
  - intros []; eexists; split; by vm_compute.
  - by vm_compute.
  - by vm_compute.
Qed.

(** C8, at the store [Scenario.fractions] with a threshold of 66: event
    1, of capacity 3 with 1 ticket sold, is returned on either backend
    although 200/3 percent of its tickets remain, more than 66. *)
Theorem low_capacity_threshold_truncated :
  (∀ backend,
     ∃ rows,
       get_events_with_low_capacity_remaining Scenario.fractions backend 66
       = Rows rows
       ∧ 1 ∈ LowCapacityEvent.id <$> rows)
  ∧ events Scenario.fractions !! 1 = Some (Scenario.event "Small" (Some 3%N))
  ∧ Spec.tickets_sold Scenario.fractions 1 = 1
  ∧ (inject_Z 66 < Spec.exact_percentage 3 1)%Q.
Proof.
  split; [|split; [|split]].
  - intros []; eexists; (split; [by vm_compute|]); vm_compute; repeat constructor.
  - reflexivity.
  - by vm_compute.
  - by vm_compute.
Qed.

(** C6, at the store [Scenario.same_names]: the query answers Gala, the
    name shared by two events of 3 tickets each, although the Expo, with
    5 tickets, is the event with the maximal quantity. *)
Theorem most_purchased_event_name_same_names :
  CustomerStats.most_purchased_event_name
    <$> get_customer_purchase_statistics Scenario.same_names 1
  = Some (Some "Gala")
  ∧ Spec.customer_event_quantity Scenario.same_names 1 1 = 3
  ∧ Spec.customer_event_quantity Scenario.same_names 1 2 = 3
  ∧ Spec.customer_event_quantity Scenario.same_names 1 3 = 5
  ∧ Spec.most_purchased Scenario.same_names 1 "Expo"
  ∧ ¬ Spec.most_purchased Scenario.same_names 1 "Gala".
Proof.
  split; [by vm_compute|]. split; [by vm_compute|].
  split; [by vm_compute|]. split; [by vm_compute|]. split.
  - exists 3, (Scenario.event "Expo" None). split; [by vm_compute|].
    split; [done|]. intros eid' e' He'.
    apply (elem_of_list_to_map_2 Scenario.same_names_events) in He'.
    unfold Scenario.same_names_events in He'.
    repeat (apply elem_of_cons in He' as [[= -> ->]|He']); [..|by apply elem_of_nil in He'];
      by vm_compute.
  - intros (eid & e & He & Hname & Hmax).
    pose proof (Hmax 3 (Scenario.event "Expo" None) eq_refl) as Hle.
    apply (elem_of_list_to_map_2 Scenario.same_names_events) in He.
    unfold Scenario.same_names_events in He.
    repeat (apply elem_of_cons in He as [[= -> ->]|He]); [..|by apply elem_of_nil in He];
      [by vm_compute in Hle..|done].
Qed.

(** The summary of event 1 of [Scenario.db] is among those returned at
    time 150. *)
Lemma summary_E_returned :
  Scenario.summary_E ∈ get_upcoming_events_summary Scenario.db 150.
Proof. vm_compute. repeat constructor. Defined.

(** [tickets_remaining_spec] at event 1 of [Scenario.db]: capacity 100,
    50 sold, 50 remaining. *)
Lemma tickets_remaining_spec_witness :
  Scenario.summary_E ∈ get_upcoming_events_summary Scenario.db 150
  ∧ ∃ e, events Scenario.db !! EventSummary.event_id Scenario.summary_E = Some e
      ∧ EventSummary.total_tickets_sold Scenario.summary_E
        = Spec.tickets_sold Scenario.db (EventSummary.event_id Scenario.summary_E)
      ∧ EventSummary.tickets_remaining Scenario.summary_E
        = match Event.capacity e with
          | Some capacity =>
              Z.max (Z.of_N capacity
                     - EventSummary.total_tickets_sold Scenario.summary_E) 0
          | None =>
              Z.max (Spec.total_available Scenario.db
                       (EventSummary.event_id Scenario.summary_E)
                     - EventSummary.total_tickets_sold Scenario.summary_E) 0
          end
      ∧ ((∀ ttid tt, ticket_types Scenario.db !! ttid = Some tt →
                     TicketType.event tt ≠ EventSummary.event_id Scenario.summary_E) →
         Spec.total_available Scenario.db (EventSummary.event_id Scenario.summary_E) = 0
         ∧ (Event.capacity e = None →
            EventSummary.tickets_remaining Scenario.summary_E = 0))
      ∧ 0 ≤ EventSummary.tickets_remaining Scenario.summary_E.
Proof.
  split; [exact summary_E_returned|].
  exact (tickets_remaining_spec Scenario.db 150 Scenario.summary_E summary_E_returned).
Defined.




Lemma scenario_ticket_types_have_event : ticket_types_have_event Scenario.db.
Proof.
  apply (bool_decide_unpack
           (map_Forall (λ _ tt, is_Some (events Scenario.db !! TicketType.event tt))
                       (ticket_types Scenario.db))).
  vm_compute. exact I.
Defined.

(** [top_selling_ticket_types_spec] at [Scenario.db] with a limit of 2:
    ticket type 1 with 50 units sold, then ticket type 2 with none. *)
Lemma top_selling_ticket_types_spec_witness :
  ticket_types_have_event Scenario.db
  ∧ (TicketTypeRanking.id <$> get_top_selling_ticket_types Scenario.db 2 = [1; 2]
     ∧ TicketTypeRanking.units_sold <$> get_top_selling_ticket_types Scenario.db 2
       = [50; 0])
  ∧ (length (get_top_selling_ticket_types Scenario.db 2) ≤ 2)%nat
  ∧ length (get_top_selling_ticket_types Scenario.db 2)
    = (2 `min` size (ticket_types Scenario.db))%nat
  ∧ NoDup (TicketTypeRanking.id <$> get_top_selling_ticket_types Scenario.db 2)
  ∧ (∀ r, r ∈ get_top_selling_ticket_types Scenario.db 2 →
          ticket_types Scenario.db !! TicketTypeRanking.id r
          = Some (TicketTypeRanking.ticket_type r)
          ∧ TicketTypeRanking.units_sold r
            = Spec.units_sold Scenario.db (TicketTypeRanking.id r))
  ∧ (∀ i j a b, (i ≤ j)%nat →
          get_top_selling_ticket_types Scenario.db 2 !! i = Some a →
          get_top_selling_ticket_types Scenario.db 2 !! j = Some b →
          TicketTypeRanking.units_sold b ≤ TicketTypeRanking.units_sold a)
  ∧ (∀ ttid tt, ticket_types Scenario.db !! ttid = Some tt →
          ttid ∈ TicketTypeRanking.id <$> get_top_selling_ticket_types Scenario.db 2
          ∨ ∀ r, r ∈ get_top_selling_ticket_types Scenario.db 2 →
                 Spec.units_sold Scenario.db ttid ≤ TicketTypeRanking.units_sold r)
  ∧ ((size (ticket_types Scenario.db) ≤ 2)%nat →
     ∀ ttid tt, ticket_types Scenario.db !! ttid = Some tt →
       ttid ∈ TicketTypeRanking.id <$> get_top_selling_ticket_types Scenario.db 2)
  ∧ (∀ r a, r ∈ get_top_selling_ticket_types Scenario.db 2 →
            a ∈ get_top_selling_ticket_types Scenario.db 2 →
            TicketTypeRanking.units_sold r = 0 →
            TicketTypeRanking.units_sold r ≤ TicketTypeRanking.units_sold a).
Proof.
  split; [exact scenario_ticket_types_have_event|].
  split; [split; vm_compute; reflexivity|].
  exact (top_selling_ticket_types_spec Scenario.db 2 scenario_ticket_types_have_event).
Defined.


(** [percentage_tickets_remaining_quot] at event 1 of
    [Scenario.fractions]: 200 / 3 is returned as 66. *)
Lemma percentage_tickets_remaining_quot_witness :
  get_events_with_low_capacity_remaining Scenario.fractions Sqlite 100
  = Rows (low_capacity Scenario.fractions 100)
  ∧ Scenario.small_row ∈ low_capacity Scenario.fractions 100
  ∧ ∃ capacity,
      Event.capacity (LowCapacityEvent.event Scenario.small_row) = Some capacity
      ∧ capacity ≠ 0%N
      ∧ LowCapacityEvent.tickets_sold Scenario.small_row
        = Spec.tickets_sold Scenario.fractions (LowCapacityEvent.id Scenario.small_row)
      ∧ LowCapacityEvent.percentage_tickets_remaining Scenario.small_row
        = (100 * (Z.of_N capacity - LowCapacityEvent.tickets_sold Scenario.small_row))
            `quot` Z.of_N capacity.
Proof.
  assert (Scenario.small_row ∈ low_capacity Scenario.fractions 100) as Hin.
  { vm_compute. repeat constructor. }
  split; [reflexivity|]. split; [exact Hin|].
  exact (percentage_tickets_remaining_quot Scenario.fractions Sqlite 100
           (low_capacity Scenario.fractions 100) Scenario.small_row eq_refl Hin).
Defined.

(** [most_purchased_event_name_by_name] at user 1 of
    [Scenario.same_names]. *)
Lemma most_purchased_event_name_by_name_witness :
  get_customer_purchase_statistics Scenario.same_names 1 = Some Scenario.gala_stats
  ∧ (¬ Spec.has_paid_purchase Scenario.same_names 1 →
     CustomerStats.most_purchased_event_name Scenario.gala_stats = None)
  ∧ (CustomerStats.most_purchased_event_name Scenario.gala_stats = None ↔
     ∀ p, p ∈ Spec.all_purchases Scenario.same_names →
          Spec.bought_by Scenario.same_names 1 p →
          Spec.paid Scenario.same_names p →
          ∀ eid, Spec.of_event Scenario.same_names eid p →
                 events Scenario.same_names !! eid = None)
  ∧ (∀ name,
       CustomerStats.most_purchased_event_name Scenario.gala_stats = Some name →
       (∃ p eid e, p ∈ Spec.all_purchases Scenario.same_names
                   ∧ Spec.bought_by Scenario.same_names 1 p
                   ∧ Spec.paid Scenario.same_names p
                   ∧ Spec.of_event Scenario.same_names eid p
                   ∧ events Scenario.same_names !! eid = Some e
                   ∧ Event.name e = name)
       ∧ ∀ name', Spec.name_quantity Scenario.same_names 1 name'
                  ≤ Spec.name_quantity Scenario.same_names 1 name).
Proof.
  assert (get_customer_purchase_statistics Scenario.same_names 1
          = Some Scenario.gala_stats) as Hstats by (vm_compute; reflexivity).
  split; [exact Hstats|].
  exact (most_purchased_event_name_by_name Scenario.same_names 1
           Scenario.gala_stats Hstats).
Defined.

(** * Bounds and monotonicity of the queries *)

Section bounds.
Context (db : Store).

(** X3: the remaining tickets of a summary never exceed the capacity (or,
    without capacity, the total available); together with the tickets sold
    they cover the capacity, exactly so unless the event is oversold. *)
Theorem tickets_remaining_bounds now s e :
  s ∈ get_upcoming_events_summary db now →
  events db !! EventSummary.event_id s = Some e →
  match Event.capacity e with
  | Some capacity =>
      EventSummary.tickets_remaining s ≤ Z.of_N capacity
      ∧ Z.of_N capacity
        ≤ EventSummary.tickets_remaining s + EventSummary.total_tickets_sold s
      ∧ (EventSummary.total_tickets_sold s ≤ Z.of_N capacity →
         EventSummary.tickets_remaining s + EventSummary.total_tickets_sold s
         = Z.of_N capacity)
      ∧ (Z.of_N capacity ≤ EventSummary.total_tickets_sold s →
         EventSummary.tickets_remaining s = 0)
  | None =>
      EventSummary.tickets_remaining s
      ≤ Spec.total_available db (EventSummary.event_id s)
      ∧ (EventSummary.total_tickets_sold s = 0 →
         EventSummary.tickets_remaining s
         = Spec.total_available db (EventSummary.event_id s))
  end.
Proof.
  intros (id & e' & He' & _ & _ & ->)%elem_of_upcoming_events_summary He.
  change (EventSummary.event_id (event_summary db id e')) with id in *.
  rewrite He' in He. injection He as ->.
  rewrite summary_tickets_remaining, summary_total_tickets_sold.
  pose proof (tickets_sold_nonneg db id) as Hsold.
  assert (0 ≤ Spec.total_available db id) as Havail.
  { apply total_nonneg. intros r _. apply N2Z.is_nonneg. }
  destruct (Event.capacity e); lia.
Qed.

(** X4: as time passes summaries only drop out: those at a later time
    are, in order, among those at an earlier time. *)
Theorem upcoming_events_summary_later now1 now2 :
  now1 ≤ now2 →
  get_upcoming_events_summary db now2 `sublist_of` get_upcoming_events_summary db now1.
Proof.
  intros Hle. unfold get_upcoming_events_summary, upcoming_events.
  apply fmap_sublist.
  rewrite <-(list_filter_filter_l
               (λ r, Event.is_published r.2 = true ∧ now2 ≤ Event.end_time r.2)
               (λ r, Event.is_published r.2 = true ∧ now1 ≤ Event.end_time r.2))
    by (intros r [? ?]; split; [done|lia]).
  apply sublist_filter.
Qed.

End bounds.

Section thresholds.
Context (db : Store).

Lemma low_capacity_remaining_Rows backend threshold rows :
  get_events_with_low_capacity_remaining db backend threshold = Rows rows →
  rows = low_capacity db threshold.
Proof.
  unfold get_events_with_low_capacity_remaining.
  destruct backend; [by intros [= <-]|].
  case_bool_decide; [done|]. by intros [= <-].
Qed.

Lemma low_capacity_filter threshold1 threshold2 :
  threshold1 ≤ threshold2 →
  low_capacity db threshold1
  = filter (λ r, LowCapacityEvent.percentage_tickets_remaining r ≤ threshold1)
           (low_capacity db threshold2).
Proof.
  intros Hle. unfold low_capacity.
  induction (annotated_events db) as [|[[[id e] sold] [pct|]] l IH]; [done| |done].
  csimpl. destruct (decide (pct ≤ threshold1)) as [H1|H1].
  - rewrite !bool_decide_true by lia. csimpl.
    rewrite filter_cons_True by done. by rewrite IH.
  - rewrite (bool_decide_false (pct ≤ threshold1)) by done.
    case_bool_decide; csimpl; [|done].
    by rewrite filter_cons_False.
Qed.

(** X5: lowering the threshold only filters the result: the rows for a
    lower threshold are those rows for a higher one whose percentage is
    within the lower threshold, in the same order. *)
Theorem low_capacity_threshold_mono backend threshold1 threshold2 rows1 rows2 :
  threshold1 ≤ threshold2 →
  get_events_with_low_capacity_remaining db backend threshold1 = Rows rows1 →
  get_events_with_low_capacity_remaining db backend threshold2 = Rows rows2 →
  rows1 = filter (λ r, LowCapacityEvent.percentage_tickets_remaining r ≤ threshold1)
                 rows2
  ∧ rows1 `sublist_of` rows2.
Proof.
  intros Hle ->%low_capacity_remaining_Rows ->%low_capacity_remaining_Rows.
  rewrite (low_capacity_filter threshold1 threshold2) by done.
  split; [done|apply sublist_filter].
Qed.

Lemma elem_of_low_capacity_ids threshold id e capacity :
  events db !! id = Some e → Event.capacity e = Some capacity → capacity ≠ 0%N →
  id ∈ LowCapacityEvent.id <$> low_capacity db threshold
  ↔ (100 * (Z.of_N capacity - Spec.tickets_sold db id)) `quot` Z.of_N capacity
    ≤ threshold.
Proof.
  intros He Hc Hpos. rewrite list_elem_of_fmap. split.
  - intros (r & -> & (c & He' & Hc' & Hsold & Hpct & Hle)%elem_of_low_capacity).
    rewrite He in He'. injection He' as He'. rewrite <-He', Hc in Hc'.
    injection Hc' as Hc'. subst c.
    rewrite percentage_quot in Hpct by done. injection Hpct as Hpct.
    by rewrite <-Hsold, Hpct.
  - intros Hle.
    exists {| LowCapacityEvent.id := id; LowCapacityEvent.event := e;
              LowCapacityEvent.tickets_sold := Spec.tickets_sold db id;
              LowCapacityEvent.percentage_tickets_remaining :=
                (100 * (Z.of_N capacity - Spec.tickets_sold db id))
                  `quot` Z.of_N capacity |}.
    split; [done|]. apply elem_of_low_capacity. exists capacity. simpl.
    by rewrite percentage_quot.
Qed.

(** X20: whenever the query returns rows, they are, each once, the
    events with a capacity other than 0 for which 100 * (capacity -
    tickets sold), divided by the capacity and cut toward zero, is at
    most the threshold; an event without capacity, or of capacity 0, is
    never among them. *)
Theorem low_capacity_rows_quot backend threshold rows :
  get_events_with_low_capacity_remaining db backend threshold = Rows rows →
  NoDup (LowCapacityEvent.id <$> rows)
  ∧ (∀ r, r ∈ rows →
          events db !! LowCapacityEvent.id r = Some (LowCapacityEvent.event r))
  ∧ (∀ id, id ∈ LowCapacityEvent.id <$> rows ↔
       ∃ e capacity,
         events db !! id = Some e ∧ Event.capacity e = Some capacity
         ∧ capacity ≠ 0%N
         ∧ (100 * (Z.of_N capacity - Spec.tickets_sold db id)) `quot` Z.of_N capacity
           ≤ threshold).
Proof.
  intros ->%low_capacity_remaining_Rows. split; [|split].
  - eapply sublist_NoDup; [apply (NoDup_fst_map_to_list (events db))|].
    apply low_capacity_ids_sublist.
  - by intros r (capacity & He & _)%elem_of_low_capacity.
  - intros id. split.
    + intros (r & -> & Hr)%list_elem_of_fmap.
      pose proof Hr as (capacity & He & Hc & _ & Hpct & _)%elem_of_low_capacity.
      assert (capacity ≠ 0%N) as Hpos.
      { intros ->. by rewrite (proj2 (percentage_None 0 _)) in Hpct. }
      exists (LowCapacityEvent.event r), capacity.
      split; [done|]. split; [done|]. split; [done|].
      apply (elem_of_low_capacity_ids threshold _ _ _ He Hc Hpos).
      apply list_elem_of_fmap. by exists r.
    + intros (e & capacity & He & Hc & Hpos & Hle).
      by apply (elem_of_low_capacity_ids threshold id e capacity).
Qed.

(** X6: an event with a positive capacity is returned for every
    threshold of at least 100, and once sold out for every threshold of
    at least 0; without any paid ticket it is returned only from
    threshold 100 on. *)
Theorem low_capacity_returned backend threshold rows id e capacity :
  get_events_with_low_capacity_remaining db backend threshold = Rows rows →
  events db !! id = Some e → Event.capacity e = Some capacity → capacity ≠ 0%N →
  (100 ≤ threshold → id ∈ LowCapacityEvent.id <$> rows)
  ∧ (0 ≤ threshold → Z.of_N capacity ≤ Spec.tickets_sold db id →
     id ∈ LowCapacityEvent.id <$> rows)
  ∧ (Spec.tickets_sold db id = 0 →
     (id ∈ LowCapacityEvent.id <$> rows ↔ 100 ≤ threshold)).
Proof.
  intros ->%low_capacity_remaining_Rows He Hc Hpos.
  rewrite (elem_of_low_capacity_ids threshold id e capacity) by done.
  pose proof (tickets_sold_nonneg db id) as Hsold.
  assert (0 < Z.of_N capacity) as Hcap by lia.
  split; [|split].
  - intros Hle. etrans; [|exact Hle].
    rewrite <-(Z.quot_mul 100 (Z.of_N capacity)) at 2 by lia.
    apply Z.quot_le_mono; lia.
  - intros Hle Hout. etrans; [|exact Hle].
    destruct (decide (Spec.tickets_sold db id = Z.of_N capacity)) as [->|Hne].
    + by rewrite Z.sub_diag, Z.mul_0_r, Z.quot_0_l by lia.
    + rewrite <-(Z.opp_involutive (100 * _)), Z.quot_opp_l by lia.
      assert (0 ≤ (- (100 * (Z.of_N capacity - Spec.tickets_sold db id)))
                    `quot` Z.of_N capacity); [|lia].
      apply Z.quot_pos; lia.
  - intros ->. rewrite Z.sub_0_r, Z.quot_mul by lia. done.
Qed.

(** X7: the two queries agree on an event they both report: the same
    tickets sold, and, unless the event is oversold, a percentage that is
    100 times the remaining tickets of the summary divided by the
    capacity; for an oversold event the summary shows 0 remaining while
    the percentage is at most 0. *)
Theorem percentage_of_tickets_remaining backend threshold rows now r s :
  get_events_with_low_capacity_remaining db backend threshold = Rows rows →
  r ∈ rows →
  s ∈ get_upcoming_events_summary db now →
  EventSummary.event_id s = LowCapacityEvent.id r →
  LowCapacityEvent.tickets_sold r = EventSummary.total_tickets_sold s
  ∧ ∃ capacity,
      Event.capacity (LowCapacityEvent.event r) = Some capacity
      ∧ (LowCapacityEvent.tickets_sold r ≤ Z.of_N capacity →
         LowCapacityEvent.percentage_tickets_remaining r
         = (100 * EventSummary.tickets_remaining s) `quot` Z.of_N capacity)
      ∧ (Z.of_N capacity ≤ LowCapacityEvent.tickets_sold r →
         EventSummary.tickets_remaining s = 0
         ∧ LowCapacityEvent.percentage_tickets_remaining r ≤ 0).
Proof.
  intros ->%low_capacity_remaining_Rows
    (capacity & He & Hc & Hsold & Hpct & _)%elem_of_low_capacity
    (id & e & He' & _ & _ & ->)%elem_of_upcoming_events_summary Hid.
  change (EventSummary.event_id (event_summary db id e)) with id in Hid. subst id.
  rewrite He in He'. injection He' as He'. subst e.
  rewrite summary_total_tickets_sold, summary_tickets_remaining, Hc.
  split; [done|]. exists capacity. split; [done|].
  assert (capacity ≠ 0%N) as Hpos.
  { intros ->. by rewrite (proj2 (percentage_None 0 _)) in Hpct. }
  rewrite percentage_quot in Hpct by done. injection Hpct as <-.
  rewrite <-Hsold. split.
  - intros Hle. by rewrite Z.max_l by lia.
  - intros Hle. split; [lia|].
    destruct (decide (LowCapacityEvent.tickets_sold r = Z.of_N capacity)) as [->|Hne].
    + by rewrite Z.sub_diag, Z.mul_0_r, Z.quot_0_l by lia.
    + rewrite <-(Z.opp_involutive (100 * _)), Z.quot_opp_l by lia.
      assert (0 ≤ (- (100 * (Z.of_N capacity - LowCapacityEvent.tickets_sold r)))
                    `quot` Z.of_N capacity); [|lia].
      apply Z.quot_pos; lia.
Qed.

End thresholds.

(** * How the queries compose *)

Lemma total_omap {A B} (f : B → Z) (g : A → option B) (l : list A) :
  total f (omap g l) = total (λ x, from_option f 0 (g x)) l.
Proof.
  induction l as [|x l IH]; [done|].
  change (total f (omap g (x :: l)))
    with (total f (match g x with Some y => y :: omap g l | None => omap g l end)).
  change (total (λ x, from_option f 0 (g x)) (x :: l))
    with (from_option f 0 (g x) + total (λ x, from_option f 0 (g x)) l).
  rewrite <-IH. destruct (g x) as [y|]; simpl; [done|lia].
Qed.

Section ranking.
Context (db : Store).

Lemma ordered_by_desc_keys {A} (key : A → Z) (rows sorted1 sorted2 : list A) :
  ordered_by_desc key rows sorted1 → ordered_by_desc key rows sorted2 →
  key <$> sorted1 = key <$> sorted2.
Proof.
  intros [Hperm1 Hsorted1] [Hperm2 Hsorted2].
  assert (AntiSymm (=) (flip Z.le)) by (intros x y; unfold flip; lia).
  apply (StronglySorted_unique (flip Z.le)).
  - by apply (StronglySorted_fmap _ (desc key)).
  - by apply (StronglySorted_fmap _ (desc key)).
  - by rewrite Hperm1, Hperm2.
Qed.

Lemma order_by_desc_ordered {A} (key : A → Z) (rows : list A) :
  ordered_by_desc key rows (order_by_desc key rows).
Proof. split; [apply order_by_desc_Permutation|apply order_by_desc_sorted]. Qed.

Lemma top_selling_is_result n :
  top_selling_result db n (get_top_selling_ticket_types db n).
Proof.
  exists (order_by_desc TicketTypeRanking.units_sold (annotated_ticket_types db)).
  split; [apply order_by_desc_ordered|done].
Qed.

(** X8: however the database cuts ties, and whether or not it cuts them
    alike for different limits, the [units_sold] of the rows returned
    for a smaller limit are the first of those returned for a larger
    one, and no ticket type is ranked twice; what
    [get_top_selling_ticket_types] computes here is one such result. *)
Theorem top_selling_units_sold_prefix n m rows_n rows_m :
  (n ≤ m)%nat →
  top_selling_result db n rows_n → top_selling_result db m rows_m →
  TicketTypeRanking.units_sold <$> rows_n
  = take n (TicketTypeRanking.units_sold <$> rows_m)
  ∧ NoDup (TicketTypeRanking.id <$> rows_m)
  ∧ top_selling_result db n (get_top_selling_ticket_types db n).
Proof.
  intros Hle (sorted1 & Hsorted1 & ->) (sorted2 & Hsorted2 & ->).
  split; [|split].
  - rewrite !fmap_take, take_take, Nat.min_l by done.
    by rewrite (ordered_by_desc_keys _ _ _ _ Hsorted1 Hsorted2).
  - eapply sublist_NoDup; [|apply fmap_sublist, sublist_take].
    destruct Hsorted2 as [Hperm _]. rewrite Hperm.
    eapply sublist_NoDup; [apply (NoDup_fst_map_to_list (ticket_types db))|].
    apply annotated_ticket_types_ids_sublist.
  - exists (order_by_desc TicketTypeRanking.units_sold (annotated_ticket_types db)).
    split; [apply order_by_desc_ordered|done].
Qed.

(** The paid quantity of an event is the sum of the units sold of its
    ticket types. *)
Lemma tickets_sold_by_ticket_type eid :
  total (λ r, Spec.units_sold db r.1) (event_ticket_types db eid)
  = Spec.tickets_sold db eid.
Proof.
  rewrite <-paid_quantity_event, paid_quantity_total. unfold ticket_types__purchases.
  rewrite total_bind, total_left_join by done.
  apply total_ext. intros r _. simpl.
  by rewrite <-paid_quantity_total, paid_quantity_purchases.
Qed.

(** X9: when the limit leaves no ticket type out, the units sold of the
    ranked ticket types of an upcoming event add up to the tickets sold
    of its summary. *)
Theorem units_sold_add_up now n s :
  (size (ticket_types db) ≤ n)%nat →
  s ∈ get_upcoming_events_summary db now →
  total TicketTypeRanking.units_sold
        (filter (λ r, TicketType.event (TicketTypeRanking.ticket_type r)
                      = EventSummary.event_id s)
                (get_top_selling_ticket_types db n))
  = EventSummary.total_tickets_sold s.
Proof.
  intros Hn (id & e & He & _ & _ & ->)%elem_of_upcoming_events_summary.
  rewrite summary_total_tickets_sold.
  change (EventSummary.event_id (event_summary db id e)) with id.
  unfold get_top_selling_ticket_types. rewrite take_ge.
  2:{ rewrite order_by_desc_Permutation.
      etrans; [|exact Hn]. rewrite <-length_map_to_list.
      unfold annotated_ticket_types, objects.
      generalize (map_to_list (ticket_types db)). intros l.
      induction l as [|x l IH]; [done|]. csimpl.
      destruct (_ ≫= _); simpl; lia. }
  rewrite total_filter.
  rewrite (total_Permutation _ _ _ (order_by_desc_Permutation _ _)).
  unfold annotated_ticket_types. rewrite total_omap.
  rewrite <-tickets_sold_by_ticket_type. unfold event_ticket_types.
  rewrite total_filter. apply total_ext. intros [ttid tt] _. simpl.
  destruct (events db !! TicketType.event tt) as [e'|] eqn:He'; simpl.
  - repeat case_decide; try done. apply paid_quantity_purchases.
  - case_decide as Heq; [|done]. by rewrite Heq, He in He'.
Qed.

End ranking.

(** * What the queries do not depend on *)

Lemma omap_ext_in {A B} (f g : A → option B) (l : list A) :
  (∀ x, x ∈ l → f x = g x) → omap f l = omap g l.
Proof.
  induction l as [|x l IH]; intros Hfg; [done|]. csimpl.
  rewrite (Hfg x) by left. rewrite IH; [done|].
  intros y Hy. apply Hfg. by right.
Qed.

Lemma total_filter_insert {A} (f : A → Z) (P : A → Prop) `{!∀ x, Decision (P x)}
    (m : gmap Z A) k x :
  m !! k = None → ¬ P x →
  total f (filter P (map_to_list (<[k := x]> m)).*2)
  = total f (filter P (map_to_list m).*2).
Proof.
  intros Hk HP. rewrite !total_filter.
  rewrite (total_Permutation _ _ (x :: (map_to_list m).*2)).
  - rewrite total_cons, decide_False by done. lia.
  - by rewrite map_to_list_insert.
Qed.

Lemma event_summary_spec db id e :
  event_summary db id e
  = {| EventSummary.event_id := id;
       EventSummary.event_name := Event.name e;
       EventSummary.total_tickets_sold := Spec.tickets_sold db id;
       EventSummary.total_revenue := float (Spec.revenue db id);
       EventSummary.tickets_remaining :=
         match Event.capacity e with
         | Some capacity => Z.max (Z.of_N capacity - Spec.tickets_sold db id) 0
         | None => Z.max (Spec.total_available db id - Spec.tickets_sold db id) 0
         end;
       EventSummary.organizer_name :=
         match organizers db !! Event.organizer e with
         | Some o => Organizer.name o
         | None => ""
         end |}.
Proof.
  rewrite <-summary_tickets_remaining.
  rewrite <-summary_total_revenue with (e := e).
  rewrite <-summary_total_tickets_sold with (e := e). done.
Qed.

Section unpaid_purchase.
Context (db : Store) (pid : Z) (p : TicketPurchase.t).
Hypothesis Hfresh : ticket_purchases db !! pid = None.
Hypothesis Hunpaid : ¬ Spec.paid db p.

Local Abbreviation db' := (with_ticket_purchases db (<[pid := p]> (ticket_purchases db))).

Lemma tickets_sold_unpaid_purchase eid :
  Spec.tickets_sold db' eid = Spec.tickets_sold db eid.
Proof.
  unfold Spec.tickets_sold, Spec.all_purchases. simpl.
  apply (total_filter_insert _ (λ q, Spec.of_event db eid q ∧ Spec.paid db q));
    [done|tauto].
Qed.

Lemma revenue_unpaid_purchase eid : Spec.revenue db' eid = Spec.revenue db eid.
Proof.
  unfold Spec.revenue, Spec.all_purchases. simpl.
  apply (total_filter_insert _ (λ q, Spec.of_event db eid q ∧ Spec.paid db q));
    [done|tauto].
Qed.

Lemma units_sold_unpaid_purchase ttid :
  Spec.units_sold db' ttid = Spec.units_sold db ttid.
Proof.
  unfold Spec.units_sold, Spec.all_purchases. simpl.
  apply (total_filter_insert _
           (λ q, TicketPurchase.ticket_type q = ttid ∧ Spec.paid db q));
    [done|tauto].
Qed.

End unpaid_purchase.

(** X10: recording a purchase whose order is unpaid (or missing) changes
    none of the three event queries. *)
Theorem unpaid_purchase_ignored db pid p now n backend threshold :
  ticket_purchases db !! pid = None →
  ¬ Spec.paid db p →
  get_upcoming_events_summary
    (with_ticket_purchases db (<[pid := p]> (ticket_purchases db))) now
  = get_upcoming_events_summary db now
  ∧ get_top_selling_ticket_types
      (with_ticket_purchases db (<[pid := p]> (ticket_purchases db))) n
    = get_top_selling_ticket_types db n
  ∧ get_events_with_low_capacity_remaining
      (with_ticket_purchases db (<[pid := p]> (ticket_purchases db)))
      backend threshold
    = get_events_with_low_capacity_remaining db backend threshold.
Proof.
  intros Hfresh Hunpaid. split; [|split].
  - unfold get_upcoming_events_summary. apply list_fmap_ext. intros _ [id e] _.
    simpl. rewrite !event_summary_spec.
    by rewrite tickets_sold_unpaid_purchase, revenue_unpaid_purchase.
  - unfold get_top_selling_ticket_types. f_equal. f_equal.
    unfold annotated_ticket_types. apply omap_ext_in. intros [ttid tt] _. simpl.
    by rewrite !paid_quantity_purchases, units_sold_unpaid_purchase.
  - assert (annotated_events
              (with_ticket_purchases db (<[pid := p]> (ticket_purchases db)))
            = annotated_events db) as Hann.
    { unfold annotated_events. apply omap_ext_in. intros [id e] _. simpl.
      by rewrite !paid_quantity_event, tickets_sold_unpaid_purchase. }
    unfold get_events_with_low_capacity_remaining, low_capacity.
    by rewrite Hann.
Qed.

(** X11: an order of another customer, or an anonymous one, changes
    nothing in the statistics of a customer. *)
Theorem other_orders_ignored db customer_id oid o :
  orders db !! oid = None →
  Order.customer o ≠ Some customer_id →
  get_customer_purchase_statistics
    (with_orders db (<[oid := o]> (orders db))) customer_id
  = get_customer_purchase_statistics db customer_id.
Proof.
  intros Hfresh Hother. unfold get_customer_purchase_statistics.
  rewrite !user_orders_count, !user_orders_amount, !amount_spent_customer_orders.
  assert (Spec.customer_orders (with_orders db (<[oid := o]> (orders db))) customer_id
          = Spec.customer_orders db customer_id) as ->.
  { unfold Spec.customer_orders. simpl.
    apply map_filter_insert_not'; [done|]. intros y. by rewrite Hfresh. }
  assert (customer_paid_purchases (with_orders db (<[oid := o]> (orders db)))
            customer_id
          = customer_paid_purchases db customer_id) as Hpurchases.
  { unfold customer_paid_purchases. simpl. f_equal.
    apply list_filter_iff. intros q.
    unfold order__customer_id, order__is_paid. simpl.
    destruct (decide (TicketPurchase.order q = oid)) as [->|Hne].
    - rewrite lookup_insert_eq, Hfresh. simpl. split; [|by intros [? ?]].
      intros [[= Hc] _]. by rewrite Hc in Hother.
    - by rewrite lookup_insert_ne. }
  unfold event_counts. by rewrite Hpurchases.
Qed.

(** * generate_sample_data: the deletions *)

Section protect.
Import Command.

Lemma unprotected_false db deleted pid p :
  ticket_purchases db !! pid = Some p →
  is_Some (deleted !! TicketPurchase.ticket_type p) →
  Delete.unprotected db deleted = false.
Proof.
  intros Hp Htt. unfold Delete.unprotected. apply bool_decide_eq_false.
  intros Hsize%map_size_empty_iff.
  assert (Delete.protecting db deleted !! pid = Some p) as Hin.
  { by apply map_lookup_filter_Some. }
  by rewrite Hsize in Hin.
Qed.

Lemma unprotected_true db deleted pid p :
  Delete.unprotected db deleted = true →
  ticket_purchases db !! pid = Some p →
  deleted !! TicketPurchase.ticket_type p = None.
Proof.
  intros Hun Hp. destruct (deleted !! TicketPurchase.ticket_type p) eqn:Htt; [|done].
  rewrite (unprotected_false db deleted pid p) in Hun; [done..|by eexists].
Qed.

Lemma wipe_protected w pid p tt :
  ticket_purchases (db w) !! pid = Some p →
  ticket_types (db w) !! TicketPurchase.ticket_type p = Some tt →
  ∃ w', wipe w = Raised ProtectedError w'
    ∧ ticket_purchases (db w') = ticket_purchases (db w)
    ∧ orders (db w') = orders (db w)
    ∧ users (db w') = users (db w)
    ∧ ((∃ e, events (db w) !! TicketType.event tt = Some e
             ∧ is_Some (organizers (db w) !! Event.organizer e)) →
       w' = w).
Proof.
  intros Hp Htt. unfold wipe.
  unfold mbind, run_bind, delete at 1, Delete.organizers_all.
  destruct (Delete.unprotected (db w) _) eqn:Hun1.
  2:{ exists w. by repeat split. }
  pose proof (unprotected_true _ _ _ _ Hun1 Hp) as Hout1.
  set (db1 := {| organizers := ∅ |}).
  assert (ticket_types db1 !! TicketPurchase.ticket_type p = Some tt) as Htt1.
  { apply lookup_difference_Some. by split. }
  unfold delete at 1, Delete.events_all. simpl.
  destruct (Delete.unprotected db1 _) eqn:Hun2.
  2:{ exists (set_db w db1). repeat split; try done.
      intros (e & He & Ho). exfalso.
      assert (is_Some (Delete.cascade_ticket_types (db w)
                         (Delete.cascade_events (db w) (organizers (db w)))
                       !! TicketPurchase.ticket_type p)) as [? Hin]; [|congruence].
      exists tt. apply map_lookup_filter_Some. split; [done|]. simpl.
      exists e. by apply map_lookup_filter_Some. }
  pose proof (unprotected_true db1 _ _ _ Hun2 Hp) as Hout2.
  unfold delete at 1, Delete.ticket_types_all. simpl.
  rewrite (unprotected_false _ _ pid p); [|done|].
  2:{ exists tt. apply lookup_difference_Some. by split. }
  eexists. repeat split; try done.
  intros (e & He & Ho). exfalso.
  assert (is_Some (Delete.cascade_ticket_types (db w)
                     (Delete.cascade_events (db w) (organizers (db w)))
                   !! TicketPurchase.ticket_type p)) as [? Hin]; [|congruence].
  exists tt. apply map_lookup_filter_Some. split; [done|]. simpl.
  exists e. by apply map_lookup_filter_Some.
Qed.

(** X12: [handle] cannot run on a database in which a purchase refers to
    a stored ticket type: one of its first three deletions raises
    [ProtectedError], with purchases, orders and users untouched; when
    the event and the organizer of that ticket type are stored too, it
    is the first deletion, and the database is left as it was. *)
Theorem handle_protected w pid p tt :
  ticket_purchases (db w) !! pid = Some p →
  ticket_types (db w) !! TicketPurchase.ticket_type p = Some tt →
  ∃ w', handle w = Raised ProtectedError w'
    ∧ ticket_purchases (db w') = ticket_purchases (db w)
    ∧ orders (db w') = orders (db w)
    ∧ users (db w') = users (db w)
    ∧ ((∃ e, events (db w) !! TicketType.event tt = Some e
             ∧ is_Some (organizers (db w) !! Event.organizer e)) →
       w' = w).
Proof.
  intros Hp Htt.
  destruct (wipe_protected w pid p tt Hp Htt) as (w' & Hwipe & Hsame).
  exists w'. split; [|done]. unfold handle, mbind, run_bind. by rewrite Hwipe.
Qed.

End protect.

(** * generate_sample_data: running the command *)

Section run.
Import Command.

Lemma bind_Returned {A B} (c : Run A) (f : A → Run B) w b w2 :
  (c ≫= f) w = Returned b w2
  ↔ ∃ a w1, c w = Returned a w1 ∧ f a w1 = Returned b w2.
Proof.
  unfold mbind, run_bind. destruct (c w) as [a w1|e w1]; split.
  - intros Hf. by exists a, w1.
  - by intros (a' & w1' & [= <- <-] & Hf).
  - done.
  - by intros (a' & w1' & [=] & _).
Qed.

Lemma ret_Returned {A} (a b : A) w w' :
  mret (M := Run) a w = Returned b w' ↔ b = a ∧ w' = w.
Proof. unfold mret, run_ret. split; [by intros [= <- <-]|by intros [-> ->]]. Qed.

(** A loop that collects keeps what each round keeps. *)
Lemma collect_invariant {A B} (I : list B → World → Prop) (body : A → Run B) xs :
  (∀ x pre w y w', x ∈ xs → I pre w → body x w = Returned y w' → I (pre ++ [y]) w') →
  ∀ pre w ys w',
    I pre w → collect xs body w = Returned ys w' →
    I (pre ++ ys) w' ∧ length ys = length xs.
Proof.
  induction xs as [|x xs IH]; intros Hbody pre w ys w' HI Hrun.
  - apply ret_Returned in Hrun as [-> ->]. by rewrite app_nil_r.
  - simpl in Hrun. apply bind_Returned in Hrun as (y & w1 & Hy & Hrun).
    apply bind_Returned in Hrun as (ys' & w2 & Hys & Hrun).
    apply ret_Returned in Hrun as [-> ->].
    destruct (IH (λ x' pre' w0 y' w0' Hx', Hbody x' pre' w0 y' w0' (list_elem_of_further _ _ _ Hx'))
                 (pre ++ [y]) w1 ys' w2) as [HI' Hlen]; [|done|].
    + apply (Hbody x pre w y w1); [left|done..].
    + rewrite <-app_assoc in HI'. split; [done|]. simpl. by rewrite Hlen.
Qed.

Lemma for_invariant {A} (I : nat → World → Prop) (body : A → Run ()) xs :
  (∀ x n w w', x ∈ xs → I n w → body x w = Returned () w' → I (S n) w') →
  ∀ n w w', I n w → for_ xs body w = Returned () w' → I (n + length xs)%nat w'.
Proof.
  induction xs as [|x xs IH]; intros Hbody n w w' HI Hrun.
  - apply ret_Returned in Hrun as [_ ->]. by rewrite Nat.add_0_r.
  - simpl in Hrun. apply bind_Returned in Hrun as ([] & w1 & Hx & Hrun).
    simpl. rewrite <-Nat.add_succ_comm.
    apply (IH (λ x' n' w0 w0' Hx', Hbody x' n' w0 w0' (list_elem_of_further _ _ _ Hx'))
              (S n) w1 w'); [|done].
    apply (Hbody x n w w1); [left|done..].
Qed.

(** The random source answers within the bounds asked for. *)
Lemma randint_Returned a b w z w' :
  a ≤ b → randint a b w = Returned z w' →
  a ≤ z ≤ b ∧ db w' = db w ∧ sequences w' = sequences w
  ∧ superusers w' = superusers w ∧ clock w' = clock w ∧ read w' = read w.
Proof.
  intros Hab [= <- <-]. simpl. repeat split; try done.
  - pose proof (Z.mod_pos_bound (Z.of_nat (random w (drawn w))) (b - a + 1)). lia.
  - pose proof (Z.mod_pos_bound (Z.of_nat (random w (drawn w))) (b - a + 1)). lia.
Qed.

Lemma choice_Returned {A} (seq : list A) w x w' :
  choice seq w = Returned x w' →
  x ∈ seq ∧ db w' = db w ∧ sequences w' = sequences w
  ∧ superusers w' = superusers w ∧ clock w' = clock w ∧ read w' = read w.
Proof.
  unfold choice. intros (r & w1 & [= <- <-] & Hx)%bind_Returned.
  destruct (seq !! _) as [y|] eqn:Hy; [|done].
  apply ret_Returned in Hx as [-> ->]. split; [|done].
  by eapply list_elem_of_lookup_2.
Qed.

Lemma datetime_now_Returned w t w' :
  datetime_now w = Returned t w' →
  t = clock w (read w) ∧ db w' = db w ∧ sequences w' = sequences w
  ∧ superusers w' = superusers w ∧ clock w' = clock w ∧ read w' = S (read w).
Proof. by intros [= <- <-]. Qed.

End run.

Section create.
Import Command.

Lemma create_organizer_Returned name w r w' :
  create_organizer name w = Returned r w' →
  organizers (db w) !! r.1 = None
  ∧ db w' = with_organizers (db w) (<[r.1 := r.2]> (organizers (db w)))
  ∧ superusers w' = superusers w ∧ clock w' = clock w ∧ read w' = read w.
Proof.
  unfold create_organizer. case_bool_decide as Hok; [|done].
  intros [= <- <-]. by destruct Hok.
Qed.

Lemma create_user_Returned username w r w' :
  create_user username w = Returned r w' →
  users (db w) !! r.1 = None
  ∧ db w' = with_users (db w) (<[r.1 := r.2]> (users (db w)))
  ∧ superusers w' = superusers w ∧ clock w' = clock w ∧ read w' = S (read w).
Proof.
  unfold create_user.
  intros (t & w1 & (_ & Hdb1 & _ & Hs1 & Hc1 & Hr1)%datetime_now_Returned
          & Hrun)%bind_Returned.
  unfold insert_user in Hrun. case_bool_decide as Hok; [|done].
  injection Hrun as <- <-. simpl. rewrite Hdb1 in Hok. destruct Hok.
  by rewrite Hdb1, Hs1, Hc1, Hr1.
Qed.

Lemma create_event_Returned row w r w' :
  create_event row w = Returned r w' →
  events (db w) !! r.1 = None
  ∧ is_Some (organizers (db w) !! Event.organizer row)
  ∧ r.2 = row
  ∧ db w' = with_events (db w) (<[r.1 := row]> (events (db w)))
  ∧ superusers w' = superusers w ∧ clock w' = clock w ∧ read w' = read w.
Proof.
  unfold create_event. case_bool_decide as Hok; [|done].
  intros [= <- <-]. by destruct Hok.
Qed.

Lemma create_ticket_type_Returned row w r w' :
  create_ticket_type row w = Returned r w' →
  ticket_types (db w) !! r.1 = None
  ∧ is_Some (events (db w) !! TicketType.event row)
  ∧ r.2 = row
  ∧ db w' = with_ticket_types (db w) (<[r.1 := row]> (ticket_types (db w)))
  ∧ superusers w' = superusers w ∧ clock w' = clock w ∧ read w' = read w.
Proof.
  unfold create_ticket_type. case_bool_decide as Hok; [|done].
  intros [= <- <-]. by destruct Hok.
Qed.

Lemma create_order_Returned customer is_paid total_amount w r w' :
  create_order customer is_paid total_amount w = Returned r w' →
  orders (db w) !! r.1 = None
  ∧ (∀ c, customer = Some c → is_Some (users (db w) !! c))
  ∧ Order.customer r.2 = customer
  ∧ Order.total_amount r.2 = total_amount
  ∧ Order.discount_code r.2 = None
  ∧ db w' = with_orders (db w) (<[r.1 := r.2]> (orders (db w)))
  ∧ superusers w' = superusers w ∧ clock w' = clock w.
Proof.
  unfold create_order. intros (t & w1 & [= <- <-] & Hrow)%bind_Returned.
  unfold insert_order in Hrow. simpl in Hrow.
  destruct (bool_decide (orders (db w) !! order_id (sequences w) = None)) eqn:Hid;
    [|done].
  apply bool_decide_eq_true in Hid. simpl in Hrow.
  destruct customer as [c|].
  - case_bool_decide as Hc; [|done]. injection Hrow as <- <-. simpl.
    repeat split; try done. by intros ? [= <-].
  - injection Hrow as <- <-. by repeat split.
Qed.

Lemma create_ticket_purchase_Returned row w r w' :
  create_ticket_purchase row w = Returned r w' →
  ticket_purchases (db w) !! r.1 = None
  ∧ is_Some (orders (db w) !! TicketPurchase.order row)
  ∧ is_Some (ticket_types (db w) !! TicketPurchase.ticket_type row)
  ∧ db w' = with_ticket_purchases (db w) (<[r.1 := row]> (ticket_purchases (db w)))
  ∧ superusers w' = superusers w ∧ clock w' = clock w.
Proof.
  unfold create_ticket_purchase. case_bool_decide as Hok; [|done].
  intros [= <- <-]. by destruct Hok as (? & ? & ?).
Qed.

End create.

Section populate.
Import Command.

Lemma with_organizers_same db : with_organizers db (organizers db) = db.
Proof. by destruct db. Qed.

Lemma with_users_same db : with_users db (users db) = db.
Proof. by destruct db. Qed.

Lemma with_events_same db : with_events db (events db) = db.
Proof. by destruct db. Qed.

Lemma with_ticket_types_same db : with_ticket_types db (ticket_types db) = db.
Proof. by destruct db. Qed.

Lemma with_orders_purchases_same db :
  with_ticket_purchases (with_orders db (orders db)) (ticket_purchases db) = db.
Proof. by destruct db. Qed.

(** Rows found in a table are still found after a row is written under
    a free id. *)
Lemma Forall_lookup_insert {A} (m : gmap Z A) k x (l : list (Z * A)) :
  m !! k = None →
  Forall (λ r, m !! r.1 = Some r.2) l →
  Forall (λ r, <[k := x]> m !! r.1 = Some r.2) (l ++ [(k, x)]).
Proof.
  intros Hk Hl. apply Forall_app. split.
  - eapply Forall_impl; [exact Hl|]. intros [j y] Hj. simpl in *.
    rewrite lookup_insert_ne; [done|]. intros ->. by rewrite Hk in Hj.
  - apply Forall_singleton. simpl. apply lookup_insert_eq.
Qed.

Lemma organizers_created w organizers_ w' :
  collect (range 3) (λ i, create_organizer ("Organizer " +:+ pretty i)) w
  = Returned organizers_ w' →
  ∃ table,
    db w' = with_organizers (db w) table
    ∧ size table = (size (organizers (db w)) + 3)%nat
    ∧ Forall (λ r, table !! r.1 = Some r.2) organizers_
    ∧ superusers w' = superusers w ∧ clock w' = clock w ∧ read w' = read w.
Proof.
  intros Hrun.
  eapply (collect_invariant
            (λ pre w1, ∃ table,
               db w1 = with_organizers (db w) table
               ∧ size table = (size (organizers (db w)) + length pre)%nat
               ∧ Forall (λ r, table !! r.1 = Some r.2) pre
               ∧ superusers w1 = superusers w ∧ clock w1 = clock w
               ∧ read w1 = read w)) with (pre := []) in Hrun as [HI Hlen];
    [|clear Hrun|].
  - simpl in HI. destruct HI as (table & Hdb & Hsize & Hin & Henv).
    exists table. by rewrite Hsize, Hlen.
  - intros x pre w1 y w2 _ (table & Hdb & Hsize & Hin & Hs & Hc & Hr) Hy.
    apply create_organizer_Returned in Hy as (Hfresh & Hdb' & Hs' & Hc' & Hr').
    rewrite Hdb in Hfresh, Hdb'. simpl in Hfresh, Hdb'. destruct y as [id row].
    exists (<[id := row]> table). rewrite length_app. simpl.
    split; [done|]. split; [rewrite map_size_insert_None by done; lia|].
    split; [by apply Forall_lookup_insert|]. by rewrite Hs', Hc', Hr'.
  - exists (organizers (db w)). rewrite with_organizers_same. simpl.
    by rewrite Nat.add_0_r.
Qed.

Lemma users_created w users_ w' :
  collect (range 10) (λ i, create_user ("user" +:+ pretty i)) w
  = Returned users_ w' →
  ∃ table,
    db w' = with_users (db w) table
    ∧ size table = (size (users (db w)) + 10)%nat
    ∧ users (db w) ⊆ table
    ∧ Forall (λ r, table !! r.1 = Some r.2) users_
    ∧ superusers w' = superusers w ∧ clock w' = clock w
    ∧ read w' = (read w + 10)%nat.
Proof.
  intros Hrun.
  eapply (collect_invariant
            (λ pre w1, ∃ table,
               db w1 = with_users (db w) table
               ∧ size table = (size (users (db w)) + length pre)%nat
               ∧ users (db w) ⊆ table
               ∧ Forall (λ r, table !! r.1 = Some r.2) pre
               ∧ superusers w1 = superusers w ∧ clock w1 = clock w
               ∧ read w1 = (read w + length pre)%nat)) with (pre := []) in Hrun
    as [HI Hlen]; [|clear Hrun|].
  - simpl in HI. destruct HI as (table & Hdb & Hsize & Hsub & Hin & Henv).
    exists table. change (length (range 10)) with 10%nat in Hlen.
    by rewrite Hlen in Hsize, Henv.
  - intros x pre w1 y w2 _ (table & Hdb & Hsize & Hsub & Hin & Hs & Hc & Hr) Hy.
    apply create_user_Returned in Hy as (Hfresh & Hdb' & Hs' & Hc' & Hr').
    rewrite Hdb in Hfresh, Hdb'. simpl in Hfresh, Hdb'. destruct y as [id row].
    exists (<[id := row]> table). rewrite length_app. simpl.
    split; [done|]. split; [rewrite map_size_insert_None by done; lia|].
    split; [by etrans; [exact Hsub|apply insert_subseteq]|].
    split; [by apply Forall_lookup_insert|]. rewrite Hs', Hc', Hr'.
    split; [done|]. split; [done|]. lia.
  - exists (users (db w)). rewrite with_users_same. simpl.
    by rewrite !Nat.add_0_r.
Qed.

Lemma generated_event_later db clock_ first last last' e :
  (last ≤ last')%nat →
  Generated.event db clock_ first last e → Generated.event db clock_ first last' e.
Proof.
  intros Hle (Ho & Hp & Hc & Hend & Hdate & Hprice & k & d & Hk & Hd & Hstart).
  repeat split; try done. exists k, d. split; [lia|done].
Qed.

Lemma new_event_Returned organizers_ i w r w' :
  new_event organizers_ i w = Returned r w' →
  events (db w) !! r.1 = None
  ∧ Generated.event (db w) (clock w) (read w) (S (read w)) r.2
  ∧ db w' = with_events (db w) (<[r.1 := r.2]> (events (db w)))
  ∧ superusers w' = superusers w ∧ clock w' = clock w ∧ read w' = S (read w).
Proof.
  unfold new_event.
  intros (t & w1 & (-> & Hdb1 & _ & Hs1 & Hc1 & Hr1)%datetime_now_Returned
          & Hrun)%bind_Returned.
  apply bind_Returned in Hrun
    as (d & w2 & (Hd & Hdb2 & _ & Hs2 & Hc2 & Hr2)%randint_Returned & Hrun);
    [|lia].
  apply bind_Returned in Hrun
    as (o & w3 & (Ho & Hdb3 & _ & Hs3 & Hc3 & Hr3)%choice_Returned & Hrun).
  apply bind_Returned in Hrun
    as (c & w4 & (Hcap & Hdb4 & _ & Hs4 & Hc4 & Hr4)%choice_Returned & Hrun).
  apply bind_Returned in Hrun
    as (price & w5 & (Hprice & Hdb5 & _ & Hs5 & Hc5 & Hr5)%randint_Returned & Hrun);
    [|lia].
  apply create_event_Returned in Hrun as (Hfresh & Horg & Hrow & Hdb' & Hs' & Hc' & Hr').
  assert (db w5 = db w) as Hdb by congruence.
  rewrite Hdb in Hfresh, Horg, Hdb'. simpl in Horg.
  split; [done|]. split.
  - rewrite Hrow. repeat split; simpl; try done.
    + by exists price.
    + exists (read w), d. split; [lia|]. split; [done|]. unfold days. done.
  - rewrite Hrow. split; [done|]. split; [congruence|]. split; congruence.
Qed.

Lemma events_created w organizers_ events_ w' :
  events (db w) = ∅ →
  collect (range 5) (new_event organizers_) w = Returned events_ w' →
  ∃ table,
    db w' = with_events (db w) table
    ∧ size table = 5%nat
    ∧ length events_ = 5%nat
    ∧ Forall (λ r, table !! r.1 = Some r.2) events_
    ∧ map_Forall (λ _, Generated.event (db w) (clock w) (read w) (read w + 5)) table
    ∧ superusers w' = superusers w ∧ clock w' = clock w.
Proof.
  intros Hempty Hrun.
  eapply (collect_invariant
            (λ pre w1, ∃ table,
               db w1 = with_events (db w) table
               ∧ size table = length pre
               ∧ Forall (λ r, table !! r.1 = Some r.2) pre
               ∧ map_Forall (λ _, Generated.event (db w) (clock w) (read w)
                                    (read w + length pre)) table
               ∧ superusers w1 = superusers w ∧ clock w1 = clock w
               ∧ read w1 = (read w + length pre)%nat)) with (pre := []) in Hrun
    as [HI Hlen]; [|clear Hrun|].
  - simpl in HI. destruct HI as (table & Hdb & Hsize & Hin & Hgen & Hs & Hc & Hr).
    change (length (range 5)) with 5%nat in Hlen. rewrite Hlen in Hsize, Hgen.
    by exists table.
  - intros x pre w1 [id row] w2 _ (table & Hdb & Hsize & Hin & Hgen & Hs & Hc & Hr) Hy.
    apply new_event_Returned in Hy as (Hfresh & Hrow & Hdb' & Hs' & Hc' & Hr').
    rewrite Hdb in Hfresh, Hrow, Hdb'. simpl in Hfresh, Hrow, Hdb'.
    exists (<[id := row]> table). rewrite length_app. simpl.
    split; [done|]. split; [rewrite map_size_insert_None by done; lia|].
    split; [by apply Forall_lookup_insert|]. split.
    + apply map_Forall_insert; [done|]. split.
      * rewrite Hc, Hr in Hrow.
        destruct Hrow as (Ho & Hp & Hcap & Hend & Hdate & Hprice & k & d & Hk & Hrest).
        repeat split; try done. exists k, d. split; [lia|done].
      * eapply map_Forall_impl; [exact Hgen|]. intros ? e.
        apply generated_event_later. lia.
    + rewrite Hs', Hc', Hr'. split; [done|]. split; [done|]. lia.
  - exists (events (db w)). rewrite with_events_same, Hempty. simpl.
    rewrite map_size_empty, Nat.add_0_r. by repeat split.
Qed.

Lemma new_ticket_type_Returned event j w r w' :
  new_ticket_type event j w = Returned r w' →
  ticket_types (db w) !! r.1 = None
  ∧ Generated.ticket_type (db w) r.2
  ∧ db w' = with_ticket_types (db w) (<[r.1 := r.2]> (ticket_types (db w)))
  ∧ superusers w' = superusers w ∧ clock w' = clock w.
Proof.
  unfold new_ticket_type.
  intros (price & w1 & (Hprice & Hdb1 & _ & Hs1 & Hc1 & _)%randint_Returned
          & Hrun)%bind_Returned; [|lia].
  apply bind_Returned in Hrun
    as (q & w2 & (Hq & Hdb2 & _ & Hs2 & Hc2 & _)%randint_Returned & Hrun); [|lia].
  apply create_ticket_type_Returned in Hrun
    as (Hfresh & Hev & Hrow & Hdb' & Hs' & Hc' & _).
  assert (db w2 = db w) as Hdb by congruence.
  rewrite Hdb in Hfresh, Hev, Hdb'. simpl in Hev.
  split; [done|]. rewrite Hrow. split.
  - repeat split; simpl; try done; [by exists price|lia..].
  - split; [done|]. split; congruence.
Qed.

Lemma length_pairs {A} (l : list A) :
  length (x ← l; j ← range 2; [(x, j)]) = (2 * length l)%nat.
Proof.
  induction l as [|x l IH]; [done|].
  change (length ([(x, 0%nat); (x, 1%nat)] ++ (x ← l; j ← range 2; [(x, j)]))
          = (2 * length (x :: l))%nat).
  rewrite length_app, IH. simpl. lia.
Qed.

Lemma ticket_types_created w events_ ticket_types_ w' :
  ticket_types (db w) = ∅ →
  length events_ = 5%nat →
  collect (event ← events_; j ← range 2; [(event, j)])
          (λ x, new_ticket_type x.1 x.2) w
  = Returned ticket_types_ w' →
  ∃ table,
    db w' = with_ticket_types (db w) table
    ∧ size table = 10%nat
    ∧ Forall (λ r, table !! r.1 = Some r.2) ticket_types_
    ∧ map_Forall (λ _, Generated.ticket_type (db w)) table
    ∧ superusers w' = superusers w ∧ clock w' = clock w.
Proof.
  intros Hempty Hevents Hrun.
  eapply (collect_invariant
            (λ pre w1, ∃ table,
               db w1 = with_ticket_types (db w) table
               ∧ size table = length pre
               ∧ Forall (λ r, table !! r.1 = Some r.2) pre
               ∧ map_Forall (λ _, Generated.ticket_type (db w)) table
               ∧ superusers w1 = superusers w ∧ clock w1 = clock w))
    with (pre := []) in Hrun as [HI Hlen]; [|clear Hrun|].
  - simpl in HI. destruct HI as (table & Hdb & Hsize & Hin & Hgen & Hs & Hc).
    rewrite length_pairs, Hevents in Hlen. rewrite Hlen in Hsize. by exists table.
  - intros x pre w1 [id row] w2 _ (table & Hdb & Hsize & Hin & Hgen & Hs & Hc) Hy.
    apply new_ticket_type_Returned in Hy as (Hfresh & Hrow & Hdb' & Hs' & Hc').
    rewrite Hdb in Hfresh, Hrow, Hdb'. simpl in Hfresh, Hrow, Hdb'.
    exists (<[id := row]> table). rewrite length_app. simpl.
    split; [done|]. split; [rewrite map_size_insert_None by done; lia|].
    split; [by apply Forall_lookup_insert|]. split.
    + by apply map_Forall_insert.
    + by rewrite Hs', Hc'.
  - exists (ticket_types (db w)). rewrite with_ticket_types_same, Hempty. simpl.
    rewrite map_size_empty. by repeat split.
Qed.

Lemma new_purchase_Returned order ticket_types_ w w' :
  Forall (λ r, ticket_types (db w) !! r.1 = Some r.2) ticket_types_ →
  new_purchase order ticket_types_ w = Returned () w' →
  ∃ pid p,
    ticket_purchases (db w) !! pid = None
    ∧ Generated.purchase (db w) p
    ∧ db w' = with_ticket_purchases (db w) (<[pid := p]> (ticket_purchases (db w)))
    ∧ superusers w' = superusers w ∧ clock w' = clock w.
Proof.
  intros Hin. unfold new_purchase.
  intros (tt & w1 & (Htt & Hdb1 & _ & Hs1 & Hc1 & _)%choice_Returned
          & Hrun)%bind_Returned.
  apply bind_Returned in Hrun
    as (q & w2 & (Hq & Hdb2 & _ & Hs2 & Hc2 & _)%randint_Returned & Hrun); [|lia].
  apply bind_Returned in Hrun as ([pid p] & w3 & Hcreate & Hrun).
  apply ret_Returned in Hrun as [_ ->].
  apply create_ticket_purchase_Returned in Hcreate
    as (Hfresh & Horder & _ & Hdb' & Hs' & Hc').
  assert (db w2 = db w) as Hdb by congruence.
  rewrite Hdb in Hfresh, Horder, Hdb'. simpl in *.
  eexists pid, _. split; [done|]. split; [|split; [done|split; congruence]].
  split; [done|]. simpl. split; [lia|]. exists tt.2. split; [|done].
  rewrite Forall_forall in Hin. by apply Hin.
Qed.

Lemma purchases_created order ticket_types_ n w w' :
  Forall (λ r, ticket_types (db w) !! r.1 = Some r.2) ticket_types_ →
  map_Forall (λ _, Generated.purchase (db w)) (ticket_purchases (db w)) →
  for_ (range n) (λ _, new_purchase order ticket_types_) w = Returned () w' →
  ∃ table,
    db w' = with_ticket_purchases (db w) table
    ∧ size table = (size (ticket_purchases (db w)) + n)%nat
    ∧ map_Forall (λ _, Generated.purchase (db w)) table
    ∧ superusers w' = superusers w ∧ clock w' = clock w.
Proof.
  intros Hin Hgen Hrun.
  eapply (for_invariant
            (λ k w1, ∃ table,
               db w1 = with_ticket_purchases (db w) table
               ∧ size table = (size (ticket_purchases (db w)) + k)%nat
               ∧ map_Forall (λ _, Generated.purchase (db w)) table
               ∧ superusers w1 = superusers w ∧ clock w1 = clock w))
    with (n := 0%nat) in Hrun; [|clear Hrun|].
  - simpl in Hrun. unfold range in Hrun. by rewrite length_seq in Hrun.
  - intros x k w1 w2 _ (table & Hdb & Hsize & Hgen' & Hs & Hc) Hy.
    apply new_purchase_Returned in Hy
      as (pid & p & Hfresh & Hp & Hdb' & Hs' & Hc'); [|by rewrite Hdb].
    rewrite Hdb in Hfresh, Hp, Hdb'. simpl in Hfresh, Hp, Hdb'.
    exists (<[pid := p]> table).
    split; [done|]. split; [rewrite map_size_insert_None by done; lia|].
    split; [by apply map_Forall_insert|]. by rewrite Hs', Hc'.
  - exists (ticket_purchases (db w)). rewrite Nat.add_0_r.
    split; [by destruct (db w)|]. by split.
Qed.

Lemma generated_purchase_insert_order db oid o p :
  Generated.purchase db p →
  Generated.purchase (with_orders db (<[oid := o]> (orders db))) p.
Proof.
  intros (Horder & Hq & Htt). split; [|done]. simpl.
  destruct (decide (TicketPurchase.order p = oid)) as [->|Hne].
  - rewrite lookup_insert_eq. by eexists.
  - by rewrite lookup_insert_ne.
Qed.

Lemma new_order_Returned users_ ticket_types_ w w' :
  Forall (λ r, ticket_types (db w) !! r.1 = Some r.2) ticket_types_ →
  map_Forall (λ _, Generated.purchase (db w)) (ticket_purchases (db w)) →
  new_order users_ ticket_types_ w = Returned () w' →
  ∃ oid o table n,
    orders (db w) !! oid = None
    ∧ Generated.order (db w) o
    ∧ db w' = with_ticket_purchases
                (with_orders (db w) (<[oid := o]> (orders (db w)))) table
    ∧ size table = (size (ticket_purchases (db w)) + n)%nat
    ∧ (1 ≤ n ≤ 3)%nat
    ∧ map_Forall
        (λ _, Generated.purchase (with_orders (db w) (<[oid := o]> (orders (db w)))))
        table
    ∧ superusers w' = superusers w ∧ clock w' = clock w.
Proof.
  intros Hin Hgen. unfold new_order.
  intros (customer & w1 & (_ & Hdb1 & _ & Hs1 & Hc1 & _)%choice_Returned
          & Hrun)%bind_Returned.
  apply bind_Returned in Hrun
    as (is_paid & w2 & (_ & Hdb2 & _ & Hs2 & Hc2 & _)%choice_Returned & Hrun).
  apply bind_Returned in Hrun
    as (amount & w3 & (Hamount & Hdb3 & _ & Hs3 & Hc3 & _)%randint_Returned & Hrun);
    [|lia].
  apply bind_Returned in Hrun as ([oid o] & w4 & Hcreate & Hrun).
  apply create_order_Returned in Hcreate
    as (Hfresh & Hcust & Hcust' & Hamount' & Hcode & Hdb4 & Hs4 & Hc4).
  apply bind_Returned in Hrun
    as (n & w5 & (Hn & Hdb5 & _ & Hs5 & Hc5 & _)%randint_Returned & Hrun); [|lia].
  assert (db w3 = db w) as Hdb by congruence.
  rewrite Hdb in Hfresh, Hcust, Hdb4. simpl in Hfresh, Hcust, Hdb4.
  assert (db w5 = with_orders (db w) (<[oid := o]> (orders (db w)))) as Hdb5'
    by congruence.
  apply purchases_created in Hrun as (table & Hdb' & Hsize & Hgen' & Hs' & Hc').
  - rewrite Hdb5' in Hdb', Hsize, Hgen'. simpl in Hdb', Hsize, Hgen'.
    exists oid, o, table, (Z.to_nat n).
    split; [done|]. split.
    { split; [|split; [|done]].
      - intros c Hc. apply Hcust. simpl in Hcust'. by rewrite <-Hcust'.
      - exists amount. simpl in Hamount'. by rewrite Hamount'. }
    split; [done|]. split; [done|]. split; [lia|]. split; [done|].
    split; congruence.
  - by rewrite Hdb5'.
  - rewrite Hdb5'. simpl. eapply map_Forall_impl; [exact Hgen|].
    intros ? p. apply generated_purchase_insert_order.
Qed.

Lemma orders_created w users_ ticket_types_ w' :
  orders (db w) = ∅ → ticket_purchases (db w) = ∅ →
  Forall (λ r, ticket_types (db w) !! r.1 = Some r.2) ticket_types_ →
  for_ (range 30) (λ _, new_order users_ ticket_types_) w = Returned () w' →
  ∃ orders_ purchases_,
    db w' = with_ticket_purchases (with_orders (db w) orders_) purchases_
    ∧ size orders_ = 30%nat
    ∧ (30 ≤ size purchases_ ≤ 90)%nat
    ∧ map_Forall (λ _, Generated.order (db w)) orders_
    ∧ map_Forall (λ _, Generated.purchase (with_orders (db w) orders_)) purchases_
    ∧ superusers w' = superusers w ∧ clock w' = clock w.
Proof.
  intros Horders Hpurchases Hin Hrun.
  eapply (for_invariant
            (λ k w1, ∃ orders_ purchases_,
               db w1 = with_ticket_purchases (with_orders (db w) orders_) purchases_
               ∧ size orders_ = k
               ∧ (k ≤ size purchases_ ≤ 3 * k)%nat
               ∧ map_Forall (λ _, Generated.order (db w)) orders_
               ∧ map_Forall (λ _, Generated.purchase (with_orders (db w) orders_))
                            purchases_
               ∧ superusers w1 = superusers w ∧ clock w1 = clock w))
    with (n := 0%nat) in Hrun; [|clear Hrun|].
  - simpl in Hrun.
    destruct Hrun as (orders_ & purchases_ & Hdb & Hsize & Hcount & Hrest).
    exists orders_, purchases_. split; [done|]. split; [done|]. split; [lia|done].
  - intros x k w1 w2 _
      (orders_ & purchases_ & Hdb & Hsize & Hcount & Ho & Hp & Hs & Hc) Hy.
    apply new_order_Returned in Hy
      as (oid & o & table & n & Hfresh & Hgen & Hdb' & Hsize' & Hn & Hgen' & Hs' & Hc');
      [|by rewrite Hdb..].
    rewrite Hdb in Hfresh, Hgen, Hdb', Hsize', Hgen'.
    simpl in Hfresh, Hgen, Hdb', Hsize', Hgen'.
    exists (<[oid := o]> orders_), table.
    split; [done|]. split; [by rewrite map_size_insert_None, Hsize|].
    split; [lia|]. split; [by apply map_Forall_insert|]. split; [done|].
    by rewrite Hs', Hc'.
  - exists ∅, ∅. split.
    { rewrite <-Horders, <-Hpurchases. by rewrite with_orders_purchases_same. }
    split; [done|]. split; [by rewrite map_size_empty|].
    split; [apply map_Forall_empty|]. split; [apply map_Forall_empty|done].
Qed.

Lemma populate_Returned w w' :
  organizers (db w) = ∅ → events (db w) = ∅ → ticket_types (db w) = ∅ →
  orders (db w) = ∅ → ticket_purchases (db w) = ∅ →
  populate w = Returned () w' →
  size (organizers (db w')) = 3%nat
  ∧ size (events (db w')) = 5%nat
  ∧ size (ticket_types (db w')) = 10%nat
  ∧ size (orders (db w')) = 30%nat
  ∧ (30 ≤ size (ticket_purchases (db w')) ≤ 90)%nat
  ∧ size (users (db w')) = (size (users (db w)) + 10)%nat
  ∧ users (db w) ⊆ users (db w')
  ∧ map_Forall (λ _, Generated.event (db w') (clock w) (read w + 10) (read w + 15))
               (events (db w'))
  ∧ map_Forall (λ _, Generated.ticket_type (db w')) (ticket_types (db w'))
  ∧ map_Forall (λ _, Generated.order (db w')) (orders (db w'))
  ∧ map_Forall (λ _, Generated.purchase (db w')) (ticket_purchases (db w'))
  ∧ superusers w' = superusers w.
Proof.
  intros Horganizers Hevents Htypes Horders Hpurchases. unfold populate.
  intros (organizers_ & w1 & Hrun1 & Hrun)%bind_Returned.
  apply bind_Returned in Hrun as (users_ & w2 & Hrun2 & Hrun).
  apply bind_Returned in Hrun as (events_ & w3 & Hrun3 & Hrun).
  apply bind_Returned in Hrun as (ticket_types_ & w4 & Hrun4 & Hrun5).
  apply organizers_created in Hrun1
    as (To & Hdb1 & HTo & _ & Hs1 & Hc1 & Hr1).
  apply users_created in Hrun2
    as (Tu & Hdb2 & HTu & Hsub & _ & Hs2 & Hc2 & Hr2).
  apply events_created in Hrun3
    as (Te & Hdb3 & HTe & Hlen & _ & Hgen3 & Hs3 & Hc3);
    [|by rewrite Hdb2, Hdb1].
  apply ticket_types_created in Hrun4
    as (Tt & Hdb4 & HTt & Hin4 & Hgen4 & Hs4 & Hc4);
    [|by rewrite Hdb3, Hdb2, Hdb1|done].
  apply orders_created in Hrun5
    as (O & P & Hdb5 & HO & HP & Hgen5 & Hgen6 & Hs5 & Hc5);
    [|by rewrite Hdb4, Hdb3, Hdb2, Hdb1..|by rewrite Hdb4].
  rewrite Hc2, Hr2, Hc1, Hr1, <-Nat.add_assoc in Hgen3.
  rewrite Hdb4, Hdb3, Hdb2, Hdb1 in Hdb5.
  rewrite Hdb2, Hdb1 in Hgen3. rewrite Hdb3, Hdb2, Hdb1 in Hgen4.
  rewrite Hdb4, Hdb3, Hdb2, Hdb1 in Hgen5, Hgen6.
  rewrite Hdb1 in HTu, Hsub. simpl in HTu, Hsub.
  rewrite Horganizers, map_size_empty in HTo.
  rewrite Hdb5. simpl.
  split; [done|]. split; [done|]. split; [done|]. split; [done|].
  split; [done|]. split; [done|]. split; [done|].
  split; [exact Hgen3|]. split; [exact Hgen4|]. split; [exact Hgen5|].
  split; [exact Hgen6|]. congruence.
Qed.

Lemma delete_Returned statement w w' :
  delete statement w = Returned () w' →
  ∃ db', statement (db w) = inr db' ∧ w' = set_db w db'.
Proof.
  unfold delete. destruct (statement (db w)) as [e|db']; [done|].
  intros [= <-]. by exists db'.
Qed.

Lemma users_difference_not_superuser (superusers_ : gset Z) (users_ : gmap Z User.t) :
  users_ ∖ filter (λ r, r.1 ∉ superusers_) users_
  = filter (λ r, r.1 ∈ superusers_) users_.
Proof.
  apply map_eq. intros id. apply option_eq. intros u.
  rewrite lookup_difference_Some, map_lookup_filter_Some, map_lookup_filter_None.
  simpl. split.
  - intros [Hu [Hnone|Hin]]; [congruence|]. split; [done|].
    destruct (decide (id ∈ superusers_)) as [|Hout]; [done|].
    by destruct (Hin u Hu).
  - intros [Hu Hin]. split; [done|]. right. by intros ? _ ?.
Qed.

(** The six deletions, when none of them raises, leave the five tables
    of the application empty and, of the users, the superusers. *)
Lemma wipe_Returned w w' :
  wipe w = Returned () w' →
  organizers (db w') = ∅ ∧ events (db w') = ∅ ∧ ticket_types (db w') = ∅
  ∧ orders (db w') = ∅ ∧ ticket_purchases (db w') = ∅
  ∧ users (db w') = Generated.kept_users w
  ∧ superusers w' = superusers w ∧ clock w' = clock w ∧ read w' = read w.
Proof.
  unfold wipe.
  intros ([] & w1 & (db1 & H1 & ->)%delete_Returned & Hrun)%bind_Returned.
  apply bind_Returned in Hrun as ([] & w2 & (db2 & H2 & ->)%delete_Returned & Hrun).
  apply bind_Returned in Hrun as ([] & w3 & (db3 & H3 & ->)%delete_Returned & Hrun).
  apply bind_Returned in Hrun as ([] & w4 & (db4 & H4 & ->)%delete_Returned & Hrun).
  apply bind_Returned in Hrun as ([] & w5 & (db5 & H5 & ->)%delete_Returned & Hrun).
  apply delete_Returned in Hrun as (db6 & H6 & ->).
  simpl in *.
  unfold Delete.organizers_all in H1.
  destruct (Delete.unprotected (db w) _); [|done]. injection H1 as <-.
  unfold Delete.events_all in H2.
  destruct (Delete.unprotected _ _); [|done]. injection H2 as <-.
  unfold Delete.ticket_types_all in H3.
  destruct (Delete.unprotected _ _); [|done]. injection H3 as <-.
  injection H4 as <-. injection H5 as <-. injection H6 as <-.
  simpl. rewrite fmap_empty, users_difference_not_superuser.
  by repeat split.
Qed.

End populate.

(** * generate_sample_data: what a run leaves behind *)

Section generated.
Import Command.

(** X13 (generate_sample_data.py, [Command.handle]): a run of the command
    that returns leaves exactly 3 organizers, 5 events, 10 ticket types
    and 30 orders, between 30 and 90 purchases, and ten users beside the
    superusers it found, which it keeps.  Every event is published, has
    a stored organizer, a capacity of NULL, 100 or 200, a base price of
    10 to 100, starts 1 to 30 days after one of the clock readings 11
    to 15 of the run (each of the ten users takes one of the first ten
    for [date_joined]) and ends two hours later; every ticket type belongs to a stored
    event, is active, costs 10 to 100 and offers 10 to 200 tickets; every
    order has no customer or a stored one, an amount of 20 to 500 and no
    discount code; every purchase belongs to a stored order, has a
    quantity of 1 to 5 and the price of its stored ticket type. *)
Theorem handle_generates w w' :
  handle w = Returned () w' → Generated.t w (db w').
Proof.
  unfold handle.
  intros ([] & w1 & Hwipe & Hpopulate)%bind_Returned.
  apply wipe_Returned in Hwipe
    as (Ho & He & Ht & Hor & Hp & Hu & Hs & Hc & Hr).
  apply populate_Returned in Hpopulate
    as (? & ? & ? & ? & ? & Husers & Hkept & Hevents & ? & ? & ? & _); [|done..].
  rewrite Hu in Husers, Hkept. rewrite Hc, Hr in Hevents.
  by constructor.
Qed.

End generated.

(** * generate_sample_data: when the command returns *)

Section returns.
Import Command Returns.

Lemma returns_bind {A B} (c : Run A) (f : A → Run B) w Q :
  returns c w (λ a w1, returns (f a) w1 Q) → returns (c ≫= f) w Q.
Proof.
  intros (a & w1 & Hc & b & w2 & Hf & HQ). exists b, w2. split; [|done].
  apply bind_Returned. by exists a, w1.
Qed.

Lemma returns_ret {A} (a : A) w (Q : A → World → Prop) :
  Q a w → returns (mret a) w Q.
Proof. intros HQ. by exists a, w. Qed.

Lemma returns_Returned {A} (c : Run A) w (Q Q' : A → World → Prop) :
  returns c w Q →
  (∀ a w', c w = Returned a w' → Q a w' → Q' a w') →
  returns c w Q'.
Proof. intros (a & w' & Hc & HQ) Himpl. exists a, w'. split; [done|]. by apply Himpl. Qed.

Lemma returns_collect {A B} (I : nat → World → Prop) (body : A → Run B) xs n w :
  (∀ i x w1, xs !! i = Some x → I (n + i)%nat w1 →
             returns (body x) w1 (λ _ w2, I (S (n + i)) w2)) →
  I n w → returns (collect xs body) w (λ _ w', I (n + length xs)%nat w').
Proof.
  revert n w. induction xs as [|x xs IH]; intros n w Hbody HI.
  - apply returns_ret. by rewrite Nat.add_0_r.
  - simpl. apply returns_bind.
    eapply returns_Returned; [apply (Hbody 0%nat x w); [done|by rewrite Nat.add_0_r]|].
    intros y w1 _ HI1. rewrite Nat.add_0_r in HI1.
    apply returns_bind.
    eapply returns_Returned; [apply (IH (S n) w1); [|done]|].
    + intros i x' w2 Hx' HI2. rewrite Nat.add_succ_comm in HI2 |- *.
      by apply (Hbody (S i)).
    + intros ys w2 _ HI2. apply returns_ret. simpl.
      by rewrite <-Nat.add_succ_comm.
Qed.

Lemma returns_for {A} (I : nat → World → Prop) (body : A → Run ()) xs n w :
  (∀ i x w1, xs !! i = Some x → I (n + i)%nat w1 →
             returns (body x) w1 (λ _ w2, I (S (n + i)) w2)) →
  I n w → returns (for_ xs body) w (λ _ w', I (n + length xs)%nat w').
Proof.
  revert n w. induction xs as [|x xs IH]; intros n w Hbody HI.
  - apply returns_ret. by rewrite Nat.add_0_r.
  - simpl. apply returns_bind.
    eapply returns_Returned; [apply (Hbody 0%nat x w); [done|by rewrite Nat.add_0_r]|].
    intros y w1 _ HI1. rewrite Nat.add_0_r in HI1.
    eapply returns_Returned; [apply (IH (S n) w1); [|done]|].
    + intros i x' w2 Hx' HI2. rewrite Nat.add_succ_comm in HI2 |- *.
      by apply (Hbody (S i)).
    + intros ys w2 _ HI2. simpl. by rewrite <-Nat.add_succ_comm.
Qed.

Lemma Fresh_same w w' :
  db w' = db w → sequences w' = sequences w → Fresh w → Fresh w'.
Proof. intros Hdb Hseq [? ? ? ? ? ?]. constructor; by rewrite Hdb, Hseq. Qed.

Lemma randint_returns a b w :
  returns (randint a b) w (λ _ w', db w' = db w ∧ sequences w' = sequences w).
Proof. by eexists _, _. Qed.

Lemma datetime_now_returns w :
  returns datetime_now w (λ _ w', db w' = db w ∧ sequences w' = sequences w).
Proof. by eexists _, _. Qed.

Lemma choice_returns {A} (seq : list A) w :
  seq ≠ [] →
  returns (choice seq) w (λ x w', x ∈ seq ∧ db w' = db w ∧ sequences w' = sequences w).
Proof.
  intros Hseq. unfold choice. apply returns_bind. eexists _, _. split; [done|].
  destruct (seq !! _) as [x|] eqn:Hx.
  - apply returns_ret. split; [|done]. by eapply list_elem_of_lookup_2.
  - apply lookup_ge_None in Hx. destruct seq as [|y seq]; [done|].
    pose proof (Nat.mod_upper_bound (random w (drawn w)) (length (y :: seq))) as Hlt.
    simpl in *. lia.
Qed.

Lemma fresh_None {A} (table : gmap Z A) next : fresh table next → table !! next = None.
Proof.
  intros Hfresh. destruct (table !! next) eqn:Hnext; [|done].
  assert (next < next); [|lia]. apply Hfresh. by eexists.
Qed.

Lemma fresh_insert {A} (table : gmap Z A) next row :
  fresh table next → fresh (<[next := row]> table) (next + 1).
Proof.
  intros Hfresh id. destruct (decide (id = next)) as [->|Hne]; [lia|].
  rewrite lookup_insert_ne by done. intros Hid%Hfresh. lia.
Qed.

Lemma create_organizer_returns name w :
  Fresh w →
  map_Forall (λ _ o, Organizer.name o ≠ name) (organizers (db w)) →
  returns (create_organizer name) w
    (λ r w', Fresh w' ∧ Organizer.name r.2 = name
             ∧ db w' = with_organizers (db w) (<[r.1 := r.2]> (organizers (db w)))).
Proof.
  intros [? ? ? ? ? ?] Hname. unfold returns, create_organizer. cbv beta zeta.
  rewrite bool_decide_true by (split; [by apply fresh_None|done]).
  eexists _, _. split; [done|]. split; [|done].
  constructor; simpl; try done. by apply fresh_insert.
Qed.

Lemma create_user_returns username w :
  Fresh w →
  map_Forall (λ _ u, User.username u ≠ username) (users (db w)) →
  returns (create_user username) w
    (λ r w', Fresh w' ∧ User.username r.2 = username
             ∧ db w' = with_users (db w) (<[r.1 := r.2]> (users (db w)))).
Proof.
  intros [? ? ? ? ? ?] Hname. unfold create_user. apply returns_bind.
  eexists _, _. split; [done|]. unfold returns, insert_user. cbv beta zeta. simpl.
  rewrite bool_decide_true by (split; [by apply fresh_None|done]).
  eexists _, _. split; [done|]. split; [|done].
  constructor; simpl; try done. by apply fresh_insert.
Qed.

Lemma create_event_returns row w :
  Fresh w → is_Some (organizers (db w) !! Event.organizer row) →
  returns (create_event row) w
    (λ r w', Fresh w' ∧ db w' = with_events (db w) (<[r.1 := r.2]> (events (db w)))).
Proof.
  intros [? ? ? ? ? ?] Hfk. unfold returns, create_event. cbv beta zeta.
  rewrite bool_decide_true by (split; [by apply fresh_None|done]).
  eexists _, _. split; [done|]. split; [|done].
  constructor; simpl; try done. by apply fresh_insert.
Qed.

Lemma create_ticket_type_returns row w :
  Fresh w → is_Some (events (db w) !! TicketType.event row) →
  returns (create_ticket_type row) w
    (λ r w', Fresh w'
             ∧ db w' = with_ticket_types (db w) (<[r.1 := r.2]> (ticket_types (db w)))).
Proof.
  intros [? ? ? ? ? ?] Hfk. unfold returns, create_ticket_type. cbv beta zeta.
  rewrite bool_decide_true by (split; [by apply fresh_None|done]).
  eexists _, _. split; [done|]. split; [|done].
  constructor; simpl; try done. by apply fresh_insert.
Qed.

Lemma create_order_returns customer is_paid total_amount w :
  Fresh w → (∀ c, customer = Some c → is_Some (users (db w) !! c)) →
  returns (create_order customer is_paid total_amount) w
    (λ r w', Fresh w' ∧ db w' = with_orders (db w) (<[r.1 := r.2]> (orders (db w)))).
Proof.
  intros [? ? ? ? ? ?] Hfk. unfold create_order. apply returns_bind.
  eexists _, _. split; [done|]. unfold returns, insert_order. cbv beta zeta. simpl.
  rewrite bool_decide_true by by apply fresh_None.
  assert (match customer with
          | Some c => bool_decide (is_Some (users (db w) !! c))
          | None => true
          end = true) as ->.
  { destruct customer as [c|]; [|done]. apply bool_decide_eq_true. by apply Hfk. }
  eexists _, _. split; [done|]. split; [|done].
  constructor; simpl; try done. by apply fresh_insert.
Qed.

Lemma create_ticket_purchase_returns row w :
  Fresh w →
  is_Some (orders (db w) !! TicketPurchase.order row) →
  is_Some (ticket_types (db w) !! TicketPurchase.ticket_type row) →
  returns (create_ticket_purchase row) w
    (λ r w', Fresh w'
             ∧ db w' = with_ticket_purchases (db w)
                         (<[r.1 := r.2]> (ticket_purchases (db w)))).
Proof.
  intros [? ? ? ? ? ?] Hfk1 Hfk2. unfold returns, create_ticket_purchase. cbv beta zeta.
  rewrite bool_decide_true by (split; [by apply fresh_None|done]).
  eexists _, _. split; [done|]. split; [|done].
  constructor; simpl; try done. by apply fresh_insert.
Qed.


Lemma returns_impl {A} (c : Run A) w (Q Q' : A → World → Prop) :
  returns c w Q → (∀ a w', Q a w' → Q' a w') → returns c w Q'.
Proof. intros Hc Himpl. eapply returns_Returned; [exact Hc|]. intros a w' _. apply Himpl. Qed.

Lemma lookup_range n i x : range n !! i = Some x → x = i.
Proof. unfold range. by intros [-> _]%lookup_seq. Qed.

Lemma organizers_returns w :
  Fresh w → organizers (db w) = ∅ →
  returns (collect (range 3) (λ i, create_organizer ("Organizer " +:+ pretty i))) w
    (λ _ w', Fresh w').
Proof.
  intros Hfresh Hempty.
  eapply returns_impl;
    [apply (returns_collect
              (λ i w1, Fresh w1
                       ∧ map_Forall (λ _ o, ∀ j, (i ≤ j)%nat →
                                       Organizer.name o ≠ "Organizer " +:+ pretty j)
                                    (organizers (db w1)))) with (n := 0%nat)|].
  - intros i x w1 ->%lookup_range [Hfresh1 Hnames]. simpl.
    eapply returns_impl; [apply create_organizer_returns; [done|]|].
    + intros id o Ho. by apply (Hnames id o Ho).
    + intros [id o] w2 (Hfresh2 & Hname & Hdb). split; [done|].
      rewrite Hdb. simpl in *. apply map_Forall_insert_2.
      * intros j Hj. rewrite Hname. intros Heq%(inj _)%(inj _). lia.
      * eapply map_Forall_impl; [exact Hnames|]. intros ? o' Ho' j Hj.
        apply Ho'. lia.
  - split; [done|]. rewrite Hempty. apply map_Forall_empty.
  - by intros ? w' [? _].
Qed.

Lemma users_returns w :
  Fresh w →
  map_Forall (λ _ u, ∀ i, (i < 10)%nat → User.username u ≠ "user" +:+ pretty i)
             (users (db w)) →
  returns (collect (range 10) (λ i, create_user ("user" +:+ pretty i))) w
    (λ _ w', Fresh w').
Proof.
  intros Hfresh Husers.
  eapply returns_impl;
    [apply (returns_collect
              (λ i w1, Fresh w1
                       ∧ map_Forall (λ _ u, ∀ j, (i ≤ j < 10)%nat →
                                       User.username u ≠ "user" +:+ pretty j)
                                    (users (db w1)))) with (n := 0%nat)|].
  - intros i x w1 Hx [Hfresh1 Hnames]. simpl.
    pose proof (lookup_lt_Some _ _ _ Hx) as Hi.
    change (length (range 10)) with 10%nat in Hi. apply lookup_range in Hx as ->.
    eapply returns_impl; [apply create_user_returns; [done|]|].
    + intros id u Hu. apply (Hnames id u Hu). lia.
    + intros [id u] w2 (Hfresh2 & Hname & Hdb). split; [done|].
      rewrite Hdb. simpl in *. apply map_Forall_insert_2.
      * intros j Hj. rewrite Hname. intros Heq%(inj _)%(inj _). lia.
      * eapply map_Forall_impl; [exact Hnames|]. intros ? u' Hu' j Hj.
        apply Hu'. lia.
  - split; [done|]. eapply map_Forall_impl; [exact Husers|].
    intros ? u Hu j Hj. apply Hu. lia.
  - by intros ? w' [? _].
Qed.

Lemma new_event_returns organizers_ i w :
  Fresh w → organizers_ ≠ [] →
  Forall (λ r, organizers (db w) !! r.1 = Some r.2) organizers_ →
  returns (new_event organizers_ i) w
    (λ _ w', Fresh w' ∧ organizers (db w') = organizers (db w)).
Proof.
  intros Hfresh Hne Hin. unfold new_event.
  apply returns_bind. eapply returns_impl; [apply datetime_now_returns|].
  intros t w1 [Hdb1 Hseq1].
  apply returns_bind. eapply returns_impl; [apply randint_returns|].
  intros d w2 [Hdb2 Hseq2].
  apply returns_bind. eapply returns_impl; [by apply choice_returns|].
  intros o w3 (Ho & Hdb3 & Hseq3).
  apply returns_bind. eapply returns_impl; [by apply choice_returns|].
  intros c w4 (_ & Hdb4 & Hseq4).
  apply returns_bind. eapply returns_impl; [apply randint_returns|].
  intros price w5 [Hdb5 Hseq5].
  assert (db w5 = db w) as Hdb by congruence.
  assert (sequences w5 = sequences w) as Hseq by congruence.
  eapply returns_impl; [apply create_event_returns|].
  - by apply (Fresh_same w).
  - simpl. rewrite Hdb. rewrite Forall_forall in Hin. rewrite (Hin o Ho). by eexists.
  - intros r w6 [Hfresh6 Hdb6]. split; [done|]. by rewrite Hdb6, Hdb.
Qed.

Lemma events_returns organizers_ w :
  Fresh w → organizers_ ≠ [] →
  Forall (λ r, organizers (db w) !! r.1 = Some r.2) organizers_ →
  returns (collect (range 5) (new_event organizers_)) w (λ _ w', Fresh w').
Proof.
  intros Hfresh Hne Hin.
  eapply returns_impl;
    [apply (returns_collect
              (λ _ w1, Fresh w1 ∧ organizers (db w1) = organizers (db w)))
       with (n := 0%nat)|].
  - intros i x w1 _ [Hfresh1 Hsame].
    eapply returns_impl; [apply new_event_returns; [done..|by rewrite Hsame]|].
    intros _ w2 [Hfresh2 Hsame2]. split; [done|]. congruence.
  - done.
  - by intros ? w' [? _].
Qed.

Lemma new_ticket_type_returns event j w :
  Fresh w → is_Some (events (db w) !! event.1) →
  returns (new_ticket_type event j) w
    (λ _ w', Fresh w' ∧ events (db w') = events (db w)).
Proof.
  intros Hfresh Hev. unfold new_ticket_type.
  apply returns_bind. eapply returns_impl; [apply randint_returns|].
  intros price w1 [Hdb1 Hseq1].
  apply returns_bind. eapply returns_impl; [apply randint_returns|].
  intros q w2 [Hdb2 Hseq2].
  assert (db w2 = db w) as Hdb by congruence.
  assert (sequences w2 = sequences w) as Hseq by congruence.
  eapply returns_impl; [apply create_ticket_type_returns|].
  - by apply (Fresh_same w).
  - simpl. by rewrite Hdb.
  - intros r w3 [Hfresh3 Hdb3]. split; [done|]. by rewrite Hdb3, Hdb.
Qed.

Lemma elem_of_pairs {A} (l : list A) x :
  x ∈ (y ← l; j ← range 2; [(y, j)]) → x.1 ∈ l.
Proof.
  intros (y & Hx & Hy)%list_elem_of_bind.
  apply list_elem_of_bind in Hx as (j & ->%list_elem_of_singleton & _). done.
Qed.

Lemma ticket_types_returns events_ w :
  Fresh w →
  Forall (λ r, events (db w) !! r.1 = Some r.2) events_ →
  returns (collect (event ← events_; j ← range 2; [(event, j)])
                   (λ x, new_ticket_type x.1 x.2)) w (λ _ w', Fresh w').
Proof.
  intros Hfresh Hin.
  eapply returns_impl;
    [apply (returns_collect
              (λ _ w1, Fresh w1 ∧ events (db w1) = events (db w)))
       with (n := 0%nat)|].
  - intros i x w1 Hx%list_elem_of_lookup_2%elem_of_pairs [Hfresh1 Hsame].
    eapply returns_impl; [apply new_ticket_type_returns; [done|]|].
    + rewrite Hsame. rewrite Forall_forall in Hin. rewrite (Hin _ Hx). by eexists.
    + intros _ w2 [Hfresh2 Hsame2]. split; [done|]. congruence.
  - done.
  - by intros ? w' [? _].
Qed.

Lemma new_purchase_returns order ticket_types_ w :
  Fresh w → ticket_types_ ≠ [] →
  is_Some (orders (db w) !! order.1) →
  Forall (λ r, ticket_types (db w) !! r.1 = Some r.2) ticket_types_ →
  returns (new_purchase order ticket_types_) w
    (λ _ w', Fresh w' ∧ orders (db w') = orders (db w)
             ∧ ticket_types (db w') = ticket_types (db w)
             ∧ users (db w') = users (db w)).
Proof.
  intros Hfresh Hne Horder Hin. unfold new_purchase.
  apply returns_bind. eapply returns_impl; [by apply choice_returns|].
  intros tt w1 (Htt & Hdb1 & Hseq1).
  apply returns_bind. eapply returns_impl; [apply randint_returns|].
  intros q w2 [Hdb2 Hseq2].
  assert (db w2 = db w) as Hdb by congruence.
  assert (sequences w2 = sequences w) as Hseq by congruence.
  apply returns_bind. eapply returns_impl; [apply create_ticket_purchase_returns|].
  - by apply (Fresh_same w).
  - simpl. by rewrite Hdb.
  - simpl. rewrite Hdb. rewrite Forall_forall in Hin. rewrite (Hin tt Htt). by eexists.
  - intros r w3 [Hfresh3 Hdb3]. apply returns_ret. split; [done|].
    by rewrite Hdb3, Hdb.
Qed.

Lemma new_order_returns users_ ticket_types_ w :
  Fresh w → ticket_types_ ≠ [] →
  Forall (λ r, users (db w) !! r.1 = Some r.2) users_ →
  Forall (λ r, ticket_types (db w) !! r.1 = Some r.2) ticket_types_ →
  returns (new_order users_ ticket_types_) w
    (λ _ w', Fresh w' ∧ ticket_types (db w') = ticket_types (db w)
             ∧ users (db w') = users (db w)).
Proof.
  intros Hfresh Hne Husers Hin. unfold new_order.
  apply returns_bind. eapply returns_impl; [by apply choice_returns|].
  intros customer w1 (Hcustomer & Hdb1 & Hseq1).
  apply returns_bind. eapply returns_impl; [by apply choice_returns|].
  intros is_paid w2 (_ & Hdb2 & Hseq2).
  apply returns_bind. eapply returns_impl; [apply randint_returns|].
  intros amount w3 [Hdb3 Hseq3].
  assert (db w3 = db w) as Hdb by congruence.
  assert (sequences w3 = sequences w) as Hseq by congruence.
  apply returns_bind. eapply returns_impl; [apply create_order_returns|].
  - by apply (Fresh_same w).
  - intros c Hc. rewrite Hdb.
    apply elem_of_cons in Hcustomer as [->|Hcustomer]; [done|].
    apply list_elem_of_fmap in Hcustomer as (u & -> & Hu). simpl in Hc.
    injection Hc as <-. rewrite Forall_forall in Husers. rewrite (Husers u Hu).
    by eexists.
  - intros order w4 [Hfresh4 Hdb4].
    apply returns_bind. eapply returns_impl; [apply randint_returns|].
    intros n w5 [Hdb5 Hseq5].
    eapply returns_impl;
      [apply (returns_for
                (λ _ w6, Fresh w6 ∧ orders (db w6) = orders (db w5)
                         ∧ ticket_types (db w6) = ticket_types (db w5)
                         ∧ users (db w6) = users (db w5)))
         with (n := 0%nat)|].
    + intros i x w6 _ (Hfresh6 & Ho6 & Ht6 & Hu6).
      eapply returns_impl; [apply new_purchase_returns; [done..| |]|].
      * rewrite Ho6, Hdb5, Hdb4. simpl. rewrite lookup_insert_eq. by eexists.
      * by rewrite Ht6, Hdb5, Hdb4, Hdb.
      * intros _ w7 (Hfresh7 & Ho7 & Ht7 & Hu7). split; [done|].
        split; [congruence|]. split; congruence.
    + split; [by apply (Fresh_same w4)|done].
    + intros _ w6 (Hfresh6 & _ & Ht6 & Hu6). split; [done|].
      rewrite Ht6, Hu6, Hdb5, Hdb4, Hdb. done.
Qed.

Lemma orders_returns users_ ticket_types_ w :
  Fresh w → ticket_types_ ≠ [] →
  Forall (λ r, users (db w) !! r.1 = Some r.2) users_ →
  Forall (λ r, ticket_types (db w) !! r.1 = Some r.2) ticket_types_ →
  returns (for_ (range 30) (λ _, new_order users_ ticket_types_)) w (λ _ w', Fresh w').
Proof.
  intros Hfresh Hne Husers Hin.
  eapply returns_impl;
    [apply (returns_for
              (λ _ w1, Fresh w1 ∧ ticket_types (db w1) = ticket_types (db w)
                       ∧ users (db w1) = users (db w)))
       with (n := 0%nat)|].
  - intros i x w1 _ (Hfresh1 & Ht1 & Hu1).
    eapply returns_impl; [apply new_order_returns; [done..| |]|].
    + by rewrite Hu1.
    + by rewrite Ht1.
    + intros _ w2 (Hfresh2 & Ht2 & Hu2). split; [done|]. split; congruence.
  - done.
  - by intros ? w' [? _].
Qed.


Lemma collect_length {A B} (xs : list A) (body : A → Run B) w ys w' :
  collect xs body w = Returned ys w' → length ys = length xs.
Proof.
  intros Hrun.
  by eapply (collect_invariant (λ _ _, True)) with (pre := []) in Hrun as [_ Hlen].
Qed.

Lemma length_nonempty {A} (l : list A) n : length l = S n → l ≠ [].
Proof. by destruct l. Qed.

Lemma populate_returns w :
  Fresh w →
  organizers (db w) = ∅ → events (db w) = ∅ → ticket_types (db w) = ∅ →
  map_Forall (λ _ u, ∀ i, (i < 10)%nat → User.username u ≠ "user" +:+ pretty i)
             (users (db w)) →
  returns populate w (λ _ _, True).
Proof.
  intros Hfresh Horganizers Hevents Htypes Husers. unfold populate.
  apply returns_bind.
  eapply returns_Returned; [by apply organizers_returns|].
  intros organizers_ w1 Hrun1 Hfresh1.
  pose proof (collect_length _ _ _ _ _ Hrun1) as Hlen1.
  apply organizers_created in Hrun1 as (To & Hdb1 & _ & Hin1 & _).
  apply returns_bind.
  eapply returns_Returned; [apply users_returns; [done|by rewrite Hdb1]|].
  intros users_ w2 Hrun2 Hfresh2.
  apply users_created in Hrun2 as (Tu & Hdb2 & _ & _ & Hin2 & _).
  apply returns_bind.
  eapply returns_Returned;
    [apply (events_returns organizers_);
     [done|exact (length_nonempty _ 2 Hlen1)|by rewrite Hdb2, Hdb1]|].
  intros events_ w3 Hrun3 Hfresh3.
  apply events_created in Hrun3 as (Te & Hdb3 & _ & Hlen3 & Hin3 & _);
    [|by rewrite Hdb2, Hdb1].
  apply returns_bind.
  eapply returns_Returned;
    [apply (ticket_types_returns events_); [done|by rewrite Hdb3]|].
  intros ticket_types_ w4 Hrun4 Hfresh4.
  pose proof (collect_length _ _ _ _ _ Hrun4) as Hlen4.
  rewrite length_pairs, Hlen3 in Hlen4.
  apply ticket_types_created in Hrun4 as (Tt & Hdb4 & _ & Hin4 & _);
    [|by rewrite Hdb3, Hdb2, Hdb1|done].
  eapply returns_impl;
    [apply (orders_returns users_ ticket_types_);
     [done|exact (length_nonempty _ 9 Hlen4)|by rewrite Hdb4, Hdb3, Hdb2|by rewrite Hdb4]|].
  done.
Qed.

Lemma unprotected_intro db deleted :
  map_Forall (λ _ p, deleted !! TicketPurchase.ticket_type p = None)
             (ticket_purchases db) →
  Delete.unprotected db deleted = true.
Proof.
  intros Hnone. destruct (Delete.unprotected db deleted) eqn:Hun; [done|].
  unfold Delete.unprotected in Hun. apply bool_decide_eq_false in Hun.
  destruct Hun. apply map_size_empty_iff, map_empty. intros pid.
  apply map_lookup_filter_None. right. intros p Hp [tt Htt]. simpl in Htt.
  by rewrite (Hnone pid p Hp) in Htt.
Qed.

Lemma wipe_returns w :
  map_Forall (λ _ p, ticket_types (db w) !! TicketPurchase.ticket_type p = None)
             (ticket_purchases (db w)) →
  returns wipe w (λ _ w', sequences w' = sequences w).
Proof.
  intros Hnone. unfold wipe, returns, mbind, run_bind.
  unfold delete at 1, Delete.organizers_all.
  rewrite unprotected_intro.
  2:{ eapply map_Forall_impl; [exact Hnone|]. intros ? p Hp.
      apply map_lookup_filter_None. by left. }
  unfold delete at 1, Delete.events_all. simpl.
  rewrite unprotected_intro.
  2:{ eapply map_Forall_impl; [exact Hnone|]. intros ? p Hp. simpl.
      apply map_lookup_filter_None. left. apply lookup_difference_None. by left. }
  unfold delete at 1, Delete.ticket_types_all. simpl.
  rewrite unprotected_intro.
  2:{ eapply map_Forall_impl; [exact Hnone|]. intros ? p Hp. simpl.
      apply lookup_difference_None. left. apply lookup_difference_None. by left. }
  by eexists _, _.
Qed.

Lemma username_not_generated (name : string) :
  name ∉ usernames → ∀ i, (i < 10)%nat → name ≠ "user" +:+ pretty i.
Proof.
  intros Hout i Hi ->. apply Hout. unfold usernames.
  apply list_elem_of_fmap. exists i. split; [done|].
  unfold range. apply elem_of_seq. lia.
Qed.

(** X14 (generate_sample_data.py, [Command.handle]; models.py, the
    [on_delete] rules): when every superuser has an id below the next
    value of the users' id sequence and a username other than user0 to
    user9, the command returns exactly when no purchase refers to a
    stored ticket type; otherwise it raises. *)
Theorem handle_returns w :
  map_Forall (λ id u, id ∈ superusers w →
                id < user_id (sequences w) ∧ User.username u ∉ usernames)
             (users (db w)) →
  (∃ w', handle w = Returned () w')
  ↔ map_Forall (λ _ p, ticket_types (db w) !! TicketPurchase.ticket_type p = None)
               (ticket_purchases (db w)).
Proof.
  intros Husers. split.
  - intros [w' Hrun] pid p Hp.
    destruct (ticket_types (db w) !! TicketPurchase.ticket_type p) as [tt|] eqn:Htt;
      [|done].
    destruct (wipe_protected w pid p tt Hp Htt) as (w1 & Hwipe & _).
    unfold handle, mbind, run_bind in Hrun. by rewrite Hwipe in Hrun.
  - intros Hnone.
    assert (returns handle w (λ _ _, True)) as ([] & w' & Hrun & _); [|by exists w'].
    unfold handle. apply returns_bind.
    eapply returns_Returned; [by apply wipe_returns|].
    intros [] w1 Hwipe Hseq.
    apply wipe_Returned in Hwipe as (Ho & He & Ht & Hor & Hp & Hu & _).
    apply populate_returns; try done.
    + constructor; rewrite ?Ho, ?He, ?Ht, ?Hor, ?Hp; try by intros id [? ?].
      rewrite Hu, Hseq. intros id [u [Hid Hin]%map_lookup_filter_Some].
      by apply (Husers id u Hid).
    + rewrite Hu. intros id u [Hid Hin]%map_lookup_filter_Some.
      apply username_not_generated. by apply (Husers id u Hid).
Qed.

(** X15 (generate_sample_data.py, [Command.handle]): the command cannot
    be run twice.  In the world a run has left, the next run raises
    [ProtectedError] at its first deletion and changes nothing. *)
Theorem handle_again w w1 :
  handle w = Returned () w1 → handle w1 = Raised ProtectedError w1.
Proof.
  unfold handle at 1.
  intros ([] & w0 & Hwipe & Hpopulate)%bind_Returned.
  apply wipe_Returned in Hwipe as (Ho & He & Ht & Hor & Hp & _).
  apply populate_Returned in Hpopulate
    as (_ & _ & _ & _ & [Hsize _] & _ & _ & Hevents & Htypes & _ & Hpurchases & _);
    [|done..].
  destruct (map_choose (ticket_purchases (db w1))) as (pid & p & Hpid).
  { intros Hempty. rewrite Hempty, map_size_empty in Hsize. lia. }
  destruct (Hpurchases pid p Hpid) as (_ & _ & tt & Htt & _).
  destruct (Htypes _ tt Htt) as ([e He'] & _).
  destruct (Hevents _ e He') as (Horg & _).
  destruct (wipe_protected w1 pid p tt Hpid Htt) as (w2 & Hwipe & _ & _ & _ & Hsame).
  unfold handle, mbind, run_bind. rewrite Hwipe. f_equal. apply Hsame.
  by exists e.
Qed.

End returns.

(** * generate_sample_data: a username that is taken *)

Section raises.
Import Command Returns.

Lemma outcome_bind {A B} (c : Run A) (f : A → Run B) w Q E :
  outcome c w (λ a w1, outcome (f a) w1 Q E) E → outcome (c ≫= f) w Q E.
Proof. unfold outcome, mbind, run_bind. by destruct (c w). Qed.

Lemma outcome_collect {A B} (I : nat → World → Prop) (body : A → Run B) E xs n w :
  (∀ i x w1, xs !! i = Some x → I (n + i)%nat w1 →
             outcome (body x) w1 (λ _ w2, I (S (n + i)) w2) E) →
  I n w → outcome (collect xs body) w (λ _ w', I (n + length xs)%nat w') E.
Proof.
  revert n w. induction xs as [|x xs IH]; intros n w Hbody HI.
  - unfold outcome. simpl. by rewrite Nat.add_0_r.
  - simpl. apply outcome_bind.
    pose proof (Hbody 0%nat x w eq_refl) as Hx. rewrite Nat.add_0_r in Hx.
    specialize (Hx HI). unfold outcome in Hx |- *.
    destruct (body x w) as [y w1|e w1]; [|done].
    apply outcome_bind.
    assert (outcome (collect xs body) w1
              (λ _ w', I (S n + length xs)%nat w') E) as Hxs.
    { apply IH; [|done]. intros i x' w2 Hx' HI2.
      rewrite Nat.add_succ_comm in HI2 |- *. by apply (Hbody (S i)). }
    unfold outcome in Hxs |- *.
    destruct (collect xs body w1) as [ys w2|e w2]; [|done].
    simpl. by rewrite <-Nat.add_succ_comm.
Qed.

(** X19 (generate_sample_data.py, [Command.handle]): when no purchase
    stands in the way of the deletions and a superuser, whose ids lie
    below the next id of the users' sequence, is called user0, ..., or
    user9, the command raises [IntegrityError] while it creates the
    users: the events, ticket types, orders and purchases it found are
    gone, and only the three new organizers are written. *)
Theorem handle_username_taken w id u :
  map_Forall (λ _ p, ticket_types (db w) !! TicketPurchase.ticket_type p = None)
             (ticket_purchases (db w)) →
  map_Forall (λ id _, id ∈ superusers w → id < user_id (sequences w)) (users (db w)) →
  users (db w) !! id = Some u → id ∈ superusers w →
  User.username u ∈ usernames →
  ∃ w', handle w = Raised IntegrityError w'
    ∧ size (organizers (db w')) = 3%nat
    ∧ events (db w') = ∅ ∧ ticket_types (db w') = ∅
    ∧ orders (db w') = ∅ ∧ ticket_purchases (db w') = ∅.
Proof.
  intros Hnone Hids Hu Hsuper (i & Hname & Hi%elem_of_seq)%list_elem_of_fmap.
  destruct (wipe_returns w Hnone) as ([] & w1 & Hwipe & Hseq).
  pose proof Hwipe as (Ho & He & Ht & Hor & Hp & Husers & _)%wipe_Returned.
  assert (Fresh w1) as Hfresh1.
  { constructor; rewrite ?Ho, ?He, ?Ht, ?Hor, ?Hp; try by intros ? [? ?].
    rewrite Husers, Hseq. intros id' [u' [Hid' Hin]%map_lookup_filter_Some].
    by apply (Hids id' u' Hid'). }
  destruct (organizers_returns w1 Hfresh1 Ho) as (organizers_ & w2 & Hrun1 & Hfresh2).
  pose proof Hrun1 as (To & Hdb2 & Hsize & _)%organizers_created.
  rewrite Ho, map_size_empty in Hsize.
  assert (users (db w2) !! id = Some u) as Hu2.
  { rewrite Hdb2. simpl. rewrite Husers. by apply map_lookup_filter_Some. }
  assert (outcome (collect (range 10) (λ i, create_user ("user" +:+ pretty i))) w2
            (λ _ _, False)
            (λ e w', e = IntegrityError ∧ db w' = with_users (db w2) (users (db w'))))
    as Hrun2.
  { assert (∀ (Q Q' : list (Z * User.t) → World → Prop) E c,
              outcome c w2 Q E → (∀ a w', Q a w' → Q' a w') → outcome c w2 Q' E)
      as Himpl.
    { intros Q Q' E c Hc HQ. unfold outcome in *. destruct (c w2); [by apply HQ|done]. }
    eapply Himpl;
      [apply (outcome_collect
                (λ j w', (j ≤ i)%nat ∧ Fresh w' ∧ users (db w') !! id = Some u
                         ∧ db w' = with_users (db w2) (users (db w'))))
         with (n := 0%nat)|].
    - intros j x w3 ->%lookup_range (Hj & Hfresh3 & Hu3 & Hdb3). simpl.
      unfold outcome, create_user, mbind, run_bind, datetime_now, insert_user.
      simpl. case_bool_decide as Hok.
      + destruct Hok as [Hnew Hnames]. split; [|split; [|split]].
        * destruct (decide (j = i)) as [->|]; [|lia].
          by destruct (Hnames id u Hu3).
        * destruct Hfresh3. constructor; simpl; try done. by apply fresh_insert.
        * simpl. rewrite lookup_insert_ne; [done|]. intros <-. congruence.
        * simpl. by rewrite Hdb3.
      + split; [done|]. by rewrite Hdb3 at 1.
    - split; [lia|]. split; [done|]. split; [done|]. by rewrite with_users_same.
    - intros _ w' (Hle & _). simpl in Hle. lia. }
  unfold outcome in Hrun2.
  destruct (collect (range 10) _ w2) as [users_ w3|e w3] eqn:Hrun2'; [done|].
  destruct Hrun2 as [-> Hdb3]. exists w3. split.
  - unfold handle, populate, mbind, run_bind. by rewrite Hwipe, Hrun1, Hrun2'.
  - rewrite Hdb3, Hdb2. simpl. by rewrite He, Ht, Hor, Hp.
Qed.

End raises.

(** * The queries on generated data *)

Section after.
Import Command.

Lemma filter_Forall {A} (P : A → Prop) `{!∀ x, Decision (P x)} (l : list A) :
  Forall P l → filter P l = l.
Proof.
  induction 1 as [|x l Hx Hl IH]; [done|].
  by rewrite filter_cons_True, IH.
Qed.

(** X16 (generate_sample_data.py, [Command.handle];
    event_analytics.py, get_events_with_low_capacity_remaining): on the
    data a run of the command leaves, the low-capacity query returns its
    rows on either backend: every capacity is NULL, 100 or 200, so the
    division never meets a zero capacity. *)
Theorem low_capacity_after_handle w w' backend threshold :
  handle w = Returned () w' →
  get_events_with_low_capacity_remaining (db w') backend threshold
  = Rows (low_capacity (db w') threshold).
Proof.
  unfold handle.
  intros ([] & w0 & Hwipe & Hpopulate)%bind_Returned.
  apply wipe_Returned in Hwipe as (Ho & He & Ht & Hor & Hp & _).
  apply populate_Returned in Hpopulate
    as (_ & _ & _ & _ & _ & _ & _ & Hevents & _); [|done..].
  unfold get_events_with_low_capacity_remaining.
  destruct backend; [done|]. rewrite bool_decide_false; [done|].
  intros (a & Ha & Hnone)%Exists_exists.
  assert (is_Some a.2) as [pct Hpct]; [|congruence].
  clear Hnone. revert a Ha. apply division_by_zero_iff. intros id e Hid.
  destruct (Hevents id e Hid) as (_ & _ & Hcapacity & _).
  apply elem_of_cons in Hcapacity as [->|Hcapacity]; [by left|]. right.
  apply elem_of_cons in Hcapacity as [->|Hcapacity]; [by exists 100%N|].
  apply list_elem_of_singleton in Hcapacity as ->. by exists 200%N.
Qed.

(** X17 (generate_sample_data.py, [Command.handle];
    event_analytics.py, get_top_selling_ticket_types): on the data a run
    of the command leaves, the ranking has [num_types] rows, or all 10
    ticket types when [num_types] is larger. *)
Theorem top_selling_after_handle w w' num_types :
  handle w = Returned () w' →
  length (get_top_selling_ticket_types (db w') num_types) = (num_types `min` 10)%nat.
Proof.
  unfold handle.
  intros ([] & w0 & Hwipe & Hpopulate)%bind_Returned.
  apply wipe_Returned in Hwipe as (Ho & He & Ht & Hor & Hp & _).
  apply populate_Returned in Hpopulate
    as (_ & _ & Hsize & _ & _ & _ & _ & _ & Htypes & _); [|done..].
  unfold get_top_selling_ticket_types.
  rewrite length_take, order_by_desc_Permutation, length_annotated_ticket_types.
  - by rewrite Hsize.
  - intros id tt Htt. by destruct (Htypes id tt Htt) as [? _].
Qed.

(** X18 (generate_sample_data.py, [Command.handle];
    event_analytics.py, get_upcoming_events_summary): every event the
    command writes ends at least 26 hours after the clock reading it
    was made from, the eleventh to the fifteenth of the run (the first
    ten are taken by the users), so a summary taken no later than 26
    hours after each of these five readings lists all 5 events. *)
Theorem upcoming_after_handle w w' now :
  handle w = Returned () w' →
  (∀ k, (read w + 10 ≤ k < read w + 15)%nat → now ≤ clock w k + 93600) →
  length (get_upcoming_events_summary (db w') now) = 5%nat.
Proof.
  unfold handle.
  intros ([] & w0 & Hwipe & Hpopulate)%bind_Returned Hnow.
  apply wipe_Returned in Hwipe as (Ho & He & Ht & Hor & Hp & _ & _ & Hc & Hr).
  apply populate_Returned in Hpopulate
    as (_ & Hsize & _ & _ & _ & _ & _ & Hevents & _); [|done..].
  rewrite Hc, Hr in Hevents.
  unfold get_upcoming_events_summary, upcoming_events, objects.
  rewrite length_fmap, filter_Forall; [by rewrite length_map_to_list|].
  apply Forall_forall. intros [id e] Hid%elem_of_map_to_list.
  destruct (Hevents id e Hid)
    as (_ & Hpublished & _ & Hend & _ & _ & k & d & Hk & Hd & Hstart).
  split; [done|]. simpl. specialize (Hnow k Hk). lia.
Qed.

End after.

(** * The added theorems at concrete stores *)

Lemma half_row_returned : Sample.half_row ∈ low_capacity Scenario.db 50.
Proof. vm_compute. repeat constructor. Defined.

(** [tickets_remaining_bounds] at event 1 of [Scenario.db]: capacity 100,
    50 sold, 50 remaining. *)
Lemma tickets_remaining_bounds_witness :
  Scenario.summary_E ∈ get_upcoming_events_summary Scenario.db 150
  ∧ events Scenario.db !! EventSummary.event_id Scenario.summary_E
    = Some (Scenario.event "E" (Some 100%N))
  ∧ EventSummary.tickets_remaining Scenario.summary_E ≤ 100
  ∧ 100 ≤ EventSummary.tickets_remaining Scenario.summary_E
          + EventSummary.total_tickets_sold Scenario.summary_E
  ∧ (EventSummary.total_tickets_sold Scenario.summary_E ≤ 100 →
     EventSummary.tickets_remaining Scenario.summary_E
     + EventSummary.total_tickets_sold Scenario.summary_E = 100)
  ∧ (100 ≤ EventSummary.total_tickets_sold Scenario.summary_E →
     EventSummary.tickets_remaining Scenario.summary_E = 0).
Proof.
  split; [exact summary_E_returned|]. split; [reflexivity|].
  exact (tickets_remaining_bounds Scenario.db 150 Scenario.summary_E
           (Scenario.event "E" (Some 100%N)) summary_E_returned eq_refl).
Defined.

(** [upcoming_events_summary_later] at [Scenario.db], times 0 and 150. *)
Lemma upcoming_events_summary_later_witness :
  0 ≤ 150
  ∧ get_upcoming_events_summary Scenario.db 150
      `sublist_of` get_upcoming_events_summary Scenario.db 0.
Proof.
  assert (0 ≤ 150) as Hle by lia.
  split; [exact Hle|].
  exact (upcoming_events_summary_later Scenario.db 0 150 Hle).
Defined.

(** [low_capacity_threshold_mono] at [Scenario.db], thresholds 10 and 50. *)
Lemma low_capacity_threshold_mono_witness :
  10 ≤ 50
  ∧ low_capacity Scenario.db 10
    = filter (λ r, LowCapacityEvent.percentage_tickets_remaining r ≤ 10)
             (low_capacity Scenario.db 50)
  ∧ low_capacity Scenario.db 10 `sublist_of` low_capacity Scenario.db 50.
Proof.
  assert (10 ≤ 50) as Hle by lia.
  split; [exact Hle|].
  exact (low_capacity_threshold_mono Scenario.db Sqlite 10 50
           (low_capacity Scenario.db 10) (low_capacity Scenario.db 50)
           Hle eq_refl eq_refl).
Defined.

(** [low_capacity_returned] at event 1 of [Scenario.db], capacity 100, on
    PostgreSQL with a threshold of 100. *)
Lemma low_capacity_returned_witness :
  get_events_with_low_capacity_remaining Scenario.db Postgresql 100
  = Rows (low_capacity Scenario.db 100)
  ∧ (100 ≤ 100 → 1 ∈ LowCapacityEvent.id <$> low_capacity Scenario.db 100)
  ∧ (0 ≤ 100 → 100 ≤ Spec.tickets_sold Scenario.db 1 →
     1 ∈ LowCapacityEvent.id <$> low_capacity Scenario.db 100)
  ∧ (Spec.tickets_sold Scenario.db 1 = 0 →
     (1 ∈ LowCapacityEvent.id <$> low_capacity Scenario.db 100 ↔ 100 ≤ 100)).
Proof.
  assert (get_events_with_low_capacity_remaining Scenario.db Postgresql 100
          = Rows (low_capacity Scenario.db 100)) as Hrows by (vm_compute; reflexivity).
  assert (100%N ≠ 0%N) as Hpos by discriminate.
  split; [exact Hrows|].
  exact (low_capacity_returned Scenario.db Postgresql 100 (low_capacity Scenario.db 100)
           1 (Scenario.event "E" (Some 100%N)) 100%N Hrows eq_refl eq_refl Hpos).
Defined.

(** [percentage_of_tickets_remaining] at event 1 of [Scenario.db]: 50 of
    100 tickets remain, 50 percent. *)
Lemma percentage_of_tickets_remaining_witness :
  Sample.half_row ∈ low_capacity Scenario.db 50
  ∧ Scenario.summary_E ∈ get_upcoming_events_summary Scenario.db 150
  ∧ LowCapacityEvent.tickets_sold Sample.half_row
    = EventSummary.total_tickets_sold Scenario.summary_E
  ∧ ∃ capacity,
      Event.capacity (LowCapacityEvent.event Sample.half_row) = Some capacity
      ∧ (LowCapacityEvent.tickets_sold Sample.half_row ≤ Z.of_N capacity →
         LowCapacityEvent.percentage_tickets_remaining Sample.half_row
         = (100 * EventSummary.tickets_remaining Scenario.summary_E)
             `quot` Z.of_N capacity)
      ∧ (Z.of_N capacity ≤ LowCapacityEvent.tickets_sold Sample.half_row →
         EventSummary.tickets_remaining Scenario.summary_E = 0
         ∧ LowCapacityEvent.percentage_tickets_remaining Sample.half_row ≤ 0).
Proof.
  split; [exact half_row_returned|]. split; [exact summary_E_returned|].
  exact (percentage_of_tickets_remaining Scenario.db Sqlite 50
           (low_capacity Scenario.db 50) 150 Sample.half_row Scenario.summary_E
           eq_refl half_row_returned summary_E_returned eq_refl).
Defined.

(** [top_selling_units_sold_prefix] at [Scenario.db], limits 1 and 2. *)
Lemma top_selling_units_sold_prefix_witness :
  (1 ≤ 2)%nat
  ∧ top_selling_result Scenario.db 1 (get_top_selling_ticket_types Scenario.db 1)
  ∧ top_selling_result Scenario.db 2 (get_top_selling_ticket_types Scenario.db 2)
  ∧ TicketTypeRanking.units_sold <$> get_top_selling_ticket_types Scenario.db 1
    = take 1 (TicketTypeRanking.units_sold
                <$> get_top_selling_ticket_types Scenario.db 2)
  ∧ NoDup (TicketTypeRanking.id <$> get_top_selling_ticket_types Scenario.db 2)
  ∧ top_selling_result Scenario.db 1 (get_top_selling_ticket_types Scenario.db 1).
Proof.
  assert (1 ≤ 2)%nat as Hle by lia.
  split; [exact Hle|].
  split; [exact (top_selling_is_result Scenario.db 1)|].
  split; [exact (top_selling_is_result Scenario.db 2)|].
  exact (top_selling_units_sold_prefix Scenario.db 1 2
           (get_top_selling_ticket_types Scenario.db 1)
           (get_top_selling_ticket_types Scenario.db 2) Hle
           (top_selling_is_result Scenario.db 1)
           (top_selling_is_result Scenario.db 2)).
Defined.

(** [units_sold_add_up] at event 1 of [Scenario.db] with a limit of 2,
    the number of ticket types. *)
Lemma units_sold_add_up_witness :
  (size (ticket_types Scenario.db) ≤ 2)%nat
  ∧ Scenario.summary_E ∈ get_upcoming_events_summary Scenario.db 150
  ∧ total TicketTypeRanking.units_sold
          (filter (λ r, TicketType.event (TicketTypeRanking.ticket_type r)
                        = EventSummary.event_id Scenario.summary_E)
                  (get_top_selling_ticket_types Scenario.db 2))
    = EventSummary.total_tickets_sold Scenario.summary_E.
Proof.
  assert (size (ticket_types Scenario.db) ≤ 2)%nat as Hsize by (vm_compute; lia).
  split; [exact Hsize|]. split; [exact summary_E_returned|].
  exact (units_sold_add_up Scenario.db 150 2 Scenario.summary_E Hsize
           summary_E_returned).
Defined.

(** [unpaid_purchase_ignored]: 7 more tickets on order 2 of
    [Scenario.db], which is not paid. *)
Lemma unpaid_purchase_ignored_witness :
  ticket_purchases Scenario.db !! 3 = None
  ∧ ¬ Spec.paid Scenario.db Sample.unpaid_purchase
  ∧ get_upcoming_events_summary
      (with_ticket_purchases Scenario.db
         (<[3 := Sample.unpaid_purchase]> (ticket_purchases Scenario.db))) 150
    = get_upcoming_events_summary Scenario.db 150
  ∧ get_top_selling_ticket_types
      (with_ticket_purchases Scenario.db
         (<[3 := Sample.unpaid_purchase]> (ticket_purchases Scenario.db))) 2
    = get_top_selling_ticket_types Scenario.db 2
  ∧ get_events_with_low_capacity_remaining
      (with_ticket_purchases Scenario.db
         (<[3 := Sample.unpaid_purchase]> (ticket_purchases Scenario.db)))
      Postgresql 50
    = get_events_with_low_capacity_remaining Scenario.db Postgresql 50.
Proof.
  assert (¬ Spec.paid Scenario.db Sample.unpaid_purchase) as Hunpaid.
  { intros (o & Ho & Hpaid). vm_compute in Ho. injection Ho as <-.
    discriminate Hpaid. }
  split; [reflexivity|]. split; [exact Hunpaid|].
  exact (unpaid_purchase_ignored Scenario.db 3 Sample.unpaid_purchase 150 2
           Postgresql 50 eq_refl Hunpaid).
Defined.

(** [other_orders_ignored]: an order of user 2 and the statistics of
    user 1 of [Scenario.db]. *)
Lemma other_orders_ignored_witness :
  orders Scenario.db !! 4 = None
  ∧ Order.customer Sample.other_order ≠ Some 1
  ∧ get_customer_purchase_statistics
      (with_orders Scenario.db (<[4 := Sample.other_order]> (orders Scenario.db))) 1
    = get_customer_purchase_statistics Scenario.db 1.
Proof.
  assert (Order.customer Sample.other_order ≠ Some 1) as Hother by discriminate.
  split; [reflexivity|]. split; [exact Hother|].
  exact (other_orders_ignored Scenario.db 1 4 Sample.other_order eq_refl Hother).
Defined.

(** [handle_protected] in [Example.sold]: purchase 1 of [Scenario.db]
    refers to ticket type 1. *)
Lemma handle_protected_witness :
  ticket_purchases (Command.db Example.sold) !! 1 = Some (Scenario.purchase 1 1 30)
  ∧ ∃ w', Command.handle Example.sold = Command.Raised ProtectedError w'
      ∧ ticket_purchases (Command.db w') = ticket_purchases (Command.db Example.sold)
      ∧ orders (Command.db w') = orders (Command.db Example.sold)
      ∧ users (Command.db w') = users (Command.db Example.sold)
      ∧ ((∃ e, events (Command.db Example.sold)
               !! TicketType.event (Scenario.ticket_type 1 60) = Some e
               ∧ is_Some (organizers (Command.db Example.sold) !! Event.organizer e)) →
         w' = Example.sold).
Proof.
  split; [reflexivity|].
  exact (handle_protected Example.sold 1 (Scenario.purchase 1 1 30)
           (Scenario.ticket_type 1 60) eq_refl eq_refl).
Defined.

Lemma example_generated :
  Command.handle Example.world = Command.Returned () Example.generated.
Proof. vm_compute. reflexivity. Defined.

(** [handle_generates] at the run from [Example.world]. *)
Lemma handle_generates_witness :
  Command.handle Example.world = Command.Returned () Example.generated
  ∧ Generated.t Example.world (Command.db Example.generated).
Proof.
  split; [exact example_generated|].
  exact (handle_generates Example.world Example.generated example_generated).
Defined.

Lemma example_superusers :
  map_Forall (λ id u, id ∈ Command.superusers Example.world →
                id < Command.user_id (Command.sequences Example.world)
                ∧ User.username u ∉ Returns.usernames)
             (users (Command.db Example.world)).
Proof.
  apply (bool_decide_unpack
           (map_Forall (λ id u, id ∈ Command.superusers Example.world →
                          id < Command.user_id (Command.sequences Example.world)
                          ∧ User.username u ∉ Returns.usernames)
                       (users (Command.db Example.world)))).
  vm_compute. exact I.
Defined.

(** [handle_returns] at [Example.world], whose superuser is admin, user
    1, and which holds no purchase. *)
Lemma handle_returns_witness :
  (∃ w', Command.handle Example.world = Command.Returned () w')
  ↔ map_Forall (λ _ p, ticket_types (Command.db Example.world)
                       !! TicketPurchase.ticket_type p = None)
               (ticket_purchases (Command.db Example.world)).
Proof. exact (handle_returns Example.world example_superusers). Defined.

(** [handle_again] after the run from [Example.world]. *)
Lemma handle_again_witness :
  Command.handle Example.world = Command.Returned () Example.generated
  ∧ Command.handle Example.generated
    = Command.Raised ProtectedError Example.generated.
Proof.
  split; [exact example_generated|].
  exact (handle_again Example.world Example.generated example_generated).
Defined.

(** [low_capacity_after_handle] after the run from [Example.world], on
    PostgreSQL. *)
Lemma low_capacity_after_handle_witness :
  Command.handle Example.world = Command.Returned () Example.generated
  ∧ get_events_with_low_capacity_remaining (Command.db Example.generated)
      Postgresql 50
    = Rows (low_capacity (Command.db Example.generated) 50).
Proof.
  split; [exact example_generated|].
  exact (low_capacity_after_handle Example.world Example.generated Postgresql 50
           example_generated).
Defined.

(** [top_selling_after_handle] after the run from [Example.world], with
    the limit of 3 that tests.py uses. *)
Lemma top_selling_after_handle_witness :
  Command.handle Example.world = Command.Returned () Example.generated
  ∧ length (get_top_selling_ticket_types (Command.db Example.generated) 3)
    = (3 `min` 10)%nat.
Proof.
  split; [exact example_generated|].
  exact (top_selling_after_handle Example.world Example.generated 3
           example_generated).
Defined.

Lemma example_clock k :
  (Command.read Example.world + 10 ≤ k < Command.read Example.world + 15)%nat →
  2000 ≤ Command.clock Example.world k + 93600.
Proof. intros Hk. simpl. lia. Defined.

(** [upcoming_after_handle] after the run from [Example.world], whose
    clock shows 1000 at the first reading, for a summary at time 2000. *)
Lemma upcoming_after_handle_witness :
  Command.handle Example.world = Command.Returned () Example.generated
  ∧ length (get_upcoming_events_summary (Command.db Example.generated) 2000)
    = 5%nat.
Proof.
  split; [exact example_generated|].
  exact (upcoming_after_handle Example.world Example.generated 2000
           example_generated example_clock).
Defined.

Lemma taken_no_purchase :
  map_Forall (λ _ p, ticket_types (Command.db Example.taken)
                     !! TicketPurchase.ticket_type p = None)
             (ticket_purchases (Command.db Example.taken)).
Proof.
  apply (bool_decide_unpack
           (map_Forall (λ _ p, ticket_types (Command.db Example.taken)
                               !! TicketPurchase.ticket_type p = None)
                       (ticket_purchases (Command.db Example.taken)))).
  vm_compute. exact I.
Defined.

Lemma taken_superusers :
  map_Forall (λ id _, id ∈ Command.superusers Example.taken →
                id < Command.user_id (Command.sequences Example.taken))
             (users (Command.db Example.taken)).
Proof.
  apply (bool_decide_unpack
           (map_Forall (λ id _, id ∈ Command.superusers Example.taken →
                          id < Command.user_id (Command.sequences Example.taken))
                       (users (Command.db Example.taken)))).
  vm_compute. exact I.
Defined.

Lemma taken_superuser : 1 ∈ Command.superusers Example.taken.
Proof.
  apply (bool_decide_unpack (1 ∈ Command.superusers Example.taken)).
  vm_compute. exact I.
Defined.

Lemma taken_username : "user3" ∈ Returns.usernames.
Proof. vm_compute. repeat constructor. Defined.

(** [handle_username_taken] in [Example.taken], whose superuser, user 1,
    is called user3. *)
Lemma handle_username_taken_witness :
  users (Command.db Example.taken) !! 1 = Some {| User.username := "user3" |}
  ∧ ∃ w', Command.handle Example.taken = Command.Raised IntegrityError w'
      ∧ size (organizers (Command.db w')) = 3%nat
      ∧ events (Command.db w') = ∅ ∧ ticket_types (Command.db w') = ∅
      ∧ orders (Command.db w') = ∅ ∧ ticket_purchases (Command.db w') = ∅.
Proof.
  split; [reflexivity|].
  exact (handle_username_taken Example.taken 1 {| User.username := "user3" |}
           taken_no_purchase taken_superusers eq_refl taken_superuser
           taken_username).
Defined.

(** [low_capacity_rows_quot] at [Scenario.fractions] with a threshold of
    66, where event 1, with 200/3 percent remaining, is returned. *)
Lemma low_capacity_rows_quot_witness :
  get_events_with_low_capacity_remaining Scenario.fractions Postgresql 66
  = Rows (low_capacity Scenario.fractions 66)
  ∧ NoDup (LowCapacityEvent.id <$> low_capacity Scenario.fractions 66)
  ∧ (∀ r, r ∈ low_capacity Scenario.fractions 66 →
          events Scenario.fractions !! LowCapacityEvent.id r
          = Some (LowCapacityEvent.event r))
  ∧ (∀ id, id ∈ LowCapacityEvent.id <$> low_capacity Scenario.fractions 66 ↔
       ∃ e capacity,
         events Scenario.fractions !! id = Some e
         ∧ Event.capacity e = Some capacity
         ∧ capacity ≠ 0%N
         ∧ (100 * (Z.of_N capacity - Spec.tickets_sold Scenario.fractions id))
             `quot` Z.of_N capacity
           ≤ 66).
Proof.
  assert (get_events_with_low_capacity_remaining Scenario.fractions Postgresql 66
          = Rows (low_capacity Scenario.fractions 66)) as Hrows
    by (vm_compute; reflexivity).
  split; [exact Hrows|].
  exact (low_capacity_rows_quot Scenario.fractions Postgresql 66
           (low_capacity Scenario.fractions 66) Hrows).
Defined.
